(** * gongshow: process-tree inspection, daemon shutdown and orphan remediation

    A shallow embedding of
      - [internal/proc/proc.go]   (package [proc]),
      - [internal/beads/daemon.go] (package [beads]: the stop passes and
        the health check),
      - the doctor's orphan checks (package [doctor]),
      - the text helpers of package [notify] and the RC file block of
        [internal/shell/integration.go] (package [shell]),
    followed by the properties of the specification that concern them
    and by further properties of the same code.

    Conventions.  A Go [int] is a [Z]; PIDs are never used in arithmetic and
    the counters are bounded by the number of processes, so no wrap-around
    is written.  A Go [string] is a [string] of bytes.  A Go
    [map[int]bool] used as a set is a [gset Z].  A pair [(v, err)] returned
    by a Go function is a pair [(v, option GoError)], because the callers
    sometimes read [v] although [err] is set.  The operating system is a
    parameter: a type of worlds with the system calls the code uses. *)

From Stdlib Require Import ZArith String Ascii DecimalString DecimalPos.
From stdpp Require Import gmap strings list.

Open Scope Z_scope.

(** ** The parts of Go's [strings] and [strconv] the code calls *)

Module GoStrings.

(** [strings.HasPrefix(s, prefix)]. *)
Fixpoint HasPrefix (s prefix : string) : bool :=
  match prefix, s with
  | EmptyString, _ => true
  | String _ _, EmptyString => false
  | String p prefix', String c s' => Ascii.eqb p c && HasPrefix s' prefix'
  end.

(** [strings.Contains(s, substr)]: the empty string occurs everywhere. *)
Fixpoint Contains (s substr : string) : bool :=
  HasPrefix s substr ||
  match s with
  | EmptyString => false
  | String _ s' => Contains s' substr
  end.

(** [strings.Split(s, sep)] for a one-byte separator [sep]: as many
    pieces as there are separators, plus one. *)
Fixpoint Split (s : string) (sep : ascii) : list string :=
  match s with
  | EmptyString => [EmptyString]
  | String c s' =>
      if Ascii.eqb c sep then EmptyString :: Split s' sep
      else match Split s' sep with
           | piece :: pieces => String c piece :: pieces
           | [] => [String c EmptyString]
           end
  end.

(** [strings.SplitN(s, sep, n)] for a one-byte separator and [n > 0]: at
    most [n] pieces, the last one being the unsplit remainder.  [n] is
    the number of pieces still allowed. *)
Fixpoint SplitN (s : string) (sep : ascii) (n : nat) : list string :=
  match n with
  | O => []
  | S O => [s]
  | S n' =>
      match s with
      | EmptyString => [EmptyString]
      | String c s' =>
          if Ascii.eqb c sep then EmptyString :: SplitN s' sep n'
          else match SplitN s' sep n with
               | piece :: pieces => String c piece :: pieces
               | [] => [String c EmptyString]
               end
      end
  end.

(** [strings.ReplaceAll(s, old, new)] for one-byte [old] and [new]. *)
Fixpoint ReplaceAll (s : string) (old new : ascii) : string :=
  match s with
  | EmptyString => EmptyString
  | String c s' =>
      String (if Ascii.eqb c old then new else c) (ReplaceAll s' old new)
  end.

(** The ASCII white space of [strings.Fields]: tab, line feed, vertical
    tab, form feed, carriage return, space. *)
Definition isAsciiSpace (c : ascii) : bool :=
  let n := Z.of_N (N_of_ascii c) in
  ((9 <=? n) && (n <=? 13)) || (n =? 32).

(** [strings.Fields(s)] on ASCII input (what the kernel writes in
    [children]): the maximal runs of bytes that are not white space.
    [cur] is the field being read. *)
Fixpoint FieldsFrom (s cur : string) : list string :=
  match s with
  | EmptyString =>
      match cur with EmptyString => [] | _ => [cur] end
  | String c s' =>
      if isAsciiSpace c then
        match cur with
        | EmptyString => FieldsFrom s' EmptyString
        | _ => cur :: FieldsFrom s' EmptyString
        end
      else FieldsFrom s' (cur +:+ String c EmptyString)
  end.

Definition Fields (s : string) : list string := FieldsFrom s EmptyString.

(** [strconv.Itoa]. *)
Definition Itoa (i : Z) : string := NilZero.string_of_int (Z.to_int i).

Definition minInt : Z := - 2 ^ 63.
Definition maxInt : Z := 2 ^ 63 - 1.

Definition digit (c : ascii) : option Z :=
  let n := Z.of_N (N_of_ascii c) in
  if (48 <=? n) && (n <=? 57) then Some (n - 48) else None.

Fixpoint digits (s : string) (acc : Z) : option Z :=
  match s with
  | EmptyString => Some acc
  | String c s' =>
      match digit c with
      | Some d => digits s' (acc * 10 + d)
      | None => None
      end
  end.

(** [strconv.Atoi]: an optional sign, then at least one decimal digit and
    nothing else; [None] is the syntax or range error. *)
Definition Atoi (s : string) : option Z :=
  let '(neg, body) :=
    match s with
    | String c s' =>
        if Ascii.eqb c "-" then (true, s')
        else if Ascii.eqb c "+" then (false, s')
        else (false, s)
    | EmptyString => (false, s)
    end in
  match body with
  | EmptyString => None
  | _ =>
      match digits body 0 with
      | Some n =>
          let v := if neg then - n else n in
          if (minInt <=? v) && (v <=? maxInt) then Some v else None
      | None => None
      end
  end.

End GoStrings.

(** ** The operating system, as the code sees it *)

Module OS.

(** [syscall.Errno] values [kill(2)] can return. *)
Inductive Errno := ESRCH | EPERM | EINVAL.

(** A Go [error]: an errno, a message, or [fmt.Errorf("...: %w", err)]. *)
Inductive GoError :=
| SysError (e : Errno)
| ErrorString (msg : string)
| WrapError (msg : string) (cause : GoError).

(** [syscall.Signal]; [0] is the existence probe. *)
Definition Signal := Z.
Definition SIGKILL : Signal := 9.
Definition SIGTERM : Signal := 15.

(** [os.DirEntry], as far as the code reads it. *)
Record DirEntry := { Name : string; IsDir : bool }.

(** A snapshot of the file system: [os.ReadFile] and [os.ReadDir];
    [None] is any error. *)
Record FileSystem := {
  ReadFile : string -> option string;
  ReadDir : string -> option (list DirEntry)
}.

(** The kernel: a world [W] changes by [syscall.Kill] and by the time
    that passes in [time.Sleep] (nanoseconds); the file system is read
    from the current world. *)
Class Kernel (W : Type) := {
  Kill : Z -> Signal -> W -> option Errno * W;
  files : W -> FileSystem;
  Sleep : Z -> W -> W
}.

End OS.

(** ** Package [proc] *)

Module Proc.
Import GoStrings OS.

Section Inspector.
Variable fs : FileSystem.

(** [filepath.Join("/proc", strconv.Itoa(pid), "task", strconv.Itoa(pid), "children")] *)
Definition childrenPath (pid : Z) : string :=
  "/proc/" +:+ Itoa pid +:+ "/task/" +:+ Itoa pid +:+ "/children".

Definition GetChildren (pid : Z) : list Z :=
  match ReadFile fs (childrenPath pid) with
  | None => []
  | Some data => omap Atoi (Fields data)
  end.

(** The loop of [GetAllDescendants] over [children]; [rec] is the
    recursive call, [None] when it does not return. *)
Fixpoint descend (rec : Z -> option (list Z)) (children result : list Z)
  : option (list Z) :=
  match children with
  | [] => Some result
  | child :: children' =>
      match rec child with
      | Some grandchildren =>
          descend rec children' ((result ++ grandchildren) ++ [child])
      | None => None
      end
  end.

(** [GetAllDescendants]: the recursion of the source has no bound, so
    the model takes the call depth it is allowed ([fuel]) and answers
    [None] when the source would recurse deeper. *)
Fixpoint GetAllDescendants (fuel : nat) (pid : Z) : option (list Z) :=
  match fuel with
  | O => None
  | S fuel' => descend (GetAllDescendants fuel') (GetChildren pid) []
  end.

Definition cmdlinePath (pid : Z) : string :=
  "/proc/" +:+ Itoa pid +:+ "/cmdline".

Definition getCmdline (pid : Z) : string :=
  match ReadFile fs (cmdlinePath pid) with
  | None => EmptyString
  | Some data => ReplaceAll data "000" " "
  end.

(** The loop of [CountByPattern]. *)
Fixpoint countEntries (pattern : string) (entries : list DirEntry) (count : Z) : Z :=
  match entries with
  | [] => count
  | entry :: entries' =>
      if negb (IsDir entry) then countEntries pattern entries' count
      else match Atoi (Name entry) with
           | None => countEntries pattern entries' count
           | Some pid =>
               if Contains (getCmdline pid) pattern
               then countEntries pattern entries' (count + 1)
               else countEntries pattern entries' count
           end
  end.

Definition CountByPattern (pattern : string) : Z :=
  match ReadDir fs "/proc" with
  | None => 0
  | Some entries => countEntries pattern entries 0
  end.

(** The loop of [FindByPattern]. *)
Fixpoint findEntries (pattern : string) (entries : list DirEntry) (pids : list Z)
  : list Z :=
  match entries with
  | [] => pids
  | entry :: entries' =>
      if negb (IsDir entry) then findEntries pattern entries' pids
      else match Atoi (Name entry) with
           | None => findEntries pattern entries' pids
           | Some pid =>
               if Contains (getCmdline pid) pattern
               then findEntries pattern entries' (pids ++ [pid])
               else findEntries pattern entries' pids
           end
  end.

Definition FindByPattern (pattern : string) : list Z :=
  match ReadDir fs "/proc" with
  | None => []
  | Some entries => findEntries pattern entries []
  end.

End Inspector.

Section Signals.
Context {W : Type} `{Kernel W}.

Definition Signal (pid : Z) (sig : OS.Signal) (w : W) : option GoError * W :=
  let '(err, w') := Kill pid sig w in (SysError <$> err, w').

(** [SignalAll]: the number of deliveries the kernel accepted. *)
Fixpoint SignalAll (pids : list Z) (sig : OS.Signal) (sent : Z) (w : W) : Z * W :=
  match pids with
  | [] => (sent, w)
  | pid :: pids' =>
      let '(err, w') := Kill pid sig w in
      match err with
      | None => SignalAll pids' sig (sent + 1) w'
      | Some _ => SignalAll pids' sig sent w'
      end
  end.

(** [Exists]: [syscall.Kill(pid, 0) == nil]. *)
Definition Exists (pid : Z) (w : W) : bool * W :=
  let '(err, w') := Kill pid 0 w in
  (match err with None => true | Some _ => false end, w').

End Signals.

End Proc.

(** ** Package [beads]: stopping the bd daemons and activity processes *)

Module Beads.
Import GoStrings OS.

Section Daemon.
Context {W : Type} `{Kernel W}.

(** [exec.LookPath("bd")], outside this code. *)
Variable LookPath : string -> W -> option GoError.

Definition second : Z := 1000000000.
Definition millisecond : Z := 1000000.
Definition gracefulTimeout : Z := 2 * second.

Definition CountBdDaemons (w : W) : Z :=
  Proc.CountByPattern (files w) "bd daemon".

Definition CountBdActivityProcesses (w : W) : Z :=
  Proc.CountByPattern (files w) "bd activity".

(** [stopBdDaemons]: [(killed, remaining)]. *)
Definition stopBdDaemons (force : bool) (w : W) : (Z * Z) * W :=
  let before := CountBdDaemons w in
  if before =? 0 then ((0, 0), w)
  else
    let pids := Proc.FindByPattern (files w) "bd daemon" in
    let w1 :=
      if force then snd (Proc.SignalAll pids SIGKILL 0 w)
      else
        let w' := Sleep gracefulTimeout (snd (Proc.SignalAll pids SIGTERM 0 w)) in
        if 0 <? CountBdDaemons w'
        then snd (Proc.SignalAll (Proc.FindByPattern (files w') "bd daemon") SIGKILL 0 w')
        else w' in
    let w2 := Sleep (100 * millisecond) w1 in
    let final := CountBdDaemons w2 in
    let killed := before - final in
    let killed := if killed <? 0 then 0 else killed in
    ((killed, final), w2).

(** [stopBdActivityProcesses]: [(killed, remaining)]. *)
Definition stopBdActivityProcesses (force : bool) (w : W) : (Z * Z) * W :=
  let before := CountBdActivityProcesses w in
  if before =? 0 then ((0, 0), w)
  else
    let pids := Proc.FindByPattern (files w) "bd activity" in
    let w1 :=
      if force then snd (Proc.SignalAll pids SIGKILL 0 w)
      else
        let w' := Sleep gracefulTimeout (snd (Proc.SignalAll pids SIGTERM 0 w)) in
        if 0 <? CountBdActivityProcesses w'
        then snd (Proc.SignalAll (Proc.FindByPattern (files w') "bd activity") SIGKILL 0 w')
        else w' in
    let w2 := Sleep (100 * millisecond) w1 in
    let after := CountBdActivityProcesses w2 in
    let killed := before - after in
    let killed := if killed <? 0 then 0 else killed in
    ((killed, after), w2).

(** [StopAllBdProcesses]: [(daemonsKilled, activityKilled, err)]. *)
Definition StopAllBdProcesses (dryRun force : bool) (w : W)
  : (Z * Z * option GoError) * W :=
  match LookPath "bd" w with
  | Some _ => ((0, 0, None), w)
  | None =>
      let daemonsBefore := CountBdDaemons w in
      let activityBefore := CountBdActivityProcesses w in
      if dryRun then ((daemonsBefore, activityBefore, None), w)
      else
        let '((daemonsKilled, daemonsRemaining), w1) := stopBdDaemons force w in
        let '((activityKilled, activityRemaining), w2) :=
          stopBdActivityProcesses force w1 in
        if 0 <? daemonsRemaining then
          ((daemonsKilled, activityKilled,
            Some (ErrorString ("bd daemon shutdown incomplete: "
                               +:+ Itoa daemonsRemaining +:+ " still running"))), w2)
        else if 0 <? activityRemaining then
          ((daemonsKilled, activityKilled,
            Some (ErrorString ("bd activity shutdown incomplete: "
                               +:+ Itoa activityRemaining +:+ " still running"))), w2)
        else ((daemonsKilled, activityKilled, None), w2)
  end.

End Daemon.

End Beads.

(** ** Package [doctor]: the orphan-session check *)

Module Doctor.
Import GoStrings OS.

Inductive CheckStatus := StatusOK | StatusWarning | StatusError.

Record CheckResult := {
  ResultName : string;
  Status : CheckStatus;
  Message : string;
  Details : list string;
  FixHint : string
}.

Record CheckContext := { TownRoot : string; DryRun : bool }.

(** [err.Error()]. *)
Fixpoint ErrorText (err : GoError) : string :=
  match err with
  | SysError ESRCH => "no such process"
  | SysError EPERM => "operation not permitted"
  | SysError EINVAL => "invalid argument"
  | ErrorString msg => msg
  | WrapError msg cause => msg +:+ ": " +:+ ErrorText cause
  end.

(** [isCrewSession]: the pattern is positional, [parts[2]] is read only
    when there are at least four parts. *)
Definition isCrewSession (session : string) : bool :=
  let parts := Split session "-" in
  (4 <=? Z.of_nat (length parts))
  && String.eqb (nth 0 parts EmptyString) "gt"
  && String.eqb (nth 2 parts EmptyString) "crew".

(** The search for [rigName] in [validRigs]. *)
Fixpoint rigFound (validRigs : list string) (rigName : string) : bool :=
  match validRigs with
  | [] => false
  | r :: validRigs' => if String.eqb r rigName then true else rigFound validRigs' rigName
  end.

Definition isValidSession (sess : string) (validRigs : list string)
    (mayorSession deaconSession : string) : bool :=
  if negb (String.eqb mayorSession EmptyString) && String.eqb sess mayorSession then true
  else if negb (String.eqb deaconSession EmptyString) && String.eqb sess deaconSession then true
  else
    let parts := SplitN sess "-" 3 in
    if (Z.of_nat (length parts) <? 3) then false
    else
      let rigName := nth 1 parts EmptyString in
      if negb (rigFound validRigs rigName) then false
      else
        let role := nth 2 parts EmptyString in
        if String.eqb role "witness" || String.eqb role "refinery" then true
        else true.

(** The classification loop of [Run]: [(orphans, validCount)]. *)
Fixpoint classify (sessions validRigs : list string) (mayorSession deaconSession : string)
    (orphans : list string) (validCount : Z) : list string * Z :=
  match sessions with
  | [] => (orphans, validCount)
  | sess :: sessions' =>
      if String.eqb sess EmptyString then
        classify sessions' validRigs mayorSession deaconSession orphans validCount
      else if negb (HasPrefix sess "gt-") then
        classify sessions' validRigs mayorSession deaconSession orphans validCount
      else if isValidSession sess validRigs mayorSession deaconSession then
        classify sessions' validRigs mayorSession deaconSession orphans (validCount + 1)
      else
        classify sessions' validRigs mayorSession deaconSession (orphans ++ [sess]) validCount
  end.

(** The tmux server and the event feed, outside this code:
    [ListSessions], [KillSession] and [events.LogFeed] of a session-death
    event (session, agent, reason, caller). *)
Class Tmux (W : Type) := {
  ListSessions : W -> list string * option GoError;
  KillSession : string -> W -> option GoError * W;
  LogSessionDeath : string -> string -> string -> string -> W -> W
}.

(** What a pass did to the sessions, in order. *)
Inductive SessionAction :=
| LoggedDeath (sess : string)
| IssuedKill (sess : string) (err : option GoError).

(** The check object: the orphans cached by [Run] for [Fix]. *)
Record OrphanSessionCheck := { orphanSessions : list string }.

Section OrphanSessions.
Context {W : Type} `{Tmux W}.

(** [OrphanSessionCheck.Run]; [validRigs] is [c.getValidRigs(ctx.TownRoot)],
    [mayorSession] and [deaconSession] are [session.MayorSessionName()]
    and [session.DeaconSessionName()]. *)
Definition RunSessions (c : OrphanSessionCheck) (validRigs : list string)
    (mayorSession deaconSession : string) (w : W)
  : CheckResult * OrphanSessionCheck :=
  let '(sessions, err) := ListSessions w in
  match err with
  | Some e =>
      ({| ResultName := "orphan-sessions"; Status := StatusWarning;
          Message := "Could not list tmux sessions";
          Details := [ErrorText e]; FixHint := EmptyString |}, c)
  | None =>
      match sessions with
      | [] =>
          ({| ResultName := "orphan-sessions"; Status := StatusOK;
              Message := "No tmux sessions found";
              Details := []; FixHint := EmptyString |}, c)
      | _ =>
          let '(orphans, validCount) :=
            classify sessions validRigs mayorSession deaconSession [] 0 in
          let c' := {| orphanSessions := orphans |} in
          match orphans with
          | [] =>
              ({| ResultName := "orphan-sessions"; Status := StatusOK;
                  Message := "All " +:+ Itoa validCount +:+ " GongShow sessions are valid";
                  Details := []; FixHint := EmptyString |}, c')
          | _ =>
              ({| ResultName := "orphan-sessions"; Status := StatusWarning;
                  Message := "Found " +:+ Itoa (Z.of_nat (length orphans))
                             +:+ " orphaned session(s)";
                  Details := (fun session => "Orphan: " +:+ session) <$> orphans;
                  FixHint := "Run 'gt doctor --fix' to kill orphaned sessions" |}, c')
          end
      end
  end.

(** The state of the loop of [Fix]: the last kill error, what was done
    so far, and the world. *)
Record SessionFix := {
  sessLastErr : option GoError;
  sessActions : list SessionAction;
  sessWorld : W
}.

Definition fixSession (st : SessionFix) (sess : string) : SessionFix :=
  if isCrewSession sess then st
  else
    let w1 := LogSessionDeath sess "unknown" "orphan cleanup" "gt doctor" (sessWorld st) in
    let '(err, w2) := KillSession sess w1 in
    {| sessLastErr := match err with Some e => Some e | None => sessLastErr st end;
       sessActions := sessActions st ++ [LoggedDeath sess; IssuedKill sess err];
       sessWorld := w2 |}.

(** [OrphanSessionCheck.Fix]: the returned error and the final state. *)
Definition FixSessions (c : OrphanSessionCheck) (w : W) : option GoError * SessionFix :=
  let start := {| sessLastErr := None; sessActions := []; sessWorld := w |} in
  match orphanSessions c with
  | [] => (None, start)
  | _ =>
      let st := fold_left fixSession (orphanSessions c) start in
      (sessLastErr st, st)
  end.

End OrphanSessions.
Arguments SessionFix : clear implicits.

(** ** Package [doctor]: the orphan-process check *)

Record processInfo := { pid : Z; ppid : Z; cmd : string }.

(** The interface [ProcessLister]; every method reads the current world. *)
Class ProcessLister (W : Type) := {
  ListTmuxServerPIDs : W -> list Z * option GoError;
  ListPanePIDs : W -> list Z * option GoError;
  ListRuntimeProcesses : W -> list processInfo * option GoError;
  GetParentPID : Z -> W -> Z * option GoError
}.

(** The check object: the orphans cached by [Run] for [Fix]. *)
Record OrphanProcessCheck := { orphanProcesses : list processInfo }.

Definition maxAncestryDepth : nat := 8.

(** What the dry run prints for a candidate it would kill, and for the
    candidates it would skip. *)
Definition wouldKillLine (proc : processInfo) : string :=
  "[dry-run] Would kill PID " +:+ Itoa (pid proc) +:+ ": " +:+ cmd proc.

Definition wouldSkipLine (skipped : Z) : string :=
  "[dry-run] " +:+ Itoa skipped +:+ " process(es) now have tmux ancestors, would skip".

(** [for _, pid := range pids { set[pid] = true }] *)
Definition addPIDs (pids : list Z) (set : gset Z) : gset Z :=
  fold_left (fun set pid => {[pid]} ∪ set) pids set.

Section OrphanProcesses.
Context {W : Type} `{Kernel W} `{ProcessLister W}.

(** [getTmuxSessionPIDs]; its error is always nil. *)
Definition getTmuxSessionPIDs (w : W) : gset Z :=
  let '(serverPIDs, err) := ListTmuxServerPIDs w in
  match err with
  | Some _ => ∅
  | None =>
      let pids := addPIDs serverPIDs ∅ in
      let '(panePIDs, err) := ListPanePIDs w in
      match err with
      | Some _ => pids
      | None => addPIDs panePIDs pids
      end
  end.

(** The loop of [isOrphanProcess], [levels] being
    [maxAncestryDepth - depth].  Next to the answer it gives the PIDs
    [GetParentPID] was called on so far ([lookups]), in order. *)
Fixpoint walkAncestors (levels : nat) (currentPPID : Z) (visited tmuxPIDs : gset Z)
    (w : W) (lookups : list Z) : bool * list Z :=
  match levels with
  | O => (true, lookups)
  | S levels' =>
      if (1 <? currentPPID) && negb (bool_decide (currentPPID ∈ visited)) then
        if bool_decide (currentPPID ∈ tmuxPIDs) then (false, lookups)
        else
          let '(nextPPID, err) := GetParentPID currentPPID w in
          match err with
          | Some _ => (true, lookups ++ [currentPPID])
          | None =>
              walkAncestors levels' nextPPID ({[currentPPID]} ∪ visited) tmuxPIDs w
                (lookups ++ [currentPPID])
          end
      else (true, lookups)
  end.

(** The parent the walk starts from: the current one, or the cached
    one when the lookup fails. *)
Definition startPPID (proc : processInfo) (w : W) : Z :=
  let '(currentPPID, err) := GetParentPID (pid proc) w in
  match err with
  | Some _ => ppid proc
  | None => currentPPID
  end.

Definition isOrphanProcessLookups (proc : processInfo) (tmuxPIDs : gset Z) (w : W)
  : bool * list Z :=
  walkAncestors maxAncestryDepth (startPPID proc w) ∅ tmuxPIDs w [pid proc].

(** [isOrphanProcess]. *)
Definition isOrphanProcess (proc : processInfo) (tmuxPIDs : gset Z) (w : W) : bool :=
  fst (isOrphanProcessLookups proc tmuxPIDs w).

(** The classification loop of [Run]: [(outsideTmux, insideTmux)]. *)
Fixpoint classifyProcesses (runtimeProcs : list processInfo) (tmuxPIDs : gset Z) (w : W)
    (outsideTmux : list processInfo) (insideTmux : Z) : list processInfo * Z :=
  match runtimeProcs with
  | [] => (outsideTmux, insideTmux)
  | proc :: runtimeProcs' =>
      if isOrphanProcess proc tmuxPIDs w
      then classifyProcesses runtimeProcs' tmuxPIDs w (outsideTmux ++ [proc]) insideTmux
      else classifyProcesses runtimeProcs' tmuxPIDs w outsideTmux (insideTmux + 1)
  end.

(** [OrphanProcessCheck.Run]. *)
Definition RunProcesses (c : OrphanProcessCheck) (w : W)
  : CheckResult * OrphanProcessCheck :=
  let tmuxPIDs := getTmuxSessionPIDs w in
  let '(runtimeProcs, err) := ListRuntimeProcesses w in
  match err with
  | Some e =>
      ({| ResultName := "orphan-processes"; Status := StatusWarning;
          Message := "Could not list runtime processes";
          Details := [ErrorText e]; FixHint := EmptyString |}, c)
  | None =>
      match runtimeProcs with
      | [] =>
          ({| ResultName := "orphan-processes"; Status := StatusOK;
              Message := "No runtime processes found";
              Details := []; FixHint := EmptyString |}, c)
      | _ =>
          let '(outsideTmux, insideTmux) :=
            classifyProcesses runtimeProcs tmuxPIDs w [] 0 in
          let c' := {| orphanProcesses := outsideTmux |} in
          match outsideTmux with
          | [] =>
              ({| ResultName := "orphan-processes"; Status := StatusOK;
                  Message := "All " +:+ Itoa insideTmux
                             +:+ " runtime processes are inside tmux";
                  Details := []; FixHint := EmptyString |}, c')
          | _ =>
              ({| ResultName := "orphan-processes"; Status := StatusWarning;
                  Message := "Found " +:+ Itoa (Z.of_nat (length outsideTmux))
                             +:+ " orphaned runtime process(es)";
                  Details :=
                    ["These processes have no tmux pane ancestor (checked 8 levels).";
                     "Orphaned processes detected:"]
                    ++ ((fun proc => "  PID " +:+ Itoa (pid proc) +:+ ": " +:+ cmd proc
                                     +:+ " (parent: " +:+ Itoa (ppid proc) +:+ ")")
                          <$> outsideTmux);
                  FixHint := "Run 'gt doctor --fix' to kill orphaned processes" |}, c')
          end
      end
  end.

(** The state of the loop of [Fix]: its three variables, what was
    printed, every call of [syscallKill] so far as
    [(pid, signal, error)], and the world. *)
Record ProcessFix := {
  killed : Z;
  skipped : Z;
  lastErr : option GoError;
  printed : list string;
  signals : list (Z * Signal * option Errno);
  world : W
}.

(** One iteration of the loop of [Fix]; [syscallKill] is [syscall.Kill]. *)
Definition fixProcess (dryRun : bool) (panePIDSet : gset Z) (st : ProcessFix)
    (proc : processInfo) : ProcessFix :=
  if negb (isOrphanProcess proc panePIDSet (world st)) then
    {| killed := killed st; skipped := skipped st + 1; lastErr := lastErr st;
       printed := printed st; signals := signals st; world := world st |}
  else
    let '(err, w1) := Kill (pid proc) 0 (world st) in
    match err with
    | Some _ =>
        {| killed := killed st; skipped := skipped st; lastErr := lastErr st;
           printed := printed st; signals := signals st ++ [(pid proc, 0, err)];
           world := w1 |}
    | None =>
        if dryRun then
          {| killed := killed st + 1; skipped := skipped st; lastErr := lastErr st;
             printed := printed st ++ [wouldKillLine proc];
             signals := signals st ++ [(pid proc, 0, None)]; world := w1 |}
        else
          let '(err2, w2) := Kill (pid proc) SIGTERM w1 in
          match err2 with
          | Some e =>
              {| killed := killed st; skipped := skipped st;
                 lastErr := Some (WrapError ("failed to kill PID " +:+ Itoa (pid proc))
                                    (SysError e));
                 printed := printed st;
                 signals := signals st ++ [(pid proc, 0, None); (pid proc, SIGTERM, err2)];
                 world := w2 |}
          | None =>
              {| killed := killed st + 1; skipped := skipped st; lastErr := lastErr st;
                 printed := printed st;
                 signals := signals st ++ [(pid proc, 0, None); (pid proc, SIGTERM, err2)];
                 world := w2 |}
          end
    end.

Definition startFix (w : W) : ProcessFix :=
  {| killed := 0; skipped := 0; lastErr := None; printed := []; signals := [];
     world := w |}.

(** The loop of [Fix] over the cached candidates. *)
Definition fixLoop (dryRun : bool) (panePIDSet : gset Z)
    (orphans : list processInfo) (st : ProcessFix) : ProcessFix :=
  fold_left (fixProcess dryRun panePIDSet) orphans st.

(** The registry [Fix] samples before its loop: pane PIDs, then server
    PIDs (whose listing error is dropped). *)
Definition freshPanePIDSet (currentPanePIDs : list Z) (w : W) : gset Z :=
  addPIDs (fst (ListTmuxServerPIDs w)) (addPIDs currentPanePIDs ∅).

(** [OrphanProcessCheck.Fix]: the returned error and the final state. *)
Definition FixProcesses (c : OrphanProcessCheck) (ctx : CheckContext) (w : W)
  : option GoError * ProcessFix :=
  match orphanProcesses c with
  | [] => (None, startFix w)
  | _ =>
      let '(currentPanePIDs, err) := ListPanePIDs w in
      match err with
      | Some e =>
          (Some (WrapError "failed to list current pane PIDs" e), startFix w)
      | None =>
          let panePIDSet := freshPanePIDSet currentPanePIDs w in
          let st := fixLoop (DryRun ctx) panePIDSet (orphanProcesses c) (startFix w) in
          if DryRun ctx then
            (None,
             if 0 <? skipped st then
               {| killed := killed st; skipped := skipped st; lastErr := lastErr st;
                  printed := printed st ++ [wouldSkipLine (skipped st)];
                  signals := signals st; world := world st |}
             else st)
          else
            match lastErr st with
            | Some e => if killed st =? 0 then (Some e, st) else (None, st)
            | None => (None, st)
            end
      end
  end.

End OrphanProcesses.
Arguments ProcessFix : clear implicits.

End Doctor.

(** ** A small simulated machine

    One concrete world on which the functions above can be run: a process
    table, the tmux panes, servers and sessions, and the process tables that
    will be found after each coming [time.Sleep]. *)

Module Sim.
Import GoStrings OS Doctor.

Record Process := {
  p_pid : Z;
  p_ppid : Z;
  p_cmdline : string;   (* argv joined by spaces *)
  p_owned : bool        (* may the caller signal it? *)
}.

Record World := {
  procs : list Process;
  panes : list Z;
  servers : list Z;
  sessions : list string;
  deaths : list string;
  later : list (list Process)
}.

Definition find (pid : Z) (ps : list Process) : option Process :=
  List.find (fun p => p_pid p =? pid) ps.

(** [kill(2)]: [ESRCH] without such a process, [EPERM] without the right
    to signal it; signal 0 delivers nothing; any other signal ends the
    process, whose children go to PID 1. *)
Definition kill (pid : Z) (sig : Signal) (w : World) : option Errno * World :=
  match find pid (procs w) with
  | None => (Some ESRCH, w)
  | Some p =>
      if negb (p_owned p) then (Some EPERM, w)
      else if sig =? 0 then (None, w)
      else
        (None,
         {| procs :=
              (fun q => if p_ppid q =? pid
                        then {| p_pid := p_pid q; p_ppid := 1;
                                p_cmdline := p_cmdline q; p_owned := p_owned q |}
                        else q)
                <$> filter (fun q => p_pid q ≠ pid) (procs w);
            panes := panes w; servers := servers w; sessions := sessions w;
            deaths := deaths w; later := later w |})
  end.

(** The text of [/proc/<pid>/task/<pid>/children]. *)
Definition childrenText (pid : Z) (ps : list Process) : string :=
  fold_right (fun q text => if p_ppid q =? pid then Itoa (p_pid q) +:+ " " +:+ text else text)
    EmptyString ps.

Definition procFiles (ps : list Process) : list (string * string) :=
  flat_map (fun p =>
    [(Proc.childrenPath (p_pid p), childrenText (p_pid p) ps);
     (Proc.cmdlinePath (p_pid p), ReplaceAll (p_cmdline p) " " "000")]) ps.

Fixpoint lookupFile (path : string) (files : list (string * string)) : option string :=
  match files with
  | [] => None
  | (name, text) :: files' => if String.eqb name path then Some text else lookupFile path files'
  end.

Definition procfs (ps : list Process) : FileSystem :=
  {| ReadFile := fun path => lookupFile path (procFiles ps);
     ReadDir := fun path =>
       if String.eqb path "/proc" then
         Some (((fun p => {| Name := Itoa (p_pid p); IsDir := true |}) <$> ps)
               ++ [{| Name := "self"; IsDir := true |};
                   {| Name := "cpuinfo"; IsDir := false |}])
       else None |}.

Definition sleep (_ : Z) (w : World) : World :=
  match later w with
  | [] => w
  | ps :: later' =>
      {| procs := ps; panes := panes w; servers := servers w; sessions := sessions w;
         deaths := deaths w; later := later' |}
  end.

#[export] Instance kernel : Kernel World :=
  {| Kill := kill; files := fun w => procfs (procs w); Sleep := sleep |}.

#[export] Instance tmux : Tmux World :=
  {| ListSessions := fun w => (sessions w, None);
     KillSession := fun sess w =>
       if bool_decide (sess ∈ sessions w) then
         (None,
          {| procs := procs w; panes := panes w; servers := servers w;
             sessions := filter (fun s => s ≠ sess) (sessions w);
             deaths := deaths w; later := later w |})
       else (Some (ErrorString "session not found"), w);
     LogSessionDeath := fun sess _ _ _ w =>
       {| procs := procs w; panes := panes w; servers := servers w;
          sessions := sessions w; deaths := deaths w ++ [sess]; later := later w |} |}.

#[export] Instance lister : ProcessLister World :=
  {| ListTmuxServerPIDs := fun w => (servers w, None);
     ListPanePIDs := fun w => (panes w, None);
     ListRuntimeProcesses := fun w =>
       ((fun p => {| pid := p_pid p; ppid := p_ppid p; cmd := p_cmdline p |})
          <$> filter (fun p => p_cmdline p = "claude" \/ p_cmdline p = "codex") (procs w),
        None);
     GetParentPID := fun pid w =>
       match find pid (procs w) with
       | Some p => (p_ppid p, None)
       | None => (0, Some (ErrorString "exit status 1"))
       end |}.

Definition process (pid ppid : Z) (cmdline : string) : Process :=
  {| p_pid := pid; p_ppid := ppid; p_cmdline := cmdline; p_owned := true |}.

Definition machine (ps : list Process) : World :=
  {| procs := ps; panes := []; servers := []; sessions := []; deaths := []; later := [] |}.

(** [shells n pid]: [n] shells, from [pid] upwards, each the child of
    the PID before it. *)
Fixpoint shells (n : nat) (pid : Z) : list Process :=
  match n with
  | O => []
  | S n' => process pid (pid - 1) "bash" :: shells n' (pid - 1)
  end.

(** A tmux server, its pane shell and what runs under it. *)
Definition family : World :=
  machine [process 10 1 "tmux"; process 11 10 "bash"; process 12 11 "bash";
           process 13 12 "node x"; process 14 11 "bd daemon --start"].

Definition familyHeight (p : Z) : nat :=
  if p =? 10 then 3 else if p =? 11 then 2 else if p =? 12 then 1 else 0.

(** A corrupted table: PID 7 is recorded as its own child. *)
Definition selfParent : World := machine [process 7 7 "sh"].

(** A bd daemon that is gone after the SIGTERM, and two new ones by the
    time of the last count. *)
Definition respawning : World :=
  {| procs := [process 30 1 "bd daemon --start"; process 40 1 "bash"];
     panes := []; servers := []; sessions := []; deaths := [];
     later := [[process 40 1 "bash"];
               [process 40 1 "bash"; process 41 40 "bd daemon --start";
                process 42 40 "bd daemon --start"]] |}.

(** Sessions of a town whose rigs are [my-rig] and [gongshow]. *)
Definition town : World :=
  {| procs := []; panes := []; servers := [];
     sessions := ["gt-my-rig-crew-joe"; "gt-gongshow-crew-max"; "hq-mayor"];
     deaths := []; later := [] |}.

(** What [Run] caches in that town when [my-rig] is its only rig. *)
Definition cachedInTown : OrphanSessionCheck :=
  snd (RunSessions {| orphanSessions := [] |} ["my-rig"] "hq-mayor" "hq-deacon" town).

(** Of two orphan sessions, one is still there. *)
Definition halfGone : World :=
  {| procs := []; panes := []; servers := [];
     sessions := ["gt-lost-alpha"]; deaths := []; later := [] |}.

(** A runtime process under twenty nested shells, and no tmux at all. *)
Definition deep : World := machine (process 100 99 "claude" :: shells 20 99).

Definition claude100 : processInfo := {| pid := 100; ppid := 99; cmd := "claude" |}.

(** Two runtime processes cached as orphans of PID 1; by now PID 13 runs
    under the shell of pane 11 of the tmux server 10. *)
Definition adopted : World :=
  {| procs := [process 10 1 "tmux"; process 11 10 "bash"; process 12 11 "bash";
               process 13 12 "claude"; process 50 1 "claude"];
     panes := [11]; servers := [10]; sessions := []; deaths := []; later := [] |}.

Definition claude13 : processInfo := {| pid := 13; ppid := 1; cmd := "claude" |}.
Definition claude50 : processInfo := {| pid := 50; ppid := 1; cmd := "claude" |}.



(** A process lister whose [tmux list-panes] fails. *)
Definition paneless : ProcessLister World :=
  {| ListTmuxServerPIDs := ListTmuxServerPIDs (ProcessLister := lister);
     ListPanePIDs := fun _ => ([], Some (ErrorString "exit status 1"));
     ListRuntimeProcesses := ListRuntimeProcesses (ProcessLister := lister);
     GetParentPID := GetParentPID (ProcessLister := lister) |}.

(** PID 1 belongs to another user. *)
Definition unprivileged : World :=
  machine [{| p_pid := 1; p_ppid := 0; p_cmdline := "init"; p_owned := false |};
           process 20 1 "bash"].

End Sim.

(** ** Notions the properties are stated with *)

Module Notions.
Import OS Doctor.

(** [child fs p c]: the process table lists [c] as a child of [p]. *)
Definition child (fs : FileSystem) (p c : Z) : Prop := c ∈ Proc.GetChildren fs p.

(** [descendant fs a d]: [d] is a child of [a], or of a descendant of
    [a]; also read as "[a] is an ancestor of [d]". *)
Definition descendant (fs : FileSystem) : Z -> Z -> Prop := tc (child fs).

(** The part [scope] of the process table has no cycle: it is closed
    under the child records, along which [height] falls. *)
Definition acyclic (fs : FileSystem) (scope : list Z) (height : Z -> nat) : Prop :=
  forall p c, p ∈ scope -> child fs p c -> c ∈ scope /\ (height c < height p)%nat.

(** The part [scope] of the process table is a forest, as a real process
    table is: no PID has two parents, no PID is listed twice by its
    parent. *)
Definition tree_shaped (fs : FileSystem) (scope : list Z) : Prop :=
  (forall p q c, p ∈ scope -> q ∈ scope -> child fs p c -> child fs q c -> p = q) /\
  (forall p, p ∈ scope -> NoDup (Proc.GetChildren fs p)).

(** Every PID of [l] stands right after the enumeration of its own
    descendants. *)
Definition blocks (fs : FileSystem) (l : list Z) : Prop :=
  forall l1 a l2, l = l1 ++ a :: l2 ->
    exists fuel la pre, Proc.GetAllDescendants fs fuel a = Some la /\ l1 = pre ++ la.

Section Lineage.
Context {W : Type} `{ProcessLister W}.

(** What the loop of [isOrphanProcess] knows of the PIDs it has visited
    when it stands at [cur]: none is a tmux PID, each is above 1, and the
    parent read for each is visited too, or is [cur]. *)
Definition trail (w : W) (tmuxPIDs visited : gset Z) (cur : Z) : Prop :=
  forall v, v ∈ visited ->
    (v ∉ tmuxPIDs) /\ 1 < v /\
    exists next, GetParentPID v w = (next, None) /\ (next ∈ visited \/ next = cur).

(** [lineage levels pid w]: [pid], its current parent, the parent of
    that, and so on: at most [levels] PIDs, ending before a PID that is
    1 or less and after a PID whose parent cannot be read. *)
Fixpoint lineage (levels : nat) (pid : Z) (w : W) : list Z :=
  match levels with
  | O => []
  | S levels' =>
      if 1 <? pid then
        pid :: match GetParentPID pid w with
               | (_, Some _) => []
               | (parent, None) => lineage levels' parent w
               end
      else []
  end.
End Lineage.

(** The errors of the kills a session pass issued, in order. *)
Definition failedKills (actions : list SessionAction) : list GoError :=
  omap (fun a => match a with IssuedKill _ (Some e) => Some e | _ => None end) actions.

(** The PIDs to which a SIGTERM was delivered, in order. *)
Definition deliveries (calls : list (Z * Signal * option Errno)) : list Z :=
  omap (fun '(pid, sig, err) =>
          if sig =? SIGTERM then match err with None => Some pid | Some _ => None end
          else None) calls.

(** The errors [Fix] makes of the SIGTERMs that were refused, in order. *)
Definition refusals (calls : list (Z * Signal * option Errno)) : list GoError :=
  omap (fun '(pid, sig, err) =>
          if sig =? SIGTERM then
            match err with
            | Some e => Some (WrapError ("failed to kill PID " +:+ GoStrings.Itoa pid)
                                (SysError e))
            | None => None
            end
          else None) calls.

Section Skip.
Context {W : Type}.

(** The loop state after a candidate was skipped: one more skip and
    nothing else. *)
Definition skip (st : ProcessFix W) : ProcessFix W :=
  {| killed := killed st; skipped := skipped st + 1; lastErr := lastErr st;
     printed := printed st; signals := signals st; world := world st |}.

(** The candidate passes both checks of [Fix] in the world [w]: it is
    still an orphan and the probe with signal 0 finds it. *)
Definition condemned `{Kernel W} `{ProcessLister W}
    (panePIDSet : gset Z) (w : W) (proc : processInfo) : bool :=
  isOrphanProcess proc panePIDSet w
  && match fst (Kill (pid proc) 0 w) with None => true | Some _ => false end.
End Skip.

End Notions.

(** ** Package [proc]: command names and the search for a descendant *)

Module ProcTree.
Import GoStrings OS.

(** [ProcessInfo]. *)
Record ProcessInfo := { PID : Z; Comm : string }.

Section Names.
Variable fs : FileSystem.

(** [strings.TrimSpace], of Go's library: it drops the Unicode white
    space at both ends.  The search does not depend on what it drops, so
    it is a parameter here. *)
Variable TrimSpace : string -> string.

Definition commPath (pid : Z) : string := "/proc/" +:+ Itoa pid +:+ "/comm".

Definition GetComm (pid : Z) : string :=
  match ReadFile fs (commPath pid) with
  | None => EmptyString
  | Some data => TrimSpace data
  end.

(** The loop of [GetChildrenWithComm]: a child whose name cannot be read
    is left out. *)
Fixpoint withComm (children : list Z) (result : list ProcessInfo) : list ProcessInfo :=
  match children with
  | [] => result
  | cpid :: children' =>
      let comm := GetComm cpid in
      if negb (String.eqb comm EmptyString)
      then withComm children' (result ++ [{| PID := cpid; Comm := comm |}])
      else withComm children' result
  end.

Definition GetChildrenWithComm (pid : Z) : list ProcessInfo :=
  match Proc.GetChildren fs pid with
  | [] => []
  | children => withComm children []
  end.

(** [for _, name := range names { if child.Comm == name { return true } }] *)
Fixpoint matchesName (comm : string) (names : list string) : bool :=
  match names with
  | [] => false
  | name :: names' => if String.eqb comm name then true else matchesName comm names'
  end.

(** The loop of [HasDescendantMatching] over [children]; [rec] is the
    recursive call.  The map [visited] is one object shared by all the
    calls, so every call hands on the set as it left it. *)
Fixpoint scanChildren (rec : Z -> list string -> gset Z -> option (bool * gset Z))
    (children : list ProcessInfo) (names : list string) (visited : gset Z)
  : option (bool * gset Z) :=
  match children with
  | [] => Some (false, visited)
  | child :: children' =>
      if matchesName (Comm child) names then Some (true, visited)
      else
        match rec (PID child) names visited with
        | None => None
        | Some (true, visited') => Some (true, visited')
        | Some (false, visited') => scanChildren rec children' names visited'
        end
  end.

(** [HasDescendantMatching]: the answer and the visited set afterwards;
    [None] when the calls would nest deeper than [fuel]. *)
Fixpoint HasDescendantMatching (fuel : nat) (pid : Z) (names : list string)
    (visited : gset Z) : option (bool * gset Z) :=
  match fuel with
  | O => None
  | S fuel' =>
      if bool_decide (pid ∈ visited) then Some (false, visited)
      else
        scanChildren (HasDescendantMatching fuel') (GetChildrenWithComm pid) names
          ({[pid]} ∪ visited)
  end.

End Names.

End ProcTree.

(** ** Notions about named processes and a machine with command names *)

Module NamedNotions.
Import GoStrings OS ProcTree.

(** [named fs p c]: [GetChildrenWithComm] reports [c] among the
    children of [p]: the table lists it and its name can be read. *)
Definition named (fs : FileSystem) (TrimSpace : string -> string) (p c : Z) : Prop :=
  Notions.child fs p c /\ GetComm fs TrimSpace c <> EmptyString.

(** [d] is reached from [root] through named children and carries one
    of the [names]. *)
Definition matching (fs : FileSystem) (TrimSpace : string -> string)
    (names : list string) (root d : Z) : Prop :=
  tc (named fs TrimSpace) root d /\ matchesName (GetComm fs TrimSpace d) names = true.

(** What a call of [HasDescendantMatching] on [p] that returned [b] has
    done to the visited set: it has grown, by PIDs at or below [p] only;
    a positive answer has a matching descendant behind it; after a
    negative answer [p] is visited and every PID added has all its named
    children visited, none of them matching. *)
Definition searched (fs : FileSystem) (TrimSpace : string -> string)
    (names : list string) (p : Z) (V : gset Z) (b : bool) (V' : gset Z) : Prop :=
  V ⊆ V' /\
  (forall v, v ∈ V' -> v ∈ V \/ v = p \/ tc (named fs TrimSpace) p v) /\
  (b = true -> exists d, matching fs TrimSpace names p d) /\
  (b = false ->
   p ∈ V' /\
   forall v, v ∈ V' -> v ∉ V ->
     forall c, named fs TrimSpace v c ->
       c ∈ V' /\ matchesName (GetComm fs TrimSpace c) names = false).

(** What [strings.TrimSpace] returns for a text of ASCII bytes, as the
    names of the sample machines are: the white space of [Fields] is
    dropped at both ends. *)
Fixpoint trimLeftASCII (s : string) : string :=
  match s with
  | EmptyString => EmptyString
  | String c s' => if isAsciiSpace c then trimLeftASCII s' else s
  end.

Fixpoint trimRightASCII (s : string) : string :=
  match s with
  | EmptyString => EmptyString
  | String c s' =>
      match trimRightASCII s' with
      | EmptyString => if isAsciiSpace c then EmptyString else String c EmptyString
      | rest => String c rest
      end
  end.

Definition trimSpaceASCII (s : string) : string := trimRightASCII (trimLeftASCII s).

(** The text of [/proc/<pid>/comm]: the first word of the command line,
    cut to 15 bytes, and a newline. *)
Definition firstWord (s : string) : string :=
  match Fields s with
  | [] => EmptyString
  | word :: _ => word
  end.

Definition newline : string := String (ascii_of_nat 10) EmptyString.

Definition commText (p : Sim.Process) : string :=
  substring 0 15 (firstWord (Sim.p_cmdline p)) +:+ newline.

Definition commFiles (ps : list Sim.Process) : list (string * string) :=
  (fun p => (commPath (Sim.p_pid p), commText p)) <$> ps.

Definition namedProcfs (ps : list Sim.Process) : FileSystem :=
  {| ReadFile := fun path => Sim.lookupFile path (Sim.procFiles ps ++ commFiles ps);
     ReadDir := ReadDir (Sim.procfs ps) |}.

(** A corrupted table with names: PID 7 is its own child and the parent
    of the shell 8, under which an editor runs. *)
Definition knot : list Sim.Process :=
  [Sim.process 7 7 "sh"; Sim.process 8 7 "bash -l"; Sim.process 9 8 "vim notes"].

End NamedNotions.

(** ** What a pass did, read off its record *)

Module Traces.
Import OS Doctor.

(** The sessions for which a kill was issued, in order. *)
Definition killsIssued (actions : list SessionAction) : list string :=
  omap (fun a => match a with IssuedKill sess _ => Some sess | LoggedDeath _ => None end)
    actions.

(** The sessions whose death was logged, in order. *)
Definition deathsLogged (actions : list SessionAction) : list string :=
  omap (fun a => match a with LoggedDeath sess => Some sess | IssuedKill _ _ => None end)
    actions.

(** A session that [Run] caches: a GongShow session that is not valid. *)
Definition orphaned (validRigs : list string) (mayorSession deaconSession sess : string)
  : Prop :=
  sess <> EmptyString /\ GoStrings.HasPrefix sess "gt-" = true /\
  isValidSession sess validRigs mayorSession deaconSession = false.

#[export] Instance orphaned_dec validRigs mayorSession deaconSession sess :
  Decision (orphaned validRigs mayorSession deaconSession sess).
Proof. unfold orphaned. apply _. Defined.

(** The actions come in pairs: the death record, then the kill. *)
Inductive paired : list SessionAction -> Prop :=
| paired_nil : paired []
| paired_cons sess err actions :
    paired actions -> paired (LoggedDeath sess :: IssuedKill sess err :: actions).

(** The calls of [syscallKill] come one candidate after the other: a
    probe with signal 0 and, only after a probe that was accepted, a
    SIGTERM for the same PID. *)
Inductive probed : list (Z * Signal * option Errno) -> Prop :=
| probed_nil : probed []
| probed_refused target e calls :
    probed calls -> probed ((target, 0, Some e) :: calls)
| probed_only target calls :
    probed calls -> probed ((target, 0, None) :: calls)
| probed_term target err calls :
    probed calls -> probed ((target, 0, None) :: (target, SIGTERM, err) :: calls).

(** A process lister whose [pgrep] for the tmux server fails. *)
Definition serverless : ProcessLister Sim.World :=
  {| ListTmuxServerPIDs := fun _ => ([], Some (ErrorString "exit status 1"));
     ListPanePIDs := ListPanePIDs (ProcessLister := Sim.lister);
     ListRuntimeProcesses := ListRuntimeProcesses (ProcessLister := Sim.lister);
     GetParentPID := GetParentPID (ProcessLister := Sim.lister) |}.

(** PID 13 as [ps] shows it now, under the shell 12. *)
Definition claude13_now : processInfo := {| pid := 13; ppid := 12; cmd := "claude" |}.

End Traces.

(** ** Package [beads]: the health of the bd daemons *)

Module BeadsHealth.
Import GoStrings OS.

(** [BdDaemonInfo]. *)
Record BdDaemonInfo := {
  Workspace : string;
  SocketPath : string;
  PID : Z;
  Version : string;
  Status : string;
  Issue : string;
  VersionMismatch : bool
}.

(** [BdDaemonHealth]. *)
Record BdDaemonHealth := {
  Total : Z;
  Healthy : Z;
  Stale : Z;
  Mismatched : Z;
  Unresponsive : Z;
  Daemons : list BdDaemonInfo
}.

Section Health.
Context {W : Type} `{Kernel W}.

(** [bd daemon health --json], outside this code: what it wrote to its
    standard output, and the error of [cmd.Run]. *)
Variable RunHealth : W -> (string * option GoError) * W.

(** [json.Unmarshal] into a [BdDaemonHealth]. *)
Variable Unmarshal : string -> BdDaemonHealth + GoError.

(** [CheckBdDaemonHealth]. *)
Definition CheckBdDaemonHealth (w : W) : (option BdDaemonHealth * option GoError) * W :=
  let '((stdout, err), w') := RunHealth w in
  match err with
  | Some _ => ((None, None), w')
  | None =>
      match Unmarshal stdout with
      | inr e => ((None, Some (WrapError "parsing daemon health" e)), w')
      | inl health => ((Some health, None), w')
      end
  end.

(** The loop of [EnsureBdDaemonHealth] over [health.Daemons]. *)
Fixpoint anyNeedsRestart (daemons : list BdDaemonInfo) (needsRestart : bool) : bool :=
  match daemons with
  | [] => needsRestart
  | d :: daemons' =>
      if String.eqb (Status d) "healthy" then anyNeedsRestart daemons' needsRestart
      else if String.eqb (Status d) "version_mismatch"
              || String.eqb (Status d) "stale"
              || String.eqb (Status d) "unresponsive"
      then anyNeedsRestart daemons' true
      else anyNeedsRestart daemons' needsRestart
  end.

(** [restartBdDaemons]; its error is always nil. *)
Definition restartBdDaemons (w : W) : option GoError * W :=
  let pids := Proc.FindByPattern (files w) "bd daemon" in
  let '(_, w1) := Proc.SignalAll pids SIGTERM 0 w in
  (None, Sleep (200 * Beads.millisecond) w1).

(** [EnsureBdDaemonHealth]: the warning, empty when all is fine. *)
Definition EnsureBdDaemonHealth (workDir : string) (w : W) : string * W :=
  let '((health, err), w1) := CheckBdDaemonHealth w in
  match err, health with
  | Some _, _ | _, None => (EmptyString, w1)
  | None, Some health =>
      if Total health =? 0 then (EmptyString, w1)
      else if negb (anyNeedsRestart (Daemons health) false) then (EmptyString, w1)
      else
        let '(restartErr, w2) := restartBdDaemons w1 in
        match restartErr with
        | Some e =>
            ("bd daemons unhealthy (restart failed: " +:+ Doctor.ErrorText e +:+ ")", w2)
        | None =>
            let w3 := Sleep (500 * Beads.millisecond) w2 in
            let '((newHealth, err), w4) := CheckBdDaemonHealth w3 in
            match err, newHealth with
            | Some _, _ | _, None => ("bd daemons restarted but status unknown", w4)
            | None, Some newHealth =>
                if Healthy newHealth <? Total newHealth then
                  ("bd daemons partially healthy (" +:+ Itoa (Healthy newHealth) +:+ "/"
                   +:+ Itoa (Total newHealth) +:+ ")", w4)
                else (EmptyString, w4)
            end
        end
  end.

End Health.

End BeadsHealth.

(** ** A kernel that keeps a record of the calls *)

Module Tracing.
Import OS.

Inductive Event :=
| Signalled (pid : Z) (sig : Signal)
| Slept (d : Z).

(** The same kernel, with the calls of [Kill] and [Sleep] written down
    in order next to the world. *)
#[export] Instance traced {W : Type} `{Kernel W} : Kernel (W * list Event) :=
  {| Kill := fun pid sig '(w, log) =>
       let '(err, w') := Kill pid sig w in (err, (w', log ++ [Signalled pid sig]));
     files := fun '(w, _) => files w;
     Sleep := fun d '(w, log) => (Sleep d w, log ++ [Slept d]) |}.

(** A command that neither signals nor sleeps, on the recording kernel. *)
Definition untraced {W A : Type} (run : W -> A * W) : W * list Event -> A * (W * list Event) :=
  fun '(w, log) => let '(a, w') := run w in (a, (w', log)).

(** [sig] sent to each of [pids] in turn. *)
Definition kills (sig : Signal) (pids : list Z) : list Event :=
  (fun pid => Signalled pid sig) <$> pids.

End Tracing.

(** ** Package [notify]: the helpers that prepare text for a channel *)

Module Notify.
Import GoStrings.

(** [strings.Repeat(s, count)]. *)
Fixpoint Repeat (s : string) (count : nat) : string :=
  match count with
  | O => EmptyString
  | S count' => s +:+ Repeat s count'
  end.

(** [maskPhoneNumber]; [len] counts bytes and [phone[i:]] cuts bytes. *)
Definition maskPhoneNumber (phone : string) : string :=
  if Z.of_nat (String.length phone) <=? 4 then "****"
  else Repeat "*" (String.length phone - 4)
       +:+ substring (String.length phone - 4) 4 phone.

(** A rune of the ASCII range as the byte [WriteRune] writes for it. *)
Definition runeByte (c : Z) : ascii := ascii_of_N (Z.to_N c).

(** The code point of a byte, as in the rune literals of the source. *)
Definition rune (c : ascii) : Z := Z.of_N (N_of_ascii c).

Definition hexDigit (d : Z) : ascii :=
  if d <? 10 then runeByte (rune "0" + d) else runeByte (rune "A" + (d - 10)).

(** The digits of [n] in base 16, upper case, most significant first;
    eight digits are enough for a rune. *)
Fixpoint hexFrom (digits : nat) (n : Z) (acc : string) : string :=
  match digits with
  | O => acc
  | S digits' =>
      let acc' := String (hexDigit (n mod 16)) acc in
      if n / 16 =? 0 then acc' else hexFrom digits' (n / 16) acc'
  end.

(** [fmt.Sprintf("%%%02X", c)] for a rune [c], which is not negative. *)
Definition percentHex (c : Z) : string :=
  let hex := hexFrom 8 c EmptyString in
  "%" +:+ (if Z.of_nat (String.length hex) <? 2 then "0" +:+ hex else hex).

(** One iteration of the loop of [urlEncode]. *)
Definition encodeRune (c : Z) : string :=
  if ((rune "a" <=? c) && (c <=? rune "z")) || ((rune "A" <=? c) && (c <=? rune "Z"))
     || ((rune "0" <=? c) && (c <=? rune "9"))
  then String (runeByte c) EmptyString
  else if (c =? rune "-") || (c =? rune "_") || (c =? rune ".") || (c =? rune "~")
  then String (runeByte c) EmptyString
  else if c =? rune " " then "+"
  else percentHex c.

(** [urlEncode]; [runes] is what [range s] yields, one code point for
    each character of [s] (65533 for a byte that is not UTF-8). *)
Fixpoint urlEncode (runes : list Z) : string :=
  match runes with
  | [] => EmptyString
  | c :: runes' => encodeRune c +:+ urlEncode runes'
  end.

(** The bytes that need no escape in form data, and the two that
    [urlEncode] adds. *)
Definition formSafe (c : ascii) : bool :=
  let n := rune c in
  ((rune "a" <=? n) && (n <=? rune "z")) || ((rune "A" <=? n) && (n <=? rune "Z"))
  || ((rune "0" <=? n) && (n <=? rune "9"))
  || (n =? rune "-") || (n =? rune "_") || (n =? rune ".") || (n =? rune "~")
  || (n =? rune "+") || (n =? rune "%").

End Notify.

(** ** Package [shell]: the block of the shell hook in an RC file *)

Module Shell.
Import GoStrings.

Definition markerStart : string := "# --- GongShow Integration (managed by gt) ---".
Definition markerEnd : string := "# --- End GongShow ---".

(** The line feed and the double quote of the format strings. *)
Definition lineFeed : ascii := ascii_of_nat 10.
Definition nl : string := String lineFeed EmptyString.
Definition quote : string := String (ascii_of_nat 34) EmptyString.

(** [strings.Index(s, substr)]: where [substr] starts first, or -1. *)
Fixpoint Index (s substr : string) : Z :=
  if HasPrefix s substr then 0
  else match s with
       | EmptyString => -1
       | String _ s' => let i := Index s' substr in if i =? -1 then -1 else i + 1
       end.

(** [len(s)], [s[lo:hi]] and [s[i] == c]. *)
Definition len (s : string) : Z := Z.of_nat (String.length s).

Definition slice (s : string) (lo hi : Z) : string :=
  substring (Z.to_nat lo) (Z.to_nat (hi - lo)) s.

Definition byteIs (s : string) (i : Z) (c : ascii) : bool :=
  match get (Z.to_nat i) s with
  | Some b => Ascii.eqb b c
  | None => false
  end.

(** The error of [os.ReadFile]: [os.IsNotExist] holds of it, or not. *)
Inductive ReadError :=
| NotExist
| ReadFailed (e : OS.GoError).

(** The files, outside this code: [os.ReadFile] and [os.WriteFile]. *)
Class Disk (W : Type) := {
  ReadFile : string -> W -> string + ReadError;
  WriteFile : string -> string -> W -> option OS.GoError * W
}.

Section RCFile.
Context {W : Type} `{Disk W}.

(** [state.ConfigDir()], outside this code. *)
Variable ConfigDir : string.

Definition hookSourceLine : string :=
  "[[ -f " +:+ quote +:+ ConfigDir +:+ "/shell-hook.sh" +:+ quote +:+ " ]] && source "
  +:+ quote +:+ ConfigDir +:+ "/shell-hook.sh" +:+ quote.

(** [updateRCFile], which [addToRCFile] calls when [content] holds the
    start marker. *)
Definition updateRCFile (path content : string) (w : W) : option OS.GoError * W :=
  let startIdx := Index content markerStart in
  let endIdx := Index (slice content startIdx (len content)) markerEnd in
  if endIdx =? -1 then
    (Some (OS.ErrorString ("malformed GongShow block in " +:+ path)), w)
  else
    let endIdx := endIdx + startIdx + len markerEnd in
    let block := markerStart +:+ nl +:+ hookSourceLine +:+ nl +:+ markerEnd in
    let newContent :=
      slice content 0 startIdx +:+ block +:+ slice content endIdx (len content) in
    WriteFile path newContent w.

(** [addToRCFile]. *)
Definition addToRCFile (path : string) (w : W) : option OS.GoError * W :=
  match ReadFile path w with
  | inr (ReadFailed e) => (Some e, w)
  | read =>
      let data := match read with inl data => data | inr _ => EmptyString end in
      let content := data in
      if Contains content markerStart then updateRCFile path content w
      else
        let block :=
          nl +:+ markerStart +:+ nl +:+ hookSourceLine +:+ nl +:+ markerEnd +:+ nl in
        if 0 <? len data then
          match WriteFile (path +:+ ".gongshow-backup") data w with
          | (Some e, w') => (Some (OS.WrapError "writing backup" e), w')
          | (None, w') => WriteFile path (content +:+ block) w'
          end
        else WriteFile path (content +:+ block) w
  end.

(** [removeFromRCFile]. *)
Definition removeFromRCFile (path : string) (w : W) : option OS.GoError * W :=
  match ReadFile path w with
  | inr _ => (None, w)
  | inl content =>
      let startIdx := Index content markerStart in
      if startIdx =? -1 then (None, w)
      else
        let endIdx := Index (slice content startIdx (len content)) markerEnd in
        if endIdx =? -1 then (None, w)
        else
          let endIdx := endIdx + startIdx + len markerEnd in
          let endIdx :=
            if (endIdx <? len content) && byteIs content endIdx lineFeed
            then endIdx + 1 else endIdx in
          let startIdx :=
            if (0 <? startIdx) && byteIs content (startIdx - 1) lineFeed
            then startIdx - 1 else startIdx in
          let newContent :=
            slice content 0 startIdx +:+ slice content endIdx (len content) in
          WriteFile path newContent w
  end.

End RCFile.

(** [s] without the line feed it starts with, if it starts with one. *)
Definition withoutLineFeed (s : string) : string :=
  match s with
  | EmptyString => EmptyString
  | String c s' => if Ascii.eqb c lineFeed then s' else s
  end.

(** Files kept in a list, the newest first; every write succeeds. *)
#[export] Instance files : Disk (list (string * string)) :=
  {| ReadFile := fun path disk =>
       match Sim.lookupFile path disk with
       | Some data => inl data
       | None => inr NotExist
       end;
     WriteFile := fun path data disk => (None, (path, data) :: disk) |}.

(** A home directory with a [.zshrc] of one line. *)
Definition home : list (string * string) := [("/home/u/.zshrc", "export EDITOR=vi")].

(** The same home after an installation with another configuration
    directory, and a line added after the block. *)
Definition edited : list (string * string) :=
  [("/home/u/.zshrc",
    "export EDITOR=vi" +:+ nl +:+ nl +:+ markerStart +:+ nl +:+ "source /old/shell-hook.sh"
    +:+ nl +:+ markerEnd +:+ nl +:+ "alias gs=gt" +:+ nl)].

End Shell.

(** ** The text the kernel writes *)

Module KernelText.
Import GoStrings.

(** [/proc/<pid>/task/<pid>/children]: the PIDs in decimal, a space
    after each. *)
Definition childrenLine (pids : list Z) : string :=
  fold_right (fun pid text => Itoa pid +:+ " " +:+ text) EmptyString pids.

End KernelText.

(** ** Proof steps used more than once *)

Module Steps.

(** The loop stops here: nothing more is looked up. *)
Ltac stop_walk :=
  cbn [negb andb snd]; exists 0%nat; rewrite take_0, app_nil_r;
  split; [done|split; [apply NoDup_nil_2|]];
  intros ? Hnil; by apply elem_of_nil in Hnil.

End Steps.

(** * Properties of package [proc] *)

Module ProcFacts.
Import GoStrings OS Notions Sim.

Section Scan.
Variable fs : FileSystem.

Lemma countEntries_findEntries pattern entries count pids :
  Proc.countEntries fs pattern entries count - count =
  Z.of_nat (length (Proc.findEntries fs pattern entries pids)) - Z.of_nat (length pids).
Proof.
  revert count pids.
  induction entries as [|entry entries IH]; intros count pids; simpl.
  - lia.
  - destruct (negb (IsDir entry)); [apply IH|].
    destruct (Atoi (Name entry)) as [p|]; [|apply IH].
    destruct (Contains (Proc.getCmdline fs p) pattern); [|apply IH].
    specialize (IH (count + 1) (pids ++ [p])).
    rewrite length_app in IH. simpl in IH. lia.
Qed.

(** C10.  On one snapshot of the process table, [CountByPattern]
    returns the length of what [FindByPattern] returns, for every
    pattern. *)
Theorem CountByPattern_is_length_FindByPattern pattern :
  Proc.CountByPattern fs pattern = Z.of_nat (length (Proc.FindByPattern fs pattern)).
Proof.
  unfold Proc.CountByPattern, Proc.FindByPattern.
  destruct (ReadDir fs "/proc") as [entries|]; [|reflexivity].
  pose proof (countEntries_findEntries pattern entries 0 []) as E.
  simpl in E. lia.
Qed.

End Scan.

Section Descendants.
Variable fs : FileSystem.

Lemma blocks_nil : blocks fs [].
Proof. intros [|? ?] a l2 E; discriminate. Qed.

Lemma blocks_snoc res sub c fuel :
  blocks fs res -> blocks fs sub -> Proc.GetAllDescendants fs fuel c = Some sub ->
  blocks fs ((res ++ sub) ++ [c]).
Proof.
  intros Hres Hsub Hc l1 a l2 E.
  destruct (exists_last (l := a :: l2)) as [front [x E3]]; [discriminate|].
  rewrite E3, app_assoc in E. apply app_inj_tail in E as [E ->].
  destruct front as [|a' front]; simpl in E3.
  - injection E3 as -> _. rewrite app_nil_r in E. subst l1. eauto.
  - injection E3 as <- _. clear l2.
    apply app_eq_app in E as [mid [[E1 E2]|[E1 E2]]].
    + destruct mid as [|a' mid].
      * simpl in E2. rewrite app_nil_r in E1. subst l1.
        destruct (Hsub [] a front) as (f & la & pre & Hla & Hpre); [done|].
        exists f, la, res. split; [done|].
        destruct pre, la; try discriminate. by rewrite app_nil_r.
      * injection E2 as <- E2.
        destruct (Hres l1 a mid E1) as (f & la & pre & Hla & Hpre). eauto.
    + subst l1.
      destruct (Hsub mid a front E2) as (f & la & pre & Hla & Hpre).
      exists f, la, (res ++ pre). split; [done|]. by rewrite Hpre, app_assoc.
Qed.

Lemma descend_blocks rec children :
  (forall c sub, rec c = Some sub ->
     blocks fs sub /\ exists fuel, Proc.GetAllDescendants fs fuel c = Some sub) ->
  forall result l, blocks fs result -> Proc.descend rec children result = Some l -> blocks fs l.
Proof.
  intros Hrec. induction children as [|c children IH]; intros result l Hres E; simpl in E.
  - by injection E as <-.
  - destruct (rec c) as [sub|] eqn:Ec; [|discriminate].
    destruct (Hrec c sub Ec) as [Hsub [fuel Hfuel]].
    eapply IH; [|exact E]. by eapply blocks_snoc.
Qed.

Lemma GetAllDescendants_blocks fuel pid l :
  Proc.GetAllDescendants fs fuel pid = Some l -> blocks fs l.
Proof.
  revert pid l. induction fuel as [|fuel IH]; intros pid l E; [discriminate|].
  simpl in E. eapply descend_blocks; [|apply blocks_nil|exact E].
  intros c sub Ec. split; [by eapply IH|by exists fuel].
Qed.

(** What [descend] returns holds what it was given, every child, and
    what the recursive call gave for every child. *)
Lemma descend_holds rec children result l :
  Proc.descend rec children result = Some l ->
  (forall x, x ∈ result -> x ∈ l) /\
  (forall c, c ∈ children ->
     c ∈ l /\ exists sub, rec c = Some sub /\ forall x, x ∈ sub -> x ∈ l).
Proof.
  revert result. induction children as [|c children IH]; intros result E; simpl in E.
  - injection E as <-. split; [done|]. intros c Hc. by apply elem_of_nil in Hc.
  - destruct (rec c) as [sub|] eqn:Ec; [|discriminate].
    destruct (IH _ E) as [Hres Hch]. split.
    + intros x Hx. apply Hres. rewrite !elem_of_app. tauto.
    + intros c' [->|Hc']%elem_of_cons; [|by apply Hch].
      split; [apply Hres; rewrite !elem_of_app, list_elem_of_singleton; tauto|].
      exists sub. split; [done|]. intros x Hx. apply Hres.
      rewrite !elem_of_app. tauto.
Qed.

Lemma descendant_listed a d :
  descendant fs a d -> forall fuel la, Proc.GetAllDescendants fs fuel a = Some la -> d ∈ la.
Proof.
  induction 1 as [a d Hchild|a c d Hchild Hdesc IH]; intros [|fuel] la E;
    try discriminate; simpl in E; apply descend_holds in E as [_ E];
    destruct (E _ Hchild) as [Hin (sub & Hsub & Hincl)]; [done|].
  apply Hincl. by eapply IH.
Qed.

(** C6.  What [GetAllDescendants] returns is deepest-first, for every
    process table and every root: wherever a PID [a] stands in the
    result, every descendant [d] of [a] stands before it.  (The root
    itself is not part of the result; that the enumeration does return on
    every table without a cycle is [GetAllDescendants_returns] below.) *)
Theorem deepest_first fuel root l a d l1 l2 :
  Proc.GetAllDescendants fs fuel root = Some l ->
  descendant fs a d ->
  l = l1 ++ a :: l2 ->
  d ∈ l1.
Proof.
  intros E Hdesc Hsplit.
  destruct (GetAllDescendants_blocks _ _ _ E _ _ _ Hsplit) as (f & la & pre & Hla & ->).
  apply elem_of_app. right. by eapply descendant_listed.
Qed.

(** What [descend] returns holds nothing else. *)
Lemma descend_only rec children result l x :
  Proc.descend rec children result = Some l -> x ∈ l ->
  x ∈ result \/
  exists c, c ∈ children /\ (x = c \/ exists sub, rec c = Some sub /\ x ∈ sub).
Proof.
  revert result. induction children as [|c children IH]; intros result E Hx; simpl in E.
  - injection E as <-. by left.
  - destruct (rec c) as [sub|] eqn:Ec; [|discriminate].
    destruct (IH _ E Hx) as [Hin|(c' & Hc' & Hcase)].
    + rewrite !elem_of_app, list_elem_of_singleton in Hin.
      destruct Hin as [[Hin|Hin]| ->]; [by left| |].
      * right. exists c. split; [apply elem_of_cons; by left|]. right. eauto.
      * right. exists c. split; [apply elem_of_cons; by left|]. by left.
    + right. exists c'. split; [apply elem_of_cons; by right|done].
Qed.

Lemma listed_descendant fuel root l d :
  Proc.GetAllDescendants fs fuel root = Some l -> d ∈ l -> descendant fs root d.
Proof.
  revert root l d. induction fuel as [|fuel IH]; intros root l d E Hd; [discriminate|].
  simpl in E.
  destruct (descend_only _ _ _ _ _ E Hd) as [Hnil|(c & Hc & [ -> | (sub & Hsub & Hin)])].
  - by apply elem_of_nil in Hnil.
  - by apply tc_once.
  - eapply tc_l; [exact Hc|]. by eapply IH.
Qed.

Lemma descend_returns rec children result :
  (forall c, c ∈ children -> is_Some (rec c)) ->
  is_Some (Proc.descend rec children result).
Proof.
  revert result. induction children as [|c children IH]; intros result Hrec; simpl.
  - done.
  - destruct (Hrec c) as [sub ->]; [apply elem_of_cons; by left|].
    apply IH. intros c' Hc'. apply Hrec, elem_of_cons. by right.
Qed.

Lemma descend_more_fuel (rec rec' : Z -> option (list Z)) children result l :
  (forall c sub, rec c = Some sub -> rec' c = Some sub) ->
  Proc.descend rec children result = Some l ->
  Proc.descend rec' children result = Some l.
Proof.
  intros Hrec. revert result.
  induction children as [|c children IH]; intros result E; simpl in *; [done|].
  destruct (rec c) as [sub|] eqn:Ec; [|discriminate].
  rewrite (Hrec _ _ Ec). by apply IH.
Qed.

(** What is returned does not depend on the depth allowed. *)
Lemma GetAllDescendants_more_fuel fuel fuel' root l :
  (fuel <= fuel')%nat ->
  Proc.GetAllDescendants fs fuel root = Some l ->
  Proc.GetAllDescendants fs fuel' root = Some l.
Proof.
  revert fuel' root l. induction fuel as [|fuel IH]; intros fuel' root l Hle E;
    [discriminate|].
  destruct fuel' as [|fuel']; [lia|]. simpl in *.
  eapply descend_more_fuel; [|exact E].
  intros c sub Ec. apply (IH fuel'); [lia|done].
Qed.

Lemma descend_stuck rec children result c :
  c ∈ children -> rec c = None -> Proc.descend rec children result = None.
Proof.
  revert result. induction children as [|c' children IH]; intros result Hc Ec; simpl.
  - by apply elem_of_nil in Hc.
  - apply elem_of_cons in Hc as [<-|Hc]; [by rewrite Ec|].
    destruct (rec c'); [by apply IH|done].
Qed.

(** The calls nest as deep as the table below the root: with a path of
    [n] records below [root], a depth of [n] is not enough. *)
Lemma GetAllDescendants_depth n root d fuel :
  nsteps (child fs) n root d -> (fuel <= n)%nat ->
  Proc.GetAllDescendants fs fuel root = None.
Proof.
  revert n root. induction fuel as [|fuel IH]; intros n root Hpath Hle; [done|].
  destruct Hpath as [|n root c d Hchild Hpath]; [lia|]. simpl.
  eapply descend_stuck; [exact Hchild|]. apply (IH n); [done|lia].
Qed.

Section Acyclic.
Variable scope : list Z.
Variable height : Z -> nat.
Hypothesis Hacyclic : acyclic fs scope height.

(** The enumeration returns as soon as the allowed depth exceeds the
    height of the root. *)
Lemma GetAllDescendants_returns fuel root :
  root ∈ scope -> (height root < fuel)%nat ->
  is_Some (Proc.GetAllDescendants fs fuel root).
Proof.
  revert root. induction fuel as [|fuel IH]; intros root Hroot Hlt; [lia|]. simpl.
  apply descend_returns. intros c Hc.
  destruct (Hacyclic root c Hroot Hc) as [Hscope Hfall]. apply IH; [done|lia].
Qed.

Lemma below_scope a d :
  a ∈ scope -> rtc (child fs) a d -> d ∈ scope /\ (height d <= height a)%nat.
Proof.
  intros Ha Hpath. induction Hpath as [a|a c d Hchild Hpath IH]; [done|].
  destruct (Hacyclic a c Ha Hchild) as [Hc Hfall].
  destruct (IH Hc) as [Hd Hle]. split; [done|lia].
Qed.

Lemma descendant_lower a d :
  a ∈ scope -> descendant fs a d -> (height d < height a)%nat.
Proof.
  intros Ha Hdesc. destruct Hdesc as [a d Hchild|a c d Hchild Hdesc].
  - by apply Hacyclic.
  - destruct (Hacyclic a c Ha Hchild) as [Hc Hfall].
    apply tc_rtc in Hdesc. destruct (below_scope c d Hc Hdesc). lia.
Qed.

Hypothesis Htree : tree_shaped fs scope.

(** Two ancestors of one PID lie on one line. *)
Lemma ancestors_in_line a b x :
  a ∈ scope -> b ∈ scope ->
  rtc (child fs) a x -> rtc (child fs) b x ->
  rtc (child fs) a b \/ rtc (child fs) b a.
Proof.
  intros Ha Hb Hax. revert b Hb. revert x Hax.
  apply (rtc_ind_r (fun x => forall b, b ∈ scope -> rtc (child fs) b x ->
                               rtc (child fs) a b \/ rtc (child fs) b a)).
  { intros b Hb Hbx. by right. }
  intros y x Hay Hyx IH b Hb Hbx.
  apply rtc_inv_r in Hbx as [->|(y' & Hby' & Hy'x)].
  - left. by eapply rtc_r.
  - assert (y = y') as <-; [|by apply IH].
    destruct Htree as [Hone _]. apply (Hone y y' x); try done.
    + by apply (below_scope a y).
    + by apply (below_scope b y').
Qed.

(** Two children of one PID have no descendant in common. *)
Lemma siblings_apart p c1 c2 x :
  p ∈ scope -> child fs p c1 -> child fs p c2 -> c1 <> c2 ->
  rtc (child fs) c1 x -> rtc (child fs) c2 x -> False.
Proof.
  intros Hp H1 H2 Hne Hx1 Hx2.
  destruct (Hacyclic p c1 Hp H1) as [Hs1 Hf1].
  destruct (Hacyclic p c2 Hp H2) as [Hs2 Hf2].
  assert (forall c c', c ∈ scope -> child fs p c -> child fs p c' -> c <> c' ->
            rtc (child fs) c c' -> False) as Hline.
  { intros c c' Hc Hpc Hpc' Hcc' Hpath.
    apply rtc_inv_r in Hpath as [->|(y & Hcy & Hyc')]; [done|].
    destruct Htree as [Hone _].
    assert (y = p) as ->.
    { apply (Hone y p c'); try done. by apply (below_scope c y). }
    destruct (below_scope c p Hc Hcy) as [_ Hle].
    destruct (Hacyclic p c Hp Hpc) as [_ Hlt]. lia. }
  destruct (ancestors_in_line c1 c2 x Hs1 Hs2 Hx1 Hx2) as [Hpath|Hpath].
  - by apply (Hline c1 c2).
  - by apply (Hline c2 c1).
Qed.

Lemma descend_NoDup rec children result l :
  NoDup children -> NoDup result ->
  (forall c, c ∈ children -> c ∈ scope) ->
  (forall c sub, c ∈ children -> rec c = Some sub ->
     NoDup sub /\ forall x, x ∈ sub -> descendant fs c x) ->
  (forall x c, x ∈ result -> c ∈ children -> ~ rtc (child fs) c x) ->
  (forall c1 c2 x, c1 ∈ children -> c2 ∈ children -> c1 <> c2 ->
     rtc (child fs) c1 x -> rtc (child fs) c2 x -> False) ->
  Proc.descend rec children result = Some l -> NoDup l.
Proof.
  revert result.
  induction children as [|c children IH];
    intros result Hch Hres Hscope Hrec Hold Hapart E; simpl in E.
  - by injection E as <-.
  - destruct (rec c) as [sub|] eqn:Ec; [|discriminate].
    apply NoDup_cons in Hch as [Hc Hch].
    destruct (Hrec c sub) as [Hsub Hdesc]; [apply elem_of_cons; by left|done|].
    assert (forall x, x ∈ (result ++ sub) ++ [c] ->
              x ∈ result \/ rtc (child fs) c x) as Hnew.
    { intros x. rewrite !elem_of_app, list_elem_of_singleton.
      intros [[Hx|Hx]| ->]; [by left| |by right].
      right. by apply tc_rtc, Hdesc. }
    apply (IH ((result ++ sub) ++ [c])); try done.
    + apply NoDup_app. split; [|split; [|apply NoDup_singleton]].
      * apply NoDup_app. split; [done|split; [|done]].
        intros x Hx Hx'. apply (Hold x c Hx); [apply elem_of_cons; by left|].
        by apply tc_rtc, Hdesc.
      * intros x Hx ->%list_elem_of_singleton.
        apply elem_of_app in Hx as [Hx|Hx].
        -- apply (Hold c c Hx); [apply elem_of_cons; by left|done].
        -- assert (c ∈ scope) as Hcs by (apply Hscope, elem_of_cons; by left).
           pose proof (descendant_lower c c Hcs (Hdesc c Hx)). lia.
    + intros c' Hc'. apply Hscope, elem_of_cons. by right.
    + intros c' sub' Hc'. apply Hrec, elem_of_cons. by right.
    + intros x c' Hx Hc' Hpath. destruct (Hnew x Hx) as [Hx'|Hx'].
      * apply (Hold x c' Hx'); [apply elem_of_cons; by right|done].
      * apply (Hapart c c' x); try done.
        -- apply elem_of_cons; by left.
        -- apply elem_of_cons; by right.
        -- intros ->. done.
    + intros c1 c2 x H1 H2. apply Hapart; apply elem_of_cons; by right.
Qed.

Lemma GetAllDescendants_NoDup fuel root l :
  root ∈ scope -> Proc.GetAllDescendants fs fuel root = Some l -> NoDup l.
Proof.
  revert root l. induction fuel as [|fuel IH]; intros root l Hroot E; [discriminate|].
  simpl in E. eapply descend_NoDup; [| | | | | |exact E].
  - destruct Htree as [_ Honce]. by apply Honce.
  - apply NoDup_nil_2.
  - intros c Hc. by apply (Hacyclic root c).
  - intros c sub Hc Ec. split.
    + apply (IH c); [by apply (Hacyclic root c)|done].
    + intros x Hx. by eapply listed_descendant.
  - intros x c Hx. by apply elem_of_nil in Hx.
  - intros c1 c2 x H1 H2. by apply (siblings_apart root).
Qed.
End Acyclic.
End Descendants.

Section Enumeration.
Variable fs : FileSystem.

(** C7, as the code has it.  [GetAllDescendants] has no bound on its
    depth and keeps no set of visited PIDs; what makes it return is the
    table.  On a part [scope] of the table without cycle, however deep,
    the enumeration of a root in it returns, with any call depth above
    the height of the root and with none up to the length of a path below
    it; the result holds the descendants of the root and nothing else;
    where the table is a forest it holds each of them once, so it is no
    longer than the tree. *)
Theorem GetAllDescendants_on_acyclic_tables scope height root :
  root ∈ scope -> acyclic fs scope height ->
  exists l,
    (forall fuel, (height root < fuel)%nat ->
       Proc.GetAllDescendants fs fuel root = Some l) /\
    (forall fuel n d, nsteps (child fs) n root d -> (fuel <= n)%nat ->
       Proc.GetAllDescendants fs fuel root = None) /\
    (forall d, d ∈ l <-> descendant fs root d) /\
    (tree_shaped fs scope -> NoDup l /\ (length l <= length scope)%nat).
Proof.
  intros Hroot Hacyclic.
  destruct (GetAllDescendants_returns fs scope height Hacyclic (S (height root)) root)
    as [l Hl]; [done|lia|].
  exists l. split; [|split; [|split]].
  - intros fuel Hlt. apply (GetAllDescendants_more_fuel fs (S (height root))); [lia|done].
  - intros fuel n d Hpath Hle. by eapply GetAllDescendants_depth.
  - intros d. split.
    + by eapply listed_descendant.
    + intros Hd. by eapply descendant_listed.
  - intros Htree.
    assert (NoDup l) as Hnodup by (by eapply GetAllDescendants_NoDup).
    split; [done|]. apply submseteq_length, NoDup_submseteq; [done|].
    intros d Hd. eapply below_scope; [exact Hacyclic|exact Hroot|].
    apply tc_rtc. by eapply listed_descendant.
Qed.
End Enumeration.

(** The sample family has no cycle. *)
Lemma family_acyclic : acyclic (files Sim.family) [10; 11; 12; 13; 14] Sim.familyHeight.
Proof.
  intros p c Hp Hc.
  repeat (apply elem_of_cons in Hp as [->|Hp]); try (by apply elem_of_nil in Hp);
    vm_compute in Hc.
  all: repeat (apply elem_of_cons in Hc as [->|Hc]); try (by apply elem_of_nil in Hc).
  all: split; [rewrite !elem_of_cons; tauto|vm_compute; lia].
Qed.

(** C7 at the sample family, enumerated from the tmux server 10. *)
Lemma GetAllDescendants_on_acyclic_tables_witness :
  exists l,
    (forall fuel, (Sim.familyHeight 10 < fuel)%nat ->
       Proc.GetAllDescendants (files Sim.family) fuel 10 = Some l) /\
    (forall fuel n d, nsteps (child (files Sim.family)) n 10 d -> (fuel <= n)%nat ->
       Proc.GetAllDescendants (files Sim.family) fuel 10 = None) /\
    (forall d, d ∈ l <-> descendant (files Sim.family) 10 d) /\
    (tree_shaped (files Sim.family) [10; 11; 12; 13; 14] ->
     NoDup l /\ (length l <= length [10; 11; 12; 13; 14])%nat).
Proof.
  apply (GetAllDescendants_on_acyclic_tables (files Sim.family) [10; 11; 12; 13; 14]
           Sim.familyHeight 10).
  - apply elem_of_cons. by left.
  - exact family_acyclic.
Defined.

(** C7 as stated fails: on the table that records PID 7 as its own child,
    no call depth is enough for the enumeration of 7 to return. *)
Lemma cyclic_table_never_returns :
  ~ exists fuel l, Proc.GetAllDescendants (files Sim.selfParent) fuel 7 = Some l.
Proof.
  intros (fuel & l & E). revert l E.
  assert (Proc.GetChildren (files Sim.selfParent) 7 = [7]) as Hc by (vm_compute; reflexivity).
  induction fuel as [|fuel IH]; intros l E; [discriminate|].
  cbn [Proc.GetAllDescendants] in E. rewrite Hc in E. cbn [Proc.descend] in E.
  destruct (Proc.GetAllDescendants (files Sim.selfParent) fuel 7) as [sub|] eqn:Esub;
    [|discriminate].
  by apply (IH sub).
Qed.

(** C6 at the sample family: 10 has the child 11, 11 the child 12, 12
    the child 13; enumerated from 10, the great-grandchild 13 stands
    before its ancestor 11. *)
Lemma deepest_first_witness : 13 ∈ [13; 12; 14].
Proof.
  apply (deepest_first (files Sim.family) 5 10 [13; 12; 14; 11] 11 13 [13; 12; 14] []).
  - vm_compute. reflexivity.
  - apply (tc_l _ 11 12 13); [|apply tc_once]; unfold child; vm_compute; repeat constructor.
  - reflexivity.
Defined.

(** C4.  [Exists] answers [syscall.Kill(pid, 0) == nil] and reads no
    errno: PID 1 of the sample machine exists, the probe of it is refused
    with EPERM, and [Exists] answers false, as it does for a PID that
    does not exist. *)
Example Exists_refused_by_permission :
  Sim.find 1 (Sim.procs Sim.unprivileged) <> None /\
  fst (Kill 1 0 Sim.unprivileged) = Some EPERM /\
  fst (Proc.Exists 1 Sim.unprivileged) = false.
Proof. vm_compute. repeat split; discriminate. Qed.

Section Broadcast.
Context {W : Type} `{Kernel W}.
(** The kernel delivers nothing for signal 0. *)
Hypothesis probe_only : forall pid (w : W), snd (Kill pid 0 w) = w.

(** X1.  On a kernel that delivers nothing for signal 0, a broadcast of
    the probe returns the number of PIDs of the list for which [Exists]
    answers true, added to the count it starts from, and changes
    nothing. *)
Theorem SignalAll_probe_counts pids sent (w : W) :
  Proc.SignalAll pids 0 sent w
  = (sent + Z.of_nat (length (filter (fun pid => fst (Proc.Exists pid w) = true) pids)), w).
Proof.
  revert sent. induction pids as [|pid pids IH]; intros sent; cbn [Proc.SignalAll].
  - cbn. by rewrite Z.add_0_r.
  - pose proof (probe_only pid w) as Hw.
    destruct (Kill pid 0 w) as [[e|] w'] eqn:Ekill; cbn [snd] in Hw; subst w'.
    + rewrite IH. rewrite filter_cons_False; [done|].
      unfold Proc.Exists. by rewrite Ekill.
    + rewrite IH. rewrite filter_cons_True.
      * cbn [length]. f_equal. lia.
      * unfold Proc.Exists. by rewrite Ekill.
Qed.
End Broadcast.

(** The simulated kernel delivers nothing for signal 0. *)
Lemma kill_probe pid (w : World) : snd (Kill pid 0 w) = w.
Proof.
  cbn [Kill kernel]. unfold kill. destruct (find pid (procs w)); [|done].
  by destruct (negb (p_owned _)).
Qed.

(** On the sample machine PID 1 refuses the probe, PID 20 accepts it and
    PID 999 does not exist: one delivery. *)
Lemma SignalAll_probe_counts_witness :
  Proc.SignalAll [1; 20; 999] 0 0 unprivileged = (1, unprivileged).
Proof.
  rewrite (SignalAll_probe_counts kill_probe [1; 20; 999] 0 unprivileged).
  vm_compute. reflexivity.
Defined.

End ProcFacts.

(** * Properties of package [beads] *)

Module BeadsFacts.
Import GoStrings OS Notions Sim.

Section StopPasses.
Context {W : Type} `{Kernel W}.

(** [exec.LookPath], outside this code. *)
Variable LookPath : string -> W -> option GoError.

Lemma CountByPattern_nonneg fs pattern : 0 <= Proc.CountByPattern fs pattern.
Proof.
  unfold Proc.CountByPattern.
  destruct (ReadDir fs "/proc") as [entries|]; [|done].
  pose proof (ProcFacts.countEntries_findEntries fs pattern entries 0 []) as E.
  cbn [length] in E. lia.
Qed.

(** What remains after a pass that counted more after than before. *)
Lemma stopBdDaemons_underflow force w :
  Beads.CountBdDaemons w < snd (fst (Beads.stopBdDaemons force w)) ->
  0 < snd (fst (Beads.stopBdDaemons force w)).
Proof.
  pose proof (CountByPattern_nonneg (files w) "bd daemon") as Hpos.
  fold (Beads.CountBdDaemons w) in Hpos. lia.
Qed.

Lemma stopBdActivityProcesses_underflow force w :
  Beads.CountBdActivityProcesses w < snd (fst (Beads.stopBdActivityProcesses force w)) ->
  0 < snd (fst (Beads.stopBdActivityProcesses force w)).
Proof.
  pose proof (CountByPattern_nonneg (files w) "bd activity") as Hpos.
  fold (Beads.CountBdActivityProcesses w) in Hpos. lia.
Qed.

(** C9, as the code has it.  Both stop passes return two counts and no
    error.  The second is the count of matching processes after the kill
    sequence; the first is the count before minus the count after, or
    zero when that is negative: whenever more match after than before,
    the killed count is zero.  The passes are called by
    [StopAllBdProcesses] only, which fails on every such run: when more
    daemons match after the daemon pass than before, it returns the
    error of the incomplete daemon shutdown with the count after; when
    more activity processes match after the activity pass than before
    it, it returns an error as well. *)
Theorem stop_passes_clamp_killed force w :
  (let r := fst (Beads.stopBdDaemons force w) in
   fst r = Z.max 0 (Beads.CountBdDaemons w - snd r) /\
   (Beads.CountBdDaemons w < snd r -> fst r = 0) /\
   snd r = Beads.CountBdDaemons (snd (Beads.stopBdDaemons force w))) /\
  (let r := fst (Beads.stopBdActivityProcesses force w) in
   fst r = Z.max 0 (Beads.CountBdActivityProcesses w - snd r) /\
   (Beads.CountBdActivityProcesses w < snd r -> fst r = 0) /\
   snd r = Beads.CountBdActivityProcesses (snd (Beads.stopBdActivityProcesses force w))) /\
  (LookPath "bd" w = None ->
   let daemons := Beads.stopBdDaemons force w in
   let activity := Beads.stopBdActivityProcesses force (snd daemons) in
   let err := snd (fst (Beads.StopAllBdProcesses LookPath false force w)) in
   (Beads.CountBdDaemons w < snd (fst daemons) ->
    fst (fst daemons) = 0 /\
    err = Some (ErrorString ("bd daemon shutdown incomplete: "
                             +:+ Itoa (snd (fst daemons)) +:+ " still running"))) /\
   (Beads.CountBdActivityProcesses (snd daemons) < snd (fst activity) ->
    fst (fst activity) = 0 /\ err <> None)).
Proof.
  assert (Hdaemons : forall w',
    let r := fst (Beads.stopBdDaemons force w') in
    fst r = Z.max 0 (Beads.CountBdDaemons w' - snd r) /\
    (Beads.CountBdDaemons w' < snd r -> fst r = 0) /\
    snd r = Beads.CountBdDaemons (snd (Beads.stopBdDaemons force w'))).
  { intros w'. unfold Beads.stopBdDaemons.
    destruct (Beads.CountBdDaemons w' =? 0) eqn:E0; cbn [fst snd].
    + apply Z.eqb_eq in E0. rewrite E0. repeat split; lia.
    + match goal with |- context [?a - ?b <? 0] => destruct (Z.ltb_spec (a - b) 0) end;
        repeat split; lia. }
  assert (Hactivity : forall w',
    let r := fst (Beads.stopBdActivityProcesses force w') in
    fst r = Z.max 0 (Beads.CountBdActivityProcesses w' - snd r) /\
    (Beads.CountBdActivityProcesses w' < snd r -> fst r = 0) /\
    snd r = Beads.CountBdActivityProcesses (snd (Beads.stopBdActivityProcesses force w'))).
  { intros w'. unfold Beads.stopBdActivityProcesses.
    destruct (Beads.CountBdActivityProcesses w' =? 0) eqn:E0; cbn [fst snd].
    + apply Z.eqb_eq in E0. rewrite E0. repeat split; lia.
    + match goal with |- context [?a - ?b <? 0] => destruct (Z.ltb_spec (a - b) 0) end;
        repeat split; lia. }
  split; [apply Hdaemons|]. split; [apply Hactivity|].
  intros Hlook. cbv zeta. unfold Beads.StopAllBdProcesses. rewrite Hlook.
  pose proof (stopBdDaemons_underflow force w) as Hd.
  destruct (Hdaemons w) as (_ & Hdzero & _).
  destruct (Beads.stopBdDaemons force w) as [[dk dr] w1]. cbn [fst snd] in *.
  pose proof (stopBdActivityProcesses_underflow force w1) as Ha.
  destruct (Hactivity w1) as (_ & Hazero & _).
  destruct (Beads.stopBdActivityProcesses force w1) as [[ak ar] w2]. cbn [fst snd] in *.
  split.
  - intros Hunder. split; [by apply Hdzero|].
    destruct (Z.ltb_spec 0 dr) as [_|Hno]; [done|]. specialize (Hd Hunder). lia.
  - intros Hunder. split; [by apply Hazero|].
    destruct (Z.ltb_spec 0 dr) as [_|_]; [done|].
    destruct (Z.ltb_spec 0 ar) as [_|Hno]; [done|]. specialize (Ha Hunder). lia.
Qed.

(** The caller fails on what remains, whatever the killed counts are. *)
Lemma StopAllBdProcesses_fails_on_remaining force w dk dr ak ar w1 w2 :
  LookPath "bd" w = None ->
  Beads.stopBdDaemons force w = ((dk, dr), w1) ->
  Beads.stopBdActivityProcesses force w1 = ((ak, ar), w2) ->
  (snd (fst (Beads.StopAllBdProcesses LookPath false force w)) = None <-> dr <= 0 /\ ar <= 0).
Proof.
  intros Hl Hd Ha. unfold Beads.StopAllBdProcesses. rewrite Hl, Hd, Ha.
  destruct (Z.ltb_spec 0 dr); [cbn; split; [discriminate|lia]|].
  destruct (Z.ltb_spec 0 ar); [cbn; split; [discriminate|lia]|].
  cbn. split; [lia|done].
Qed.
End StopPasses.

(** One daemon before, two after: zero killed, two remaining. *)
Example daemons_respawned_during_the_stop :
  fst (Beads.stopBdDaemons false Sim.respawning) = (0, 2).
Proof. vm_compute. reflexivity. Qed.

(** C9 as the claim has it fails on the machine whose daemon starts two
    more while it is stopped: one daemon matches before the sequence and
    two after it, the pass reports zero killed, and the run is an error. *)
Lemma respawned_daemons_fail_the_stop :
  Beads.CountBdDaemons Sim.respawning = 1 /\
  fst (Beads.stopBdDaemons false Sim.respawning) = (0, 2) /\
  snd (fst (Beads.StopAllBdProcesses (fun _ _ => None) false false Sim.respawning))
  = Some (ErrorString "bd daemon shutdown incomplete: 2 still running").
Proof. vm_compute. done. Qed.

End BeadsFacts.

(** * Properties of package [doctor] *)

Module DoctorFacts.
Import GoStrings OS Notions Sim Doctor Steps.

Section SplitFacts.
Lemma Contains_hyphen c s :
  Contains (String c s) "-" = Ascii.eqb "-" c || Contains s "-".
Proof.
  cbn [Contains HasPrefix].
  replace (HasPrefix s "") with true by (by destruct s).
  by rewrite andb_true_r.
Qed.

Lemma Split_nonempty s sep : exists piece pieces, Split s sep = piece :: pieces.
Proof.
  induction s as [|c s (piece & pieces & IH)]; cbn [Split]; [eauto|].
  destruct (Ascii.eqb c sep); [eauto|]. rewrite IH. eauto.
Qed.

(** A piece without hyphen, then a hyphen: [Split] cuts there. *)
Lemma Split_app piece rest :
  Contains piece "-" = false ->
  Split (piece +:+ String "-" rest) "-" = piece :: Split rest "-".
Proof.
  induction piece as [|c piece IH]; intros Hfree.
  - done.
  - rewrite Contains_hyphen in Hfree. apply orb_false_elim in Hfree as [Hc Hfree].
    rewrite Ascii.eqb_sym in Hc.
    change (String c piece +:+ String "-" rest)
      with (String c (piece +:+ String "-" rest)).
    cbn [Split]. rewrite Hc, (IH Hfree). done.
Qed.

Lemma isCrewSession_crew rig name :
  Contains rig "-" = false ->
  isCrewSession ("gt-" +:+ rig +:+ "-crew-" +:+ name) = true.
Proof.
  intros Hfree. unfold isCrewSession.
  change ("gt-" +:+ rig +:+ "-crew-" +:+ name)
    with ("gt" +:+ String "-" (rig +:+ String "-" ("crew" +:+ String "-" name))).
  rewrite !Split_app by done.
  destruct (Split_nonempty name "-") as (piece & pieces & ->).
  cbn [nth length]. rewrite !String.eqb_refl, !andb_true_r.
  apply Z.leb_le. lia.
Qed.
End SplitFacts.

Section SessionFix.
Context {W : Type} `{Tmux W}.

Lemma fixSession_kills st sess victim err :
  IssuedKill victim err ∈ sessActions (fixSession st sess) ->
  IssuedKill victim err ∈ sessActions st \/ (victim = sess /\ isCrewSession sess = false).
Proof.
  unfold fixSession. destruct (isCrewSession sess) eqn:Ecrew; [by left|].
  destruct (KillSession sess _) as [e w2]. cbn [sessActions].
  rewrite elem_of_app, !elem_of_cons.
  intros [Hin|[Hin|[Hin|Hin]]]; [by left|discriminate| |by apply elem_of_nil in Hin].
  injection Hin as -> _. by right.
Qed.

Lemma fold_fixSession_kills orphans st victim err :
  IssuedKill victim err ∈ sessActions (fold_left fixSession orphans st) ->
  IssuedKill victim err ∈ sessActions st \/ isCrewSession victim = false.
Proof.
  revert st. induction orphans as [|sess orphans IH]; intros st Hin; [by left|].
  cbn [fold_left] in Hin. destruct (IH _ Hin) as [Hin'|Hno]; [|by right].
  destruct (fixSession_kills _ _ _ _ Hin') as [Hst|[-> Hno]]; [by left|by right].
Qed.

(** C1, as the code has it.  The rig of a session name is the piece
    between the first and the second hyphen, so it holds no hyphen.  For
    every such rig and every name (hyphens or not), whatever [Run] has
    cached, [Fix] never issues a kill for [gt-<rig>-crew-<name>]. *)
Theorem crew_sessions_are_never_killed rig name (c : OrphanSessionCheck) (w : W) err :
  Contains rig "-" = false ->
  IssuedKill ("gt-" +:+ rig +:+ "-crew-" +:+ name) err
    ∉ sessActions (snd (FixSessions c w)).
Proof.
  intros Hfree Hin. unfold FixSessions in Hin.
  assert (IssuedKill ("gt-" +:+ rig +:+ "-crew-" +:+ name) err
            ∈ sessActions (fold_left fixSession (orphanSessions c)
                 {| sessLastErr := None; sessActions := []; sessWorld := w |})) as Hin'.
  { destruct (orphanSessions c); [|exact Hin]. exact Hin. }
  destruct (fold_fixSession_kills _ _ _ _ Hin') as [Hnil|Hno].
  - by apply elem_of_nil in Hnil.
  - by rewrite isCrewSession_crew in Hno.
Qed.

Lemma fixSession_lastErr st sess :
  sessLastErr st = last (failedKills (sessActions st)) ->
  sessLastErr (fixSession st sess)
  = last (failedKills (sessActions (fixSession st sess))).
Proof.
  intros Hst. unfold fixSession. destruct (isCrewSession sess); [done|].
  destruct (KillSession sess _) as [[e|] w2]; cbn [sessLastErr sessActions];
    unfold failedKills; rewrite omap_app; simpl.
  - by rewrite last_snoc.
  - by rewrite app_nil_r.
Qed.

Lemma FixSessions_returns_last_failure (c : OrphanSessionCheck) (w : W) :
  fst (FixSessions c w) = last (failedKills (sessActions (snd (FixSessions c w)))).
Proof.
  unfold FixSessions.
  assert (forall orphans st,
            sessLastErr st = last (failedKills (sessActions st)) ->
            sessLastErr (fold_left fixSession orphans st)
            = last (failedKills (sessActions (fold_left fixSession orphans st)))) as Hfold.
  { induction orphans as [|sess orphans IH]; intros st Hst; [done|].
    cbn [fold_left]. by apply IH, fixSession_lastErr. }
  destruct (orphanSessions c) eqn:E; [done|]. cbn [fst snd]. by apply Hfold.
Qed.
End SessionFix.

(** C1 in the sample town, whose only rig is [my-rig]: [Run] caches the
    crew session of the unknown rig [gongshow] as an orphan, and [Fix]
    issues no kill for it. *)
Lemma crew_sessions_are_never_killed_witness :
  Contains "gongshow" "-" = false /\
  "gt-gongshow-crew-max" ∈ orphanSessions cachedInTown /\
  IssuedKill "gt-gongshow-crew-max" None ∉ sessActions (snd (FixSessions cachedInTown town)).
Proof.
  split; [reflexivity|]. split; [vm_compute; repeat constructor|].
  exact (crew_sessions_are_never_killed "gongshow" "max" cachedInTown town None eq_refl).
Defined.

(** C1 as stated fails for a rig with a hyphen: in the same town [Run]
    reads the rig of [gt-my-rig-crew-joe] as [my], caches the session as
    an orphan, and [Fix] kills it, [parts[2]] being [rig]. *)
Lemma crew_of_hyphenated_rig_is_killed :
  orphanSessions cachedInTown = ["gt-my-rig-crew-joe"; "gt-gongshow-crew-max"] /\
  isCrewSession "gt-my-rig-crew-joe" = false /\
  IssuedKill "gt-my-rig-crew-joe" None ∈ sessActions (snd (FixSessions cachedInTown town)).
Proof.
  split; [vm_compute; reflexivity|].
  split; [vm_compute; reflexivity|vm_compute; repeat constructor].
Qed.

(** C3 as stated fails for the session check: of two cached orphans the
    first is killed, the second is gone already, and [Fix] returns the
    error of the second kill. *)
Lemma session_fix_fails_after_a_successful_kill :
  IssuedKill "gt-lost-alpha" None
    ∈ sessActions (snd (FixSessions {| orphanSessions := ["gt-lost-alpha"; "gt-lost-beta"] |} halfGone)) /\
  fst (FixSessions {| orphanSessions := ["gt-lost-alpha"; "gt-lost-beta"] |} halfGone)
  = Some (ErrorString "session not found").
Proof. split; vm_compute; [repeat constructor|reflexivity]. Qed.

Section Walk.
Context {W : Type} `{ProcessLister W}.
Variable w : W.
Variable tmuxPIDs : gset Z.

Lemma lineage_length levels cur : (length (lineage levels cur w) <= levels)%nat.
Proof.
  revert cur. induction levels as [|levels IH]; intros cur; cbn [lineage]; [done|].
  destruct (1 <? cur); cbn [length]; [|lia].
  destruct (GetParentPID cur w) as [parent [e|]]; cbn [length]; [lia|].
  specialize (IH parent). lia.
Qed.

(** From a visited PID on, the lineage never leaves the visited set. *)
Lemma lineage_visited visited levels cur :
  trail w tmuxPIDs visited cur -> cur ∈ visited ->
  forall a, a ∈ lineage levels cur w -> a ∈ visited.
Proof.
  intros Htrail Hcur0.
  assert (forall v, v ∈ visited ->
            exists next, GetParentPID v w = (next, None) /\ next ∈ visited) as Hclosed.
  { intros v Hv. destruct (Htrail v Hv) as (_ & _ & next & Hnext & [Hin| ->]); eauto. }
  clear Htrail. revert cur Hcur0.
  induction levels as [|levels IH]; intros cur Hcur a Ha; cbn [lineage] in Ha.
  - by apply elem_of_nil in Ha.
  - destruct (1 <? cur); [|by apply elem_of_nil in Ha].
    apply elem_of_cons in Ha as [->|Ha]; [done|].
    destruct (Hclosed cur Hcur) as (next & Hnext & Hin).
    rewrite Hnext in Ha. by apply (IH next).
Qed.

Lemma trail_step visited cur next :
  trail w tmuxPIDs visited cur -> cur ∉ tmuxPIDs -> 1 < cur ->
  GetParentPID cur w = (next, None) ->
  trail w tmuxPIDs ({[cur]} ∪ visited) next.
Proof.
  intros Htrail Hcur Hlt Hnext v [->%elem_of_singleton|Hv]%elem_of_union.
  - split; [done|split; [done|]]. exists next. split; [done|by right].
  - destruct (Htrail v Hv) as (Hv1 & Hv2 & next' & Hnext' & Hcase).
    split; [done|split; [done|]]. exists next'. split; [done|].
    left. apply elem_of_union. destruct Hcase as [Hin| ->]; [by right|].
    left. by apply elem_of_singleton.
Qed.

(** The answer of the loop: no PID of the lineage is a tmux PID. *)
Lemma walkAncestors_answer levels cur visited lookups :
  trail w tmuxPIDs visited cur ->
  fst (walkAncestors levels cur visited tmuxPIDs w lookups) = true <->
  forall a, a ∈ lineage levels cur w -> a ∉ tmuxPIDs.
Proof.
  revert cur visited lookups.
  induction levels as [|levels IH]; intros cur visited lookups Htrail.
  - cbn [walkAncestors lineage fst negb andb]. split; [|done]. intros _ a Ha. by apply elem_of_nil in Ha.
  - cbn [walkAncestors]. destruct (Z.ltb_spec 1 cur) as [Hlt|Hle].
    + destruct (decide (cur ∈ visited)) as [Hvis|Hvis].
      * rewrite (bool_decide_eq_true_2 _ Hvis). cbn [fst negb andb]. split; [|done].
        intros _ a Ha. apply (Htrail a). by eapply lineage_visited.
      * rewrite (bool_decide_eq_false_2 _ Hvis). cbn [negb andb].
        assert (lineage (S levels) cur w
                = cur :: match GetParentPID cur w with
                         | (_, Some _) => []
                         | (parent, None) => lineage levels parent w
                         end) as Hlin.
        { cbn [lineage]. by destruct (Z.ltb_spec 1 cur); [|lia]. }
        rewrite Hlin.
        destruct (decide (cur ∈ tmuxPIDs)) as [Hin|Hout].
        -- rewrite (bool_decide_eq_true_2 _ Hin). cbn [walkAncestors lineage fst negb andb]. split; [done|].
           intros Hall. exfalso. apply (Hall cur); [apply elem_of_cons; by left|done].
        -- rewrite (bool_decide_eq_false_2 _ Hout).
           destruct (GetParentPID cur w) as [next [e|]] eqn:Enext.
           ++ cbn [walkAncestors lineage fst negb andb]. split; [|done]. intros _ a ->%list_elem_of_singleton. done.
           ++ rewrite (IH next _ _ (trail_step _ _ _ Htrail Hout Hlt Enext)).
              split.
              ** intros Hall a [->|Ha]%elem_of_cons; [done|by apply Hall].
              ** intros Hall a Ha. apply Hall, elem_of_cons. by right.
    + cbn [walkAncestors lineage fst negb andb]. split; [|done]. intros _ a Ha.
      cbn [lineage] in Ha. destruct (Z.ltb_spec 1 cur); [lia|].
      by apply elem_of_nil in Ha.
Qed.

(** The lookups of the loop: a first part of the lineage, without
    repetition and outside what was visited before. *)
Lemma walkAncestors_lookups levels cur visited lookups :
  exists k,
    snd (walkAncestors levels cur visited tmuxPIDs w lookups)
    = lookups ++ take k (lineage levels cur w) /\
    NoDup (take k (lineage levels cur w)) /\
    forall a, a ∈ take k (lineage levels cur w) -> a ∉ visited.
Proof.
  revert cur visited lookups.
  induction levels as [|levels IH]; intros cur visited lookups;
    cbn [walkAncestors lineage].
  - stop_walk.
  - destruct (Z.ltb_spec 1 cur) as [Hlt|Hle]; [|stop_walk].
    destruct (decide (cur ∈ visited)) as [Hvis|Hvis].
    { rewrite (bool_decide_eq_true_2 _ Hvis). stop_walk. }
    rewrite (bool_decide_eq_false_2 _ Hvis). cbn [negb andb].
    destruct (decide (cur ∈ tmuxPIDs)) as [Hin|Hout].
    { rewrite (bool_decide_eq_true_2 _ Hin). stop_walk. }
    rewrite (bool_decide_eq_false_2 _ Hout).
    destruct (GetParentPID cur w) as [next [e|]] eqn:Enext.
    + cbn [snd]. exists 1%nat. cbn [take]. split; [done|]. split; [apply NoDup_singleton|].
      intros a ->%list_elem_of_singleton. done.
    + destruct (IH next ({[cur]} ∪ visited) (lookups ++ [cur])) as (k & Hk & Hnodup & Hfresh).
      exists (S k). cbn [take]. split; [|split].
      * rewrite Hk, <- app_assoc. done.
      * apply NoDup_cons. split; [|done]. intros Hin.
        apply (Hfresh cur Hin), elem_of_union. left. by apply elem_of_singleton.
      * intros a [->|Ha]%elem_of_cons; [done|].
        intros Hin. apply (Hfresh a Ha), elem_of_union. by right.
Qed.
End Walk.

Section Classification.
Context {W : Type} `{ProcessLister W}.

(** A candidate is an orphan when no PID of its lineage, eight levels
    up from its current parent, is a tmux PID. *)
Lemma isOrphanProcess_answer (proc : processInfo) (tmuxPIDs : gset Z) (w : W) :
  isOrphanProcess proc tmuxPIDs w = true <->
  forall a, a ∈ lineage maxAncestryDepth (startPPID proc w) w -> a ∉ tmuxPIDs.
Proof.
  unfold isOrphanProcess, isOrphanProcessLookups.
  apply walkAncestors_answer. intros v Hv. by apply not_elem_of_empty in Hv.
Qed.

(** C5, as the code has it.  The walk examines the lineage of the
    candidate: its current parent (the cached one only when the lookup of
    the candidate fails), the current parent of that, and so on, at most
    8 PIDs, ending at a PID of 1 or less or at a failed lookup.  The
    candidate is an orphan exactly when no PID of the lineage is a tmux
    PID, cycles included.  [GetParentPID] is called on the candidate and
    then on a first part of the lineage, on no PID twice: at most 9 calls
    in all, one more than the levels examined. *)
Theorem orphan_walk_is_bounded (proc : processInfo) (tmuxPIDs : gset Z) (w : W) :
  let ancestors := lineage maxAncestryDepth (startPPID proc w) w in
  (isOrphanProcess proc tmuxPIDs w = true <-> forall a, a ∈ ancestors -> a ∉ tmuxPIDs) /\
  (length ancestors <= 8)%nat /\
  (exists k, snd (isOrphanProcessLookups proc tmuxPIDs w) = pid proc :: take k ancestors
             /\ NoDup (take k ancestors)) /\
  (length (snd (isOrphanProcessLookups proc tmuxPIDs w)) <= 9)%nat.
Proof.
  cbv zeta. unfold isOrphanProcessLookups.
  pose proof (lineage_length w maxAncestryDepth (startPPID proc w)) as Hlen.
  destruct (walkAncestors_lookups w tmuxPIDs maxAncestryDepth (startPPID proc w) ∅
              [pid proc]) as (k & Hk & Hnodup & _).
  split; [|split; [|split]].
  - apply isOrphanProcess_answer.
  - exact Hlen.
  - exists k. by split.
  - rewrite Hk. cbn [app length]. rewrite length_take. unfold maxAncestryDepth in *. lia.
Qed.
End Classification.

(** C5 as stated fails in its count: under twenty nested shells and
    without tmux, the candidate is classified an orphan after nine calls
    of [GetParentPID], on the candidate and on its first eight
    ancestors. *)
Lemma depth_20_chain_takes_nine_lookups :
  fst (isOrphanProcessLookups claude100 (getTmuxSessionPIDs deep) deep) = true /\
  snd (isOrphanProcessLookups claude100 (getTmuxSessionPIDs deep) deep)
  = [100; 99; 98; 97; 96; 95; 94; 93; 92] /\
  ~ (length (snd (isOrphanProcessLookups claude100 (getTmuxSessionPIDs deep) deep)) <= 8)%nat.
Proof.
  assert (isOrphanProcessLookups claude100 (getTmuxSessionPIDs deep) deep
          = (true, [100; 99; 98; 97; 96; 95; 94; 93; 92])) as -> by (vm_compute; reflexivity).
  cbn [fst snd length]. repeat split. lia.
Qed.

Section Registry.
Lemma addPIDs_spec pids (set : gset Z) a : a ∈ addPIDs pids set <-> a ∈ pids \/ a ∈ set.
Proof.
  unfold addPIDs. revert set.
  induction pids as [|p pids IH]; intros set; cbn [fold_left].
  - split; [by right|]. intros [Hnil|Hin]; [by apply elem_of_nil in Hnil|done].
  - rewrite IH, elem_of_cons, elem_of_union, elem_of_singleton. tauto.
Qed.
End Registry.

Section ProcessFixFacts.
Context {W : Type} `{Kernel W} `{ProcessLister W}.

(** The registry of [Fix]: the pane PIDs and the server PIDs. *)
Lemma freshPanePIDSet_spec panes (w : W) a :
  a ∈ freshPanePIDSet panes w <-> a ∈ panes \/ a ∈ fst (ListTmuxServerPIDs w).
Proof.
  unfold freshPanePIDSet. rewrite !addPIDs_spec.
  split; [intros [?|[?|Hempty]]|intros [?|?]]; try tauto.
  by apply not_elem_of_empty in Hempty.
Qed.



(** Once the panes are listed, [Fix] is its loop over the cache. *)
Lemma FixProcesses_loop (c : OrphanProcessCheck) (ctx : CheckContext) (w : W) :
  snd (ListPanePIDs w) = None ->
  let st := fixLoop (DryRun ctx) (freshPanePIDSet (fst (ListPanePIDs w)) w)
              (orphanProcesses c) (startFix w) in
  killed (snd (FixProcesses c ctx w)) = killed st /\
  skipped (snd (FixProcesses c ctx w)) = skipped st /\
  signals (snd (FixProcesses c ctx w)) = signals st /\
  world (snd (FixProcesses c ctx w)) = world st.
Proof.
  intros Hlist. cbv zeta. unfold FixProcesses.
  destruct (ListPanePIDs w) as [panes err]. cbn [fst snd] in *. subst err.
  destruct (orphanProcesses c) as [|proc orphans]; [done|].
  destruct (DryRun ctx).
  - by destruct (0 <? _).
  - destruct (lastErr _); [|done]. by destruct (_ =? 0).
Qed.


(** One iteration, by the two checks: a candidate that fails the
    first is skipped, one that fails the second is left alone, one that
    passes both is counted (dry run) or sent a SIGTERM. *)
Lemma fixProcess_cases dry reg (st : ProcessFix W) proc :
  (isOrphanProcess proc reg (world st) = false /\ fixProcess dry reg st proc = skip st) \/
  (isOrphanProcess proc reg (world st) = true /\
   exists e, fst (Kill (pid proc) 0 (world st)) = Some e /\
     fixProcess dry reg st proc
     = {| killed := killed st; skipped := skipped st; lastErr := lastErr st;
          printed := printed st; signals := signals st ++ [(pid proc, 0, Some e)];
          world := snd (Kill (pid proc) 0 (world st)) |}) \/
  (condemned reg (world st) proc = true /\
   if dry then
     fixProcess dry reg st proc
     = {| killed := killed st + 1; skipped := skipped st; lastErr := lastErr st;
          printed := printed st ++ [wouldKillLine proc];
          signals := signals st ++ [(pid proc, 0, None)];
          world := snd (Kill (pid proc) 0 (world st)) |}
   else
     exists err w2,
       Kill (pid proc) SIGTERM (snd (Kill (pid proc) 0 (world st))) = (err, w2) /\
       fixProcess dry reg st proc
       = {| killed := match err with None => killed st + 1 | Some _ => killed st end;
            skipped := skipped st;
            lastErr := match err with
                       | None => lastErr st
                       | Some e => Some (WrapError ("failed to kill PID " +:+ Itoa (pid proc))
                                           (SysError e))
                       end;
            printed := printed st;
            signals := signals st ++ [(pid proc, 0, None); (pid proc, SIGTERM, err)];
            world := w2 |}).
Proof.
  unfold fixProcess, condemned.
  destruct (isOrphanProcess proc reg (world st)); [|by left].
  right. destruct (Kill (pid proc) 0 (world st)) as [[e|] w1]; cbn [fst snd negb andb].
  - left. split; [done|]. by exists e.
  - right. split; [done|]. destruct dry; [done|].
    destruct (Kill (pid proc) SIGTERM w1) as [[e|] w2]; by eexists _, _.
Qed.

(** The dry run sends the probe and nothing else. *)
Lemma dry_loop_probes reg orphans (st : ProcessFix W) :
  (forall pid sig err, (pid, sig, err) ∈ signals st -> sig = 0) ->
  forall pid sig err, (pid, sig, err) ∈ signals (fixLoop true reg orphans st) -> sig = 0.
Proof.
  revert st. induction orphans as [|proc orphans IH]; intros st Hst; [done|].
  unfold fixLoop. cbn [fold_left]. apply IH.
  destruct (fixProcess_cases true reg st proc)
    as [[_ ->]|[(_ & e & _ & ->)|[_ ->]]]; cbn [signals skip]; [done| |];
    intros p s e' [Hin|Hin%list_elem_of_singleton]%elem_of_app; eauto; congruence.
Qed.

Section Probe.
(** The kernel delivers nothing for signal 0. *)
Hypothesis probe_only : forall pid (w : W), snd (Kill pid 0 w) = w.

Lemma dry_loop_report reg orphans (st : ProcessFix W) :
  let st' := fixLoop true reg orphans st in
  world st' = world st /\
  killed st' = killed st
               + Z.of_nat (length (filter (condemned reg (world st)) orphans)) /\
  skipped st' = skipped st
                + Z.of_nat (length (filter (fun p => isOrphanProcess p reg (world st) = false)
                                      orphans)) /\
  printed st' = printed st ++ (wouldKillLine <$> filter (condemned reg (world st)) orphans).
Proof.
  revert st. induction orphans as [|proc orphans IH]; intros st; cbv zeta.
  - unfold fixLoop. cbn. rewrite app_nil_r. repeat split; lia.
  - unfold fixLoop. cbn [fold_left]. fold (fixLoop true reg orphans (fixProcess true reg st proc)).
    destruct (IH (fixProcess true reg st proc)) as (Hw & Hk & Hs & Hp).
    rewrite Hw, Hk, Hs, Hp. clear IH Hw Hk Hs Hp.
    destruct (fixProcess_cases true reg st proc)
      as [[Horphan ->]|[(Horphan & e & Hprobe & ->)|[Hcond ->]]];
      cbn [world killed skipped printed skip]; rewrite ?probe_only.
    + assert (condemned reg (world st) proc = false) as Hcond
        by (unfold condemned; by rewrite Horphan).
      rewrite (filter_cons_False (condemned reg (world st))) by (rewrite Hcond; exact id).
      rewrite (filter_cons_True (fun p => isOrphanProcess p reg (world st) = false)) by done.
      cbn [length]. repeat split; lia.
    + assert (condemned reg (world st) proc = false) as Hcond
        by (unfold condemned; by rewrite Horphan, Hprobe).
      rewrite (filter_cons_False (condemned reg (world st))) by (rewrite Hcond; exact id).
      rewrite (filter_cons_False (fun p => isOrphanProcess p reg (world st) = false))
        by (by rewrite Horphan).
      repeat split; lia.
    + assert (isOrphanProcess proc reg (world st) = true) as Horphan
        by (unfold condemned in Hcond; by apply andb_prop in Hcond as [? _]).
      rewrite (filter_cons_True (condemned reg (world st))) by (rewrite Hcond; exact I).
      rewrite (filter_cons_False (fun p => isOrphanProcess p reg (world st) = false))
        by (by rewrite Horphan).
      cbn [length fmap list_fmap]. rewrite <- app_assoc. repeat split; lia.
Qed.

(** A dry and a real iteration classify a candidate alike. *)
Lemma dry_and_real_agree reg (st : ProcessFix W) proc :
  skipped (fixProcess true reg st proc) = skipped (fixProcess false reg st proc) /\
  (condemned reg (world st) proc = true <->
   printed (fixProcess true reg st proc) = printed st ++ [wouldKillLine proc]) /\
  (condemned reg (world st) proc = true <->
   exists err, signals (fixProcess false reg st proc)
               = signals st ++ [(pid proc, 0, None); (pid proc, SIGTERM, err)]).
Proof.
  unfold fixProcess, condemned.
  destruct (isOrphanProcess proc reg (world st)); cbn [negb andb].
  - destruct (Kill (pid proc) 0 (world st)) as [[e|] w1]; cbn [fst].
    + cbn [skipped printed signals]. split; [done|]. split; (split; [discriminate|]).
      * intros Heq. apply (f_equal length) in Heq. rewrite length_app in Heq.
        cbn in Heq. lia.
      * intros [err Heq]. apply (f_equal length) in Heq. rewrite !length_app in Heq.
        cbn in Heq. lia.
    + destruct (Kill (pid proc) SIGTERM w1) as [[e|] w2];
        cbn [skipped printed signals]; (split; [done|]); split; (split; [|done]); eauto.
  - cbn [skipped printed signals]. split; [done|]. split; (split; [discriminate|]).
    + intros Heq. apply (f_equal length) in Heq. rewrite length_app in Heq.
      cbn in Heq. lia.
    + intros [err Heq]. apply (f_equal length) in Heq. rewrite length_app in Heq.
      cbn in Heq. lia.
Qed.

(** C8.  On a kernel that delivers nothing for signal 0, a dry run of
    [Fix] calls [syscallKill] with signal 0 only and leaves the world as
    it was.  When the panes are listed it returns no error; its kill
    count is the number of cached candidates that are still orphans and
    still exist, its skip count the number of those that are orphans no
    more, and it prints one line for each of the former and one for the
    latter count.  An iteration of the dry run and one of the real run
    take the same decisions: they skip alike, and the dry run announces
    a kill exactly when the real run sends the SIGTERM. *)
Theorem dry_run_delivers_nothing (c : OrphanProcessCheck) (ctx : CheckContext) (w : W) :
  DryRun ctx = true ->
  let reg := freshPanePIDSet (fst (ListPanePIDs w)) w in
  let r := FixProcesses c ctx w in
  (forall pid sig err, (pid, sig, err) ∈ signals (snd r) -> sig = 0) /\
  world (snd r) = w /\
  (snd (ListPanePIDs w) = None ->
     fst r = None /\
     killed (snd r)
     = Z.of_nat (length (filter (condemned reg w) (orphanProcesses c))) /\
     skipped (snd r)
     = Z.of_nat (length (filter (fun p => isOrphanProcess p reg w = false)
                           (orphanProcesses c))) /\
     printed (snd r)
     = (wouldKillLine <$> filter (condemned reg w) (orphanProcesses c))
       ++ (if 0 <? skipped (snd r) then [wouldSkipLine (skipped (snd r))] else [])) /\
  (forall (st : ProcessFix W) proc,
     skipped (fixProcess true reg st proc) = skipped (fixProcess false reg st proc) /\
     (condemned reg (world st) proc = true <->
      printed (fixProcess true reg st proc) = printed st ++ [wouldKillLine proc]) /\
     (condemned reg (world st) proc = true <->
      exists err, signals (fixProcess false reg st proc)
                  = signals st ++ [(pid proc, 0, None); (pid proc, SIGTERM, err)])).
Proof.
  intros Hdry. cbv zeta. unfold FixProcesses. rewrite Hdry.
  destruct (ListPanePIDs w) as [panes err]. cbn [fst snd].
  set (reg := freshPanePIDSet panes w).
  split; [|split; [|split; [|intros st proc; apply dry_and_real_agree]]].
  - assert (forall pid sig e, (pid, sig, e) ∈ signals (startFix w) -> sig = 0) as Hnone.
    { intros ? ? ? Hnil. by apply elem_of_nil in Hnil. }
    destruct (orphanProcesses c) as [|proc orphans]; [exact Hnone|].
    destruct err as [e|]; [exact Hnone|]. cbn [snd].
    intros p s e Hin. apply (dry_loop_probes reg (proc :: orphans) _ Hnone p s e).
    by destruct (0 <? _).
  - destruct (orphanProcesses c) as [|proc orphans]; [done|].
    destruct err as [e|]; [done|]. cbn [snd].
    destruct (dry_loop_report reg (proc :: orphans) (startFix w)) as (Hw & _).
    by destruct (0 <? _).
  - intros ->.
    destruct (dry_loop_report reg (orphanProcesses c) (startFix w))
      as (Hw & Hk & Hs & Hp). cbn [startFix world killed skipped printed] in *.
    rewrite Z.add_0_l in Hk, Hs. rewrite app_nil_l in Hp.
    destruct (orphanProcesses c) as [|proc orphans] eqn:Ec; [by cbn|].
    split; [done|]. cbn [snd].
    destruct (0 <? skipped (fixLoop true reg (proc :: orphans) (startFix w))) eqn:Eskip;
      cbn [killed skipped printed]; rewrite ?Eskip, ?Hp, ?app_nil_r; done.
Qed.
End Probe.

(** A dry run delivers no SIGTERM, and none is refused. *)
Lemma dry_loop_terms reg orphans (st : ProcessFix W) :
  deliveries (signals (fixLoop true reg orphans st)) = deliveries (signals st) /\
  refusals (signals (fixLoop true reg orphans st)) = refusals (signals st).
Proof.
  revert st. induction orphans as [|proc orphans IH]; intros st; [done|].
  unfold fixLoop. cbn [fold_left].
  fold (fixLoop true reg orphans (fixProcess true reg st proc)).
  destruct (IH (fixProcess true reg st proc)) as [-> ->].
  destruct (fixProcess_cases true reg st proc)
    as [[_ ->]|[(_ & e & _ & ->)|[_ ->]]]; cbn [signals skip]; [done| |];
    unfold deliveries, refusals; rewrite !omap_app; cbn; by rewrite !app_nil_r.
Qed.

(** In a real run [killed] counts the SIGTERMs delivered and [lastErr]
    is the last SIGTERM refused. *)
Lemma real_loop_terms reg orphans (st : ProcessFix W) :
  killed st = Z.of_nat (length (deliveries (signals st))) ->
  lastErr st = last (refusals (signals st)) ->
  killed (fixLoop false reg orphans st)
  = Z.of_nat (length (deliveries (signals (fixLoop false reg orphans st)))) /\
  lastErr (fixLoop false reg orphans st)
  = last (refusals (signals (fixLoop false reg orphans st))).
Proof.
  revert st. induction orphans as [|proc orphans IH]; intros st Hk He; [done|].
  unfold fixLoop. cbn [fold_left].
  fold (fixLoop false reg orphans (fixProcess false reg st proc)).
  apply IH;
    destruct (fixProcess_cases false reg st proc)
      as [[_ ->]|[(_ & e & _ & ->)|[_ (err & w2 & _ & ->)]]];
    cbn [signals killed lastErr skip]; try done;
    unfold deliveries, refusals; rewrite !omap_app; cbn;
    rewrite ?app_nil_r; try done.
  - destruct err; cbn; rewrite ?app_nil_r, ?length_app; cbn; [done|].
    fold (deliveries (signals st)). lia.
  - destruct err; cbn; rewrite ?app_nil_r, ?last_snoc; done.
Qed.
End ProcessFixFacts.

Section FixFailure.
Context {W : Type} `{Kernel W} `{ProcessLister W} `{Tmux W}.

(** C3, as the code has it.  The session pass counts no kills: it
    returns the error of the last kill that failed, so it fails as soon
    as one kill fails, however many succeeded.  The process pass returns
    an error in two cases and no other: candidates are cached and the
    panes cannot be listed, the error being that of the listing, wrapped;
    or the run is a real one in which no SIGTERM was delivered and one
    was refused, the error being that of the last refusal.  With nothing
    cached it returns no error, whatever the listing would answer.  When
    the listing fails no signal is sent; with one SIGTERM delivered the
    pass returns no error. *)
Theorem Fix_fails_as_follows (cs : OrphanSessionCheck) (cp : OrphanProcessCheck)
    (ctx : CheckContext) (w : W) :
  fst (FixSessions cs w) = last (failedKills (sessActions (snd (FixSessions cs w)))) /\
  (forall e, fst (FixProcesses cp ctx w) = Some e <->
     (orphanProcesses cp <> [] /\
      exists e', snd (ListPanePIDs w) = Some e' /\
                 e = WrapError "failed to list current pane PIDs" e') \/
     (DryRun ctx = false /\
      deliveries (signals (snd (FixProcesses cp ctx w))) = [] /\
      last (refusals (signals (snd (FixProcesses cp ctx w)))) = Some e)) /\
  (orphanProcesses cp = [] -> fst (FixProcesses cp ctx w) = None) /\
  (forall e', snd (ListPanePIDs w) = Some e' ->
     signals (snd (FixProcesses cp ctx w)) = []) /\
  (deliveries (signals (snd (FixProcesses cp ctx w))) <> [] ->
   fst (FixProcesses cp ctx w) = None).
Proof.
  split; [apply FixSessions_returns_last_failure|].
  unfold FixProcesses.
  destruct (orphanProcesses cp) as [|proc orphans].
  { cbn [fst snd startFix signals]. split; [|done].
    intros e. split; [discriminate|].
    intros [[Hne _]|(_ & _ & Hlast)]; [done|discriminate]. }
  destruct (ListPanePIDs w) as [panes [e'|]]; cbn [fst snd].
  { cbn [startFix signals]. split; [|done].
    intros e. split.
    - intros [= <-]. left. split; [done|]. by exists e'.
    - intros [(_ & e'' & [= <-] & ->)|(_ & _ & Hlast)]; [done|discriminate]. }
  set (reg := freshPanePIDSet panes w).
  destruct (DryRun ctx) eqn:Edry.
  { cbn [fst snd]. split; [|done].
    intros e. split; [discriminate|].
    intros [(_ & e'' & Hlist & _)|(Hdry & _)]; discriminate. }
  destruct (real_loop_terms reg (proc :: orphans) (startFix w)) as [Hk He]; [done..|].
  set (st := fixLoop false reg (proc :: orphans) (startFix w)) in *.
  destruct (lastErr st) as [e0|] eqn:Elast.
  - destruct (Z.eqb_spec (killed st) 0) as [Hzero|Hsome]; cbn [fst snd].
    + assert (deliveries (signals st) = []) as Hnone.
      { apply length_zero_iff_nil. lia. }
      split; [|done]. intros e. split.
      * intros [= <-]. right. by rewrite <- He.
      * intros [(_ & e'' & Hlist & _)|(_ & _ & Hlast)]; [discriminate|]. congruence.
    + split; [|done]. intros e. split; [discriminate|].
      intros [(_ & e'' & Hlist & _)|(_ & Hnone & _)]; [discriminate|].
      rewrite Hnone in Hk. cbn [length] in Hk. lia.
  - cbn [fst snd]. split; [|done]. intros e. split; [discriminate|].
    intros [(_ & e'' & Hlist & _)|(_ & _ & Hlast)]; [discriminate|]. congruence.
Qed.
End FixFailure.

(** C3 on the sample machine when the panes cannot be listed: with a
    candidate cached [Fix] returns the error of the listing and sends no
    signal; with nothing cached it returns no error. *)
Example Fix_without_the_pane_listing :
  FixProcesses (H0 := paneless) {| orphanProcesses := [claude50] |}
    {| TownRoot := "/gt"; DryRun := false |} adopted
  = (Some (WrapError "failed to list current pane PIDs" (ErrorString "exit status 1")),
     startFix adopted) /\
  FixProcesses (H0 := paneless) {| orphanProcesses := [] |}
    {| TownRoot := "/gt"; DryRun := false |} adopted
  = (None, startFix adopted).
Proof. by vm_compute. Qed.

Section RunCache.
Context {W : Type} `{Kernel W} `{ProcessLister W}.

(** The classification loop of [Run] is a filter. *)
Lemma classifyProcesses_filter procs reg (w : W) outside inside :
  fst (classifyProcesses procs reg w outside inside)
  = outside ++ filter (fun p => isOrphanProcess p reg w = true) procs.
Proof.
  revert outside inside. induction procs as [|proc procs IH]; intros outside inside;
    cbn [classifyProcesses].
  - by rewrite app_nil_r.
  - destruct (isOrphanProcess proc reg w) eqn:E.
    + rewrite IH, filter_cons_True by done. by rewrite <- app_assoc.
    + rewrite IH, filter_cons_False; [done|]. by rewrite E.
Qed.

(** X2.  When the runtime processes cannot be listed, [Run] answers
    with a warning and leaves the cache as it was; when they are listed
    and there is one at least, it caches those that are orphans against
    the registry of tmux PIDs, in the order of the listing. *)
Theorem Run_caches_the_orphans (c : OrphanProcessCheck) (w : W) :
  (forall e, snd (ListRuntimeProcesses w) = Some e ->
     Status (fst (RunProcesses c w)) = StatusWarning /\ snd (RunProcesses c w) = c) /\
  (snd (ListRuntimeProcesses w) = None -> fst (ListRuntimeProcesses w) <> [] ->
     orphanProcesses (snd (RunProcesses c w))
     = filter (fun p => isOrphanProcess p (getTmuxSessionPIDs w) w = true)
         (fst (ListRuntimeProcesses w))).
Proof.
  unfold RunProcesses.
  destruct (ListRuntimeProcesses w) as [procs [e|]]; cbn [fst snd].
  - split; [done|discriminate].
  - split; [discriminate|]. intros _ Hsome.
    destruct procs as [|proc procs]; [done|].
    pose proof (classifyProcesses_filter (proc :: procs) (getTmuxSessionPIDs w) w [] 0) as Hf.
    destruct (classifyProcesses (proc :: procs) (getTmuxSessionPIDs w) w [] 0)
      as [outside inside]. cbn [fst] in Hf. rewrite app_nil_l in Hf. rewrite <- Hf.
    by destruct outside.
Qed.
End RunCache.

(** Of the two runtime processes of the sample machine, [Run] caches the
    one outside tmux. *)
Example Run_on_the_sample_machine :
  orphanProcesses (snd (RunProcesses {| orphanProcesses := [] |} adopted))
  = [{| pid := 50; ppid := 1; cmd := "claude" |}].
Proof. vm_compute. reflexivity. Qed.



(** C8 on the sample machine, whose kernel delivers nothing for signal 0. *)
Lemma dry_run_delivers_nothing_witness :
  world (snd (FixProcesses {| orphanProcesses := [claude50; claude13] |}
                {| TownRoot := "/gt"; DryRun := true |} adopted)) = adopted /\
  forall pid sig err,
    (pid, sig, err) ∈ signals (snd (FixProcesses {| orphanProcesses := [claude50; claude13] |}
                                     {| TownRoot := "/gt"; DryRun := true |} adopted)) ->
    sig = 0.
Proof.
  destruct (dry_run_delivers_nothing ProcFacts.kill_probe {| orphanProcesses := [claude50; claude13] |}
              {| TownRoot := "/gt"; DryRun := true |} adopted eq_refl) as (Hsig & Hw & _).
  by split.
Defined.

(** The dry and the real pass over the same two candidates. *)
Example dry_run_on_two_candidates :
  let r := FixProcesses {| orphanProcesses := [claude50; claude13] |}
             {| TownRoot := "/gt"; DryRun := true |} adopted in
  fst r = None /\ killed (snd r) = 1 /\ skipped (snd r) = 1 /\
  signals (snd r) = [(50, 0, None)] /\
  printed (snd r) = ["[dry-run] Would kill PID 50: claude";
                     "[dry-run] 1 process(es) now have tmux ancestors, would skip"].
Proof. vm_compute. repeat split. Qed.

Example real_run_on_two_candidates :
  let r := FixProcesses {| orphanProcesses := [claude50; claude13] |}
             {| TownRoot := "/gt"; DryRun := false |} adopted in
  fst r = None /\ killed (snd r) = 1 /\ skipped (snd r) = 1 /\
  signals (snd r) = [(50, 0, None); (50, SIGTERM, None)].
Proof. vm_compute. repeat split. Qed.

End DoctorFacts.

(** * Facts about strings *)

Module StringFacts.
Import GoStrings.

Lemma append_nil_l (s : string) : EmptyString +:+ s = s.
Proof. reflexivity. Qed.

Lemma append_String c (s1 s2 : string) : String c s1 +:+ s2 = String c (s1 +:+ s2).
Proof. reflexivity. Qed.

Lemma append_nil_r (s : string) : s +:+ EmptyString = s.
Proof. induction s as [|c s IH]; [done|]. by rewrite append_String, IH. Qed.

Lemma append_assoc (s1 s2 s3 : string) : (s1 +:+ s2) +:+ s3 = s1 +:+ (s2 +:+ s3).
Proof. induction s1 as [|c s1 IH]; [done|]. by rewrite !append_String, IH. Qed.

Lemma length_append (s1 s2 : string) :
  String.length (s1 +:+ s2) = (String.length s1 + String.length s2)%nat.
Proof.
  induction s1 as [|c s1 IH]; [done|].
  rewrite append_String. cbn [String.length plus]. by rewrite IH.
Qed.

Lemma HasPrefix_nil s : HasPrefix s EmptyString = true.
Proof. by destruct s. Qed.

Lemma HasPrefix_spec s prefix :
  HasPrefix s prefix = true <-> exists rest, s = prefix +:+ rest.
Proof.
  revert s. induction prefix as [|p prefix IH]; intros s.
  - destruct s; (split; [intros _; by eexists|done]).
  - destruct s as [|c s]; cbn [HasPrefix].
    + split; [done|]. by intros [rest [=]].
    + rewrite andb_true_iff, Ascii.eqb_eq, IH. split.
      * intros [ -> [rest ->]]. by exists rest.
      * intros [rest [= -> ->]]. split; [done|]. by exists rest.
Qed.

(** [strings.Contains]: the pattern occurs somewhere. *)
Lemma Contains_spec s substr :
  Contains s substr = true <-> exists before after, s = before +:+ substr +:+ after.
Proof.
  induction s as [|c s IH].
  - cbn [Contains]. rewrite orb_false_r, HasPrefix_spec. split.
    + intros [rest ->]. by exists EmptyString, rest.
    + intros (before & after & Heq). destruct before as [|??]; [|discriminate].
      by exists after.
  - cbn [Contains]. rewrite orb_true_iff, HasPrefix_spec, IH. split.
    + intros [[rest ->]|(before & after & ->)].
      * by exists EmptyString, rest.
      * by exists (String c before), after.
    + intros (before & after & Heq). destruct before as [|b before].
      * left. by exists after.
      * right. injection Heq as -> ->. by exists before, after.
Qed.

End StringFacts.

(** * Properties of the search for a named descendant *)

Module ProcTreeFacts.
Import GoStrings OS ProcTree Notions NamedNotions.

Section Search.
Variable fs : FileSystem.
Variable TrimSpace : string -> string.
Variable names : list string.

Lemma withComm_spec children result info :
  info ∈ withComm fs TrimSpace children result <->
  info ∈ result \/
  (PID info ∈ children /\ Comm info = GetComm fs TrimSpace (PID info) /\ Comm info <> EmptyString).
Proof.
  revert result. induction children as [|c children IH]; intros result; cbn [withComm].
  - split; [by left|]. intros [?|[Hin _]]; [done|]. by apply elem_of_nil in Hin.
  - destruct (String.eqb_spec (GetComm fs TrimSpace c) EmptyString) as [Heq|Hne]; cbn [negb];
      rewrite IH.
    + rewrite elem_of_cons. split; [tauto|].
      intros [?|[[ -> |?] [Hc Hn]]]; [tauto| |tauto]. congruence.
    + rewrite elem_of_app, list_elem_of_singleton, elem_of_cons. split.
      * intros [[?| -> ]|?]; [tauto| |tauto]. right. cbn. tauto.
      * intros [?|[[Hp|?] [Hc Hn]]]; [tauto| |tauto].
        left. right. destruct info as [p cm]. cbn in *. by subst.
Qed.

Lemma GetChildrenWithComm_spec p info :
  info ∈ GetChildrenWithComm fs TrimSpace p <->
  named fs TrimSpace p (PID info) /\ Comm info = GetComm fs TrimSpace (PID info).
Proof.
  unfold GetChildrenWithComm, named, child.
  destruct (Proc.GetChildren fs p) as [|c l] eqn:Hl.
  - split; [intros Hin; by apply elem_of_nil in Hin|].
    intros [[Hin _] _]. by apply elem_of_nil in Hin.
  - rewrite withComm_spec. split.
    + intros [Hin|(? & Hc & ?)]; [by apply elem_of_nil in Hin|].
      rewrite <- Hc. tauto.
    + intros [[? Hn] Hc]. right. rewrite Hc. tauto.
Qed.

Lemma named_reported p c :
  named fs TrimSpace p c -> {| PID := c; Comm := GetComm fs TrimSpace c |} ∈ GetChildrenWithComm fs TrimSpace p.
Proof. intros Hn. by apply GetChildrenWithComm_spec. Qed.

Lemma scanChildren_sound rec p children V b V' :
  (forall q U b' U', rec q names U = Some (b', U') -> searched fs TrimSpace names q U b' U') ->
  (forall info, info ∈ children -> info ∈ GetChildrenWithComm fs TrimSpace p) ->
  scanChildren rec children names V = Some (b, V') ->
  V ⊆ V' /\
  (forall v, v ∈ V' -> v ∈ V \/ tc (named fs TrimSpace) p v) /\
  (b = true -> exists d, matching fs TrimSpace names p d) /\
  (b = false ->
   (forall info, info ∈ children ->
      PID info ∈ V' /\ matchesName (Comm info) names = false) /\
   forall v, v ∈ V' -> v ∉ V ->
     forall c, named fs TrimSpace v c -> c ∈ V' /\ matchesName (GetComm fs TrimSpace c) names = false).
Proof.
  intros Hrec. revert V.
  induction children as [|child children IH]; intros V Hin; cbn [scanChildren].
  - intros [= <- <-]. split; [done|]. split; [by left|]. split; [done|].
    intros _. split; [intros ? Hnil; by apply elem_of_nil in Hnil|]. tauto.
  - assert (Hchild : named fs TrimSpace p (PID child) /\ Comm child = GetComm fs TrimSpace (PID child)).
    { apply GetChildrenWithComm_spec, Hin. by left. }
    destruct Hchild as [Hnamed Hcomm].
    destruct (matchesName (Comm child) names) eqn:Hm.
    + intros [= <- <-]. split; [done|]. split; [by left|].
      split; [|done]. intros _. exists (PID child). split; [by apply tc_once|].
      by rewrite <- Hcomm.
    + destruct (rec (PID child) names V) as [[[] V1]|] eqn:Hcall; [| |done].
      * intros [= <- <-]. destruct (Hrec _ _ _ _ Hcall) as (Hsub & Hnew & Hyes & _).
        split; [done|]. split.
        { intros v Hv. destruct (Hnew v Hv) as [?|[ -> |?]]; [by left| |].
          - right. by apply tc_once.
          - right. by eapply tc_l. }
        split; [|done]. intros _. destruct (Hyes eq_refl) as (d & Hd & Hmd).
        exists d. split; [|done]. by eapply tc_l.
      * intros Hscan. destruct (Hrec _ _ _ _ Hcall) as (Hsub & Hnew & _ & Hno).
        destruct (Hno eq_refl) as [Hp Hclosed].
        destruct (IH V1 (fun info Hi => Hin info (proj2 (elem_of_cons _ _ _) (or_intror Hi)))
                    Hscan) as (Hsub' & Hnew' & Hyes' & Hno').
        split; [by etrans|]. split.
        { intros v Hv. destruct (Hnew' v Hv) as [Hv1|?]; [|by right].
          destruct (Hnew v Hv1) as [?|[ -> |?]]; [by left| |].
          - right. by apply tc_once.
          - right. by eapply tc_l. }
        split; [done|]. intros ->. destruct (Hno' eq_refl) as [Hall Hclosed'].
        split.
        { intros info [ -> |Hi]%elem_of_cons; [|by apply Hall].
          split; [exact (Hsub' _ Hp)|done]. }
        intros v Hv HvV c Hc. destruct (decide (v ∈ V1)) as [Hv1|Hv1].
        -- destruct (Hclosed v Hv1 HvV c Hc) as [Hc1 ?]. split; [exact (Hsub' _ Hc1)|done].
        -- by apply (Hclosed' v).
Qed.

Lemma HasDescendantMatching_sound fuel p V b V' :
  HasDescendantMatching fs TrimSpace fuel p names V = Some (b, V') -> searched fs TrimSpace names p V b V'.
Proof.
  revert p V b V'. induction fuel as [|fuel IH]; intros p V b V'; [done|].
  cbn [HasDescendantMatching]. case_bool_decide as Hvis.
  - intros [= <- <-]. split; [done|]. split; [by left|]. split; [done|].
    intros _. split; [done|]. tauto.
  - intros Hscan.
    destruct (scanChildren_sound _ p _ _ _ _ IH (fun _ Hi => Hi) Hscan)
      as (Hsub & Hnew & Hyes & Hno).
    split; [intros v Hv; apply Hsub, elem_of_union; by right|]. split.
    { intros v Hv. destruct (Hnew v Hv) as [[Hv'|?]%elem_of_union|?]; [|tauto|tauto].
      apply elem_of_singleton in Hv'. tauto. }
    split; [done|]. intros ->. destruct (Hno eq_refl) as [Hall Hclosed].
    split; [apply Hsub, elem_of_union; left; by apply elem_of_singleton|].
    intros v Hv HvV c Hc.
    destruct (decide (v = p)) as [ -> |Hne].
    + destruct (Hall _ (named_reported _ _ Hc)) as [? ?]. done.
    + apply (Hclosed v); [done| |done]. rewrite elem_of_union, elem_of_singleton. tauto.
Qed.

(** After a negative answer from an empty visited set, everything
    reached through named children is visited and does not match. *)
Lemma closed_no_match (V' : gset Z) :
  (forall v, v ∈ V' -> forall c, named fs TrimSpace v c ->
     c ∈ V' /\ matchesName (GetComm fs TrimSpace c) names = false) ->
  forall p d, tc (named fs TrimSpace) p d -> p ∈ V' ->
    d ∈ V' /\ matchesName (GetComm fs TrimSpace d) names = false.
Proof.
  intros Hclosed p d Htc. induction Htc as [p d Hpd|p c d Hpc _ IH]; intros Hp.
  - by apply (Hclosed p).
  - apply IH. by apply (Hclosed p Hp c).
Qed.

Section Scope.
Variable scope : gset Z.
Hypothesis closed : forall p c, p ∈ scope -> named fs TrimSpace p c -> c ∈ scope.

Lemma scanChildren_returns rec p children V (n : nat) :
  (forall q U, q ∈ scope -> (size (scope ∖ U) <= n)%nat -> V ⊆ U ->
     exists b U', rec q names U = Some (b, U') /\ searched fs TrimSpace names q U b U') ->
  p ∈ scope ->
  (forall info, info ∈ children -> info ∈ GetChildrenWithComm fs TrimSpace p) ->
  (size (scope ∖ V) <= n)%nat ->
  exists b V', scanChildren rec children names V = Some (b, V').
Proof.
  intros Hrec Hp. revert V Hrec.
  induction children as [|child children IH]; intros V Hrec Hin Hsize; cbn [scanChildren].
  - by eexists _, _.
  - destruct (matchesName (Comm child) names); [by eexists _, _|].
    assert (Hc : PID child ∈ scope).
    { apply (closed p); [done|]. apply GetChildrenWithComm_spec, Hin. by left. }
    destruct (Hrec (PID child) V Hc Hsize) as (b & V1 & -> & Hsub & _); [done|].
    destruct b; [by eexists _, _|].
    apply IH.
    + intros q U Hq HU HVU. apply Hrec; [done|done|by etrans].
    + intros info Hi. apply Hin. by right.
    + etrans; [|exact Hsize]. apply subseteq_size.
      intros v [Hv Hn]%elem_of_difference. apply elem_of_difference.
      split; [done|]. intros HvV. apply Hn. exact (Hsub _ HvV).
Qed.

(** X3. [HasDescendantMatching] returns on every finite process table,
    cyclic or not: once a scope of PIDs is closed under the named
    children, the calls never nest deeper than the number of PIDs of the
    scope that are not yet visited, plus one. *)
Theorem HasDescendantMatching_terminates fuel p V :
  p ∈ scope -> (size (scope ∖ V) < fuel)%nat ->
  exists b V', HasDescendantMatching fs TrimSpace fuel p names V = Some (b, V').
Proof.
  revert p V. induction fuel as [|fuel IH]; intros p V Hp Hsize; [lia|].
  cbn [HasDescendantMatching]. case_bool_decide as Hvis; [by eexists _, _|].
  apply (scanChildren_returns _ p _ _ (fuel - 1)); [|done|done|].
  - intros q U Hq HU _.
    destruct (IH q U Hq) as (b & U' & Hcall); [|].
    { assert (size (scope ∖ V) <> 0)%nat; [|lia].
      apply size_non_empty_iff. intros Hempty.
      apply (not_elem_of_empty (C:=gset Z) p). rewrite <- Hempty.
      by apply elem_of_difference. }
    exists b, U'. split; [done|]. by eapply HasDescendantMatching_sound.
  - assert (Hlt : (size (scope ∖ ({[p]} ∪ V)) < size (scope ∖ V))%nat).
    { apply subset_size. split.
      - intros v [Hv Hn]%elem_of_difference. apply elem_of_difference.
        split; [done|]. intros HvV. apply Hn, elem_of_union. by right.
      - intros Hsub. assert (Hin : p ∈ scope ∖ V) by by apply elem_of_difference.
        apply Hsub, elem_of_difference in Hin as [_ Hn].
        apply Hn, elem_of_union. left. by apply elem_of_singleton. }
    lia.
Qed.

End Scope.

(** X4. Called with an empty visited map, [HasDescendantMatching]
    answers true exactly when some process reached from the root through
    named children carries one of the names (the root's own name is
    never looked at), and it visits only the root and such processes. *)
Theorem HasDescendantMatching_exact fuel root b V' :
  HasDescendantMatching fs TrimSpace fuel root names ∅ = Some (b, V') ->
  (b = true <-> exists d, matching fs TrimSpace names root d) /\
  (forall v, v ∈ V' -> v = root \/ tc (named fs TrimSpace) root v).
Proof.
  intros Hcall. apply HasDescendantMatching_sound in Hcall as (_ & Hnew & Hyes & Hno).
  split.
  - split; [done|]. intros (d & Hd & Hm). destruct b; [done|].
    destruct (Hno eq_refl) as [Hroot Hclosed].
    assert (Hall : forall v, v ∈ V' -> forall c, named fs TrimSpace v c ->
              c ∈ V' /\ matchesName (GetComm fs TrimSpace c) names = false).
    { intros v Hv. apply Hclosed; [done|]. apply not_elem_of_empty. }
    destruct (closed_no_match V' Hall root d Hd Hroot) as [_ Hmd]. congruence.
  - intros v Hv. destruct (Hnew v Hv) as [Hv0|?]; [|done].
    by apply elem_of_empty in Hv0.
Qed.

(** Below a root all of whose descendants have a name, the named
    children are the children. *)
Lemma named_below root (l : list Z) :
  (forall d, descendant fs root d -> d ∈ l) ->
  (forall d, d ∈ l -> GetComm fs TrimSpace d <> EmptyString) ->
  forall a d, a = root \/ descendant fs root a -> tc (child fs) a d -> tc (named fs TrimSpace) a d.
Proof.
  intros Hlisted Hnamed a d Ha Hpath. induction Hpath as [a d Hchild|a c d Hchild _ IH].
  - apply tc_once. split; [done|]. apply Hnamed, Hlisted.
    destruct Ha as [ -> |Ha]; [by apply tc_once|]. eapply tc_r; eauto.
  - assert (Hc : descendant fs root c).
    { destruct Ha as [ -> |Ha]; [by apply tc_once|]. eapply tc_r; eauto. }
    eapply tc_l; [|apply IH; by right]. split; [done|]. by apply Hnamed, Hlisted.
Qed.

(** X15. Where both return, [HasDescendantMatching] and
    [GetAllDescendants] agree on what is below a root: a positive answer
    is about a PID that the enumeration lists; and when every PID listed
    has a name that can be read, the answer is positive as soon as one of
    them carries one of the names. *)
Theorem match_is_a_listed_descendant fuel fuel' root l b V' :
  Proc.GetAllDescendants fs fuel root = Some l ->
  HasDescendantMatching fs TrimSpace fuel' root names ∅ = Some (b, V') ->
  (b = true -> exists d, d ∈ l /\ matchesName (GetComm fs TrimSpace d) names = true) /\
  ((forall d, d ∈ l -> GetComm fs TrimSpace d <> EmptyString) ->
   (exists d, d ∈ l /\ matchesName (GetComm fs TrimSpace d) names = true) -> b = true).
Proof.
  intros Hlist Hcall.
  apply HasDescendantMatching_sound in Hcall as (_ & _ & Hyes & Hno). split.
  - intros Hb. destruct (Hyes Hb) as (d & Hpath & Hm). exists d. split; [|done].
    apply (ProcFacts.descendant_listed fs root d) with (fuel := fuel); [|done].
    clear -Hpath. induction Hpath as [a d [Hchild _]|a c d [Hchild _] _ IH].
    + by apply tc_once.
    + by eapply tc_l.
  - intros Hnamed (d & Hd & Hm). destruct b; [done|]. exfalso.
    destruct (Hno eq_refl) as [Hroot Hclosed].
    assert (Hall : forall v, v ∈ V' -> forall c, named fs TrimSpace v c ->
              c ∈ V' /\ matchesName (GetComm fs TrimSpace c) names = false).
    { intros v Hv. apply Hclosed; [done|]. apply not_elem_of_empty. }
    assert (Hpath : tc (named fs TrimSpace) root d).
    { apply (named_below root l); [|done|by left|].
      - intros x Hx. by eapply ProcFacts.descendant_listed.
      - by eapply ProcFacts.listed_descendant. }
    destruct (closed_no_match V' Hall root d Hpath Hroot) as [_ Hmd]. congruence.
Qed.

End Search.

Lemma knot_closed p c :
  p ∈ (list_to_set [7; 8; 9] : gset Z) -> named (namedProcfs knot) trimSpaceASCII p c ->
  c ∈ (list_to_set [7; 8; 9] : gset Z).
Proof.
  rewrite !elem_of_list_to_set. intros Hp [Hc _]. unfold child in Hc.
  repeat (apply elem_of_cons in Hp as [ -> |Hp]); [| | |by apply elem_of_nil in Hp].
  - replace (Proc.GetChildren (namedProcfs knot) 7) with [7; 8] in Hc by (by vm_compute).
    repeat (apply elem_of_cons in Hc as [ -> |Hc]); [| |by apply elem_of_nil in Hc];
      repeat constructor.
  - replace (Proc.GetChildren (namedProcfs knot) 8) with [9] in Hc by (by vm_compute).
    repeat (apply elem_of_cons in Hc as [ -> |Hc]); [|by apply elem_of_nil in Hc];
      repeat constructor.
  - replace (Proc.GetChildren (namedProcfs knot) 9) with (@nil Z) in Hc by (by vm_compute).
    by apply elem_of_nil in Hc.
Qed.

Lemma HasDescendantMatching_terminates_witness :
  exists b V', HasDescendantMatching (namedProcfs knot) trimSpaceASCII 4 7 ["vim"] ∅ = Some (b, V').
Proof.
  apply (HasDescendantMatching_terminates (namedProcfs knot) trimSpaceASCII ["vim"]
           (list_to_set [7; 8; 9]) knot_closed).
  - apply elem_of_list_to_set. by left.
  - vm_compute. lia.
Defined.

Lemma HasDescendantMatching_exact_witness :
  (true = true <-> exists d, matching (namedProcfs knot) trimSpaceASCII ["vim"] 7 d) /\
  (forall v, v ∈ ({[7; 8]} : gset Z) -> v = 7 \/ tc (named (namedProcfs knot) trimSpaceASCII) 7 v).
Proof.
  apply (HasDescendantMatching_exact (namedProcfs knot) trimSpaceASCII ["vim"] 4 7 true). by vm_compute.
Defined.

(** X15 under the tmux server of the sample machine: the enumeration
    lists PID 13, whose name is [node]. *)
Lemma match_is_a_listed_descendant_witness :
  exists d, d ∈ [13; 12; 14; 11] /\
            matchesName (GetComm (namedProcfs (Sim.procs Sim.family)) trimSpaceASCII d) ["node"] = true.
Proof.
  refine (proj1 (match_is_a_listed_descendant (namedProcfs (Sim.procs Sim.family)) trimSpaceASCII
                   ["node"]
                   4 4 10 [13; 12; 14; 11] true {[10; 11; 12]} _ _) eq_refl);
    by vm_compute.
Defined.

End ProcTreeFacts.

(** * Properties of the orphan-session check *)

Module SessionFacts.
Import GoStrings OS Doctor Traces Sim.

Section Names.

Lemma SplitN_one s sep : SplitN s sep 1 = [s].
Proof. by destruct s. Qed.

(** A piece without hyphen, then a hyphen: [SplitN] cuts there while
    more than one piece is allowed. *)
Lemma SplitN_app piece rest n :
  Contains piece "-" = false ->
  SplitN (piece +:+ String "-" rest) "-" (S (S n)) = piece :: SplitN rest "-" (S n).
Proof.
  induction piece as [|c piece IH]; intros Hfree.
  - reflexivity.
  - rewrite DoctorFacts.Contains_hyphen in Hfree.
    apply orb_false_elim in Hfree as [Hc Hfree]. rewrite Ascii.eqb_sym in Hc.
    change (String c piece +:+ String "-" rest)
      with (String c (piece +:+ String "-" rest)).
    cbn [SplitN]. rewrite Hc. by rewrite (IH Hfree).
Qed.

(** Without a hyphen there is one piece. *)
Lemma SplitN_free piece n :
  Contains piece "-" = false -> SplitN piece "-" (S n) = [piece].
Proof.
  destruct n as [|n]; [by rewrite SplitN_one|].
  induction piece as [|c piece IH]; intros Hfree; [done|].
  rewrite DoctorFacts.Contains_hyphen in Hfree.
  apply orb_false_elim in Hfree as [Hc Hfree]. rewrite Ascii.eqb_sym in Hc.
  cbn [SplitN]. rewrite Hc. by rewrite (IH Hfree).
Qed.

(** X5. [isValidSession] reads a session name by position: apart from
    the mayor's and the deacon's session, a name [<head>-<rig>-<rest>]
    is valid exactly when the piece between the first and the second
    hyphen is a known rig, whatever the head and the rest are; a name
    with fewer than two hyphens is never valid. *)
Theorem isValidSession_by_position head rig rest validRigs mayorSession deaconSession :
  Contains head "-" = false -> Contains rig "-" = false ->
  let special sess :=
    negb (String.eqb mayorSession EmptyString) && String.eqb sess mayorSession
    || negb (String.eqb deaconSession EmptyString) && String.eqb sess deaconSession in
  isValidSession (head +:+ "-" +:+ rig +:+ "-" +:+ rest) validRigs mayorSession deaconSession
  = special (head +:+ "-" +:+ rig +:+ "-" +:+ rest) || rigFound validRigs rig /\
  isValidSession (head +:+ "-" +:+ rig) validRigs mayorSession deaconSession
  = special (head +:+ "-" +:+ rig) /\
  isValidSession head validRigs mayorSession deaconSession = special head.
Proof.
  intros Hhead Hrig special. unfold isValidSession. subst special. cbv beta.
  repeat split.
  - destruct (negb (mayorSession =? "") && _)%string; [done|].
    destruct (negb (deaconSession =? "") && _)%string; [done|]. cbn [orb].
    change (head +:+ "-" +:+ rig +:+ "-" +:+ rest)
      with (head +:+ String "-" (rig +:+ String "-" rest)).
    rewrite !SplitN_app, SplitN_one by done. cbn [length nth].
    change (Z.of_nat 3 <? 3) with false. cbv iota.
    destruct (rigFound validRigs rig); cbn [negb]; [|done].
    by destruct (_ || _).
  - destruct (negb (mayorSession =? "") && _)%string; [done|].
    destruct (negb (deaconSession =? "") && _)%string; [done|]. cbn [orb].
    change (head +:+ "-" +:+ rig) with (head +:+ String "-" rig).
    by rewrite SplitN_app, SplitN_free by done.
  - destruct (negb (mayorSession =? "") && _)%string; [done|].
    destruct (negb (deaconSession =? "") && _)%string; [done|]. cbn [orb].
    by rewrite SplitN_free by done.
Qed.

End Names.

(** X5 for the crew session of a rig with a hyphen: read by position,
    its rig is [my], which the town does not have. *)
Lemma isValidSession_by_position_witness :
  isValidSession "gt-my-rig-crew-joe" ["my-rig"] "hq-mayor" "hq-deacon" = false.
Proof.
  exact (proj1 (isValidSession_by_position "gt" "my" "rig-crew-joe" ["my-rig"]
                  "hq-mayor" "hq-deacon" eq_refl eq_refl)).
Defined.

Section Run.
Context {W : Type} `{Tmux W}.

Lemma classify_filter sessions validRigs mayorSession deaconSession orphans validCount :
  fst (classify sessions validRigs mayorSession deaconSession orphans validCount)
  = orphans ++ filter (orphaned validRigs mayorSession deaconSession) sessions.
Proof.
  revert orphans validCount.
  induction sessions as [|sess sessions IH]; intros orphans validCount; cbn [classify].
  - by rewrite app_nil_r.
  - destruct (String.eqb_spec sess EmptyString) as [Hempty|Hempty].
    { rewrite IH, filter_cons_False; [done|]. by intros [? _]. }
    destruct (HasPrefix sess "gt-") eqn:Hgt; cbn [negb].
    2:{ rewrite IH, filter_cons_False; [done|]. intros (_ & ? & _). congruence. }
    destruct (isValidSession sess validRigs mayorSession deaconSession) eqn:Hvalid.
    { rewrite IH, filter_cons_False; [done|]. intros (_ & _ & ?). congruence. }
    rewrite IH, filter_cons_True by done. by rewrite <- app_assoc.
Qed.

(** X6. [OrphanSessionCheck.Run] caches exactly the listed sessions that
    are not empty, start with [gt-] and are not valid, in listing order,
    and warns exactly when there is one; when the listing fails or is
    empty the cache keeps what an earlier run left in it. *)
Theorem RunSessions_caches (c : OrphanSessionCheck) validRigs mayorSession deaconSession
    (w : W) :
  let sessions := fst (ListSessions w) in
  let run := RunSessions c validRigs mayorSession deaconSession w in
  (snd (ListSessions w) <> None \/ sessions = [] -> snd run = c) /\
  (snd (ListSessions w) = None /\ sessions <> [] ->
   orphanSessions (snd run) = filter (orphaned validRigs mayorSession deaconSession) sessions /\
   (Status (fst run) = StatusOK <-> orphanSessions (snd run) = []) /\
   Details (fst run) = (fun sess => "Orphan: " +:+ sess) <$> orphanSessions (snd run)).
Proof.
  cbv zeta. unfold RunSessions. destruct (ListSessions w) as [sessions [e|]]; cbn [fst snd].
  - split; [done|]. by intros [? _].
  - destruct sessions as [|sess sessions].
    + split; [done|]. by intros [_ ?].
    + split; [intros [?|?]; done|]. intros _.
      pose proof (classify_filter (sess :: sessions) validRigs mayorSession deaconSession
                    [] 0) as Hfilter.
      destruct (classify (sess :: sessions) _ _ _ [] 0) as [orphans validCount].
      cbn [fst app] in Hfilter. subst orphans.
      destruct (filter _ (sess :: sessions)) as [|o os]; cbn; [done|].
      repeat split; done.
Qed.

Lemma fixSession_record st sess :
  sessActions (fixSession st sess)
  = sessActions st ++
    (if isCrewSession sess then []
     else [LoggedDeath sess;
           IssuedKill sess
             (fst (KillSession sess
                     (LogSessionDeath sess "unknown" "orphan cleanup" "gt doctor"
                        (sessWorld st))))]).
Proof.
  unfold fixSession. destruct (isCrewSession sess); [by rewrite app_nil_r|].
  by destruct (KillSession sess _).
Qed.

Lemma paired_app l1 l2 : paired l1 -> paired l2 -> paired (l1 ++ l2).
Proof. induction 1; [done|]. intros. cbn. constructor. auto. Qed.

Lemma killsIssued_app l1 l2 : killsIssued (l1 ++ l2) = killsIssued l1 ++ killsIssued l2.
Proof. apply omap_app. Qed.

Lemma fold_fixSession_record orphans st :
  paired (sessActions st) ->
  let st' := fold_left fixSession orphans st in
  paired (sessActions st') /\
  killsIssued (sessActions st')
  = killsIssued (sessActions st) ++ filter (fun sess => isCrewSession sess = false) orphans.
Proof.
  revert st. induction orphans as [|sess orphans IH]; intros st Hst; cbn [fold_left].
  - by rewrite app_nil_r.
  - cbv zeta. destruct (IH (fixSession st sess)) as [Hp Hk].
    { rewrite fixSession_record. apply paired_app; [done|].
      destruct (isCrewSession sess); repeat constructor. }
    split; [done|]. rewrite Hk, fixSession_record, killsIssued_app.
    destruct (isCrewSession sess) eqn:Hcrew; cbn [killsIssued omap].
    + rewrite filter_cons_False by congruence. by rewrite app_nil_r.
    + rewrite filter_cons_True by done. by rewrite <- app_assoc.
Qed.

Lemma paired_before actions :
  paired actions ->
  deathsLogged actions = killsIssued actions /\
  forall before sess err after,
    actions = before ++ IssuedKill sess err :: after ->
    exists before', before = before' ++ [LoggedDeath sess].
Proof.
  induction 1 as [|sess err actions Hp [IHd IHk]]; split.
  - done.
  - intros [|??] ???; discriminate.
  - change (deathsLogged (LoggedDeath sess :: IssuedKill sess err :: actions))
      with (sess :: deathsLogged actions).
    change (killsIssued (LoggedDeath sess :: IssuedKill sess err :: actions))
      with (sess :: killsIssued actions).
    by rewrite IHd.
  - intros before victim e after Heq.
    destruct before as [|a [|b before]]; cbn in Heq.
    + discriminate.
    + injection Heq as Ha Hs _ _. subst a victim. by exists [].
    + injection Heq as Ha Hb Heq. subst a b.
      destruct (IHk _ _ _ _ Heq) as [before' Hbefore]. subst before.
      by exists (LoggedDeath sess :: IssuedKill sess err :: before').
Qed.

(** X7. [OrphanSessionCheck.Fix] issues a kill for exactly the cached
    sessions that are not crew sessions, once each and in cache order,
    and nothing else; right before every kill it has logged the death
    of that session, whether or not the kill then succeeds. *)
Theorem FixSessions_kills_the_cached (c : OrphanSessionCheck) (w : W) :
  let actions := sessActions (snd (FixSessions c w)) in
  killsIssued actions = filter (fun sess => isCrewSession sess = false) (orphanSessions c) /\
  deathsLogged actions = killsIssued actions /\
  forall before sess err after,
    actions = before ++ IssuedKill sess err :: after ->
    exists before', before = before' ++ [LoggedDeath sess].
Proof.
  cbv zeta.
  assert (Hfold : sessActions (snd (FixSessions c w))
                  = sessActions (fold_left fixSession (orphanSessions c)
                       {| sessLastErr := None; sessActions := []; sessWorld := w |})).
  { unfold FixSessions. by destruct (orphanSessions c). }
  rewrite Hfold.
  destruct (fold_fixSession_record (orphanSessions c)
              {| sessLastErr := None; sessActions := []; sessWorld := w |} paired_nil)
    as [Hp Hk].
  split; [exact Hk|]. by apply paired_before.
Qed.

(** X21. [Run] and then [Fix], taken together: when the sessions were
    listed, the pass kills exactly the listed sessions that are not
    empty, start with [gt-], are not valid and are not crew sessions, in
    listing order, whatever happened to the machine in between.  So it
    kills no session of another prefix, none of a known rig, and neither
    the mayor's nor the deacon's session. *)
Theorem Fix_after_Run_kills_the_orphans (c : OrphanSessionCheck)
    validRigs mayorSession deaconSession (w w' : W) :
  snd (ListSessions w) = None -> fst (ListSessions w) <> [] ->
  killsIssued (sessActions (snd (FixSessions
    (snd (RunSessions c validRigs mayorSession deaconSession w)) w')))
  = filter (fun sess => isCrewSession sess = false /\
                        orphaned validRigs mayorSession deaconSession sess)
      (fst (ListSessions w)).
Proof.
  intros Hlisted Hsome.
  assert (Hcached : orphanSessions (snd (RunSessions c validRigs mayorSession
                                           deaconSession w))
                    = filter (orphaned validRigs mayorSession deaconSession)
                        (fst (ListSessions w))).
  { unfold RunSessions. destruct (ListSessions w) as [sessions err].
    cbn [fst snd] in *. subst err. destruct sessions as [|sess sessions]; [done|].
    pose proof (classify_filter (sess :: sessions) validRigs mayorSession deaconSession
                  [] 0) as Hfilter.
    destruct (classify (sess :: sessions) _ _ _ [] 0) as [orphans validCount].
    cbn [fst app] in Hfilter. subst orphans.
    by destruct (filter _ (sess :: sessions)). }
  set (cached := snd (RunSessions c validRigs mayorSession deaconSession w)) in *.
  assert (Hfold : sessActions (snd (FixSessions cached w'))
                  = sessActions (fold_left fixSession (orphanSessions cached)
                       {| sessLastErr := None; sessActions := []; sessWorld := w' |})).
  { unfold FixSessions. by destruct (orphanSessions cached). }
  rewrite Hfold.
  destruct (fold_fixSession_record (orphanSessions cached)
              {| sessLastErr := None; sessActions := []; sessWorld := w' |} paired_nil)
    as [_ Hk].
  rewrite Hk, Hcached. cbn [sessActions killsIssued omap app].
  apply list_filter_filter.
Qed.

End Run.

(** X21 in the sample town, whose only rig is [my-rig]: the crew session
    of the rig [gongshow] is spared for its name, the mayor's session is
    valid, and the session read as one of a rig [my] is killed. *)
Lemma Fix_after_Run_kills_the_orphans_witness :
  killsIssued (sessActions (snd (FixSessions cachedInTown town))) = ["gt-my-rig-crew-joe"].
Proof.
  unfold cachedInTown.
  rewrite (Fix_after_Run_kills_the_orphans {| orphanSessions := [] |} ["my-rig"]
             "hq-mayor" "hq-deacon" town town); [by vm_compute|reflexivity|done].
Defined.

End SessionFacts.

(** * Properties of the orphan-process check *)

Module ProcessFacts.
Import GoStrings OS Doctor Notions Traces Sim.

Section Signals.
Context {W : Type} `{Kernel W} `{ProcessLister W}.

Lemma probed_app l1 l2 : probed l1 -> probed l2 -> probed (l1 ++ l2).
Proof.
  intros H1 H2. induction H1; cbn [app]; [done| | |].
  - by apply probed_refused.
  - by apply probed_only.
  - by apply probed_term.
Qed.

(** In a disciplined record every SIGTERM stands right after an
    accepted probe of the same PID, and no other signal occurs. *)
Lemma probed_discipline calls :
  probed calls ->
  (forall target sig err, (target, sig, err) ∈ calls -> sig = 0 \/ sig = SIGTERM) /\
  (forall before target err after,
     calls = before ++ (target, SIGTERM, err) :: after ->
     exists before', before = before' ++ [(target, 0, None)]).
Proof.
  induction 1 as [|t e calls Hp [IHs IHb]|t calls Hp [IHs IHb]|t err0 calls Hp [IHs IHb]];
    split.
  - intros ??? Hnil. by apply elem_of_nil in Hnil.
  - intros [|??] ???; discriminate.
  - intros target sig err [Heq|Hin]%elem_of_cons; [|by eapply IHs].
    injection Heq as _ -> _. by left.
  - intros [|a before] target err after Heq; cbn in Heq; [discriminate|].
    injection Heq as <- Heq. destruct (IHb _ _ _ _ Heq) as [before' ->].
    by exists ((t, 0, Some e) :: before').
  - intros target sig err [Heq|Hin]%elem_of_cons; [|by eapply IHs].
    injection Heq as _ -> _. by left.
  - intros [|a before] target err after Heq; cbn in Heq; [discriminate|].
    injection Heq as <- Heq. destruct (IHb _ _ _ _ Heq) as [before' ->].
    by exists ((t, 0, None) :: before').
  - intros target sig err [Heq|[Heq|Hin]%elem_of_cons]%elem_of_cons; [| |by eapply IHs].
    + injection Heq as _ -> _. by left.
    + injection Heq as _ -> _. by right.
  - intros [|a [|b before]] target err after Heq; cbn in Heq.
    + discriminate.
    + injection Heq as <- <- _ _. by exists [].
    + injection Heq as <- <- Heq. destruct (IHb _ _ _ _ Heq) as [before' ->].
      by exists ((t, 0, None) :: (t, SIGTERM, err0) :: before').
Qed.

(** One iteration adds a disciplined record about its candidate and at
    most one to the counters. *)
Lemma fixProcess_record dry reg (st : ProcessFix W) proc :
  exists calls,
    signals (fixProcess dry reg st proc) = signals st ++ calls /\
    probed calls /\
    (forall target sig err, (target, sig, err) ∈ calls -> target = pid proc) /\
    killed st <= killed (fixProcess dry reg st proc) /\
    skipped st <= skipped (fixProcess dry reg st proc) /\
    killed (fixProcess dry reg st proc) + skipped (fixProcess dry reg st proc)
    <= killed st + skipped st + 1.
Proof.
  assert (Hone : forall (target t : Z) (sig s : Signal) (err e : option Errno),
            (target, sig, err) ∈ [(t, s, e)] -> target = t).
  { intros ?????? Hin%list_elem_of_singleton. by injection Hin. }
  unfold fixProcess. destruct (isOrphanProcess proc reg (world st)); cbn [negb].
  2:{ exists []. cbn [signals killed skipped]. rewrite app_nil_r.
      repeat split; [constructor| |lia..]. intros ??? Hnil. by apply elem_of_nil in Hnil. }
  destruct (Kill (pid proc) 0 (world st)) as [[e|] w1].
  { eexists. cbn [signals killed skipped]. split; [done|].
    repeat split; [repeat constructor| |lia..]. intros ??? Hin. by eapply Hone. }
  destruct dry.
  { eexists. cbn [signals killed skipped]. split; [done|].
    repeat split; [repeat constructor| |lia..]. intros ??? Hin. by eapply Hone. }
  destruct (Kill (pid proc) SIGTERM w1) as [[e|] w2].
  all: eexists; cbn [signals killed skipped]; (split; [done|]);
    repeat split; [apply probed_term; constructor| |lia..];
    intros ??? [Heq|Hin%list_elem_of_singleton]%elem_of_cons; congruence.
Qed.

(** What the loop keeps true of its state over the candidates
    [orphans]: the record is disciplined and names candidates only, the
    counters are not negative and count at most one per candidate
    seen. *)
Lemma fixLoop_keeps dry reg (cache orphans : list processInfo) (st : ProcessFix W) n :
  (forall proc, proc ∈ orphans -> proc ∈ cache) ->
  probed (signals st) ->
  (forall target sig err, (target, sig, err) ∈ signals st ->
     exists proc, proc ∈ cache /\ pid proc = target) ->
  0 <= killed st -> 0 <= skipped st -> killed st + skipped st <= n ->
  let st' := fixLoop dry reg orphans st in
  probed (signals st') /\
  (forall target sig err, (target, sig, err) ∈ signals st' ->
     exists proc, proc ∈ cache /\ pid proc = target) /\
  0 <= killed st' /\ 0 <= skipped st' /\
  killed st' + skipped st' <= n + Z.of_nat (length orphans).
Proof.
  revert st n. induction orphans as [|proc orphans IH]; intros st n Hsub Hp Hc Hk Hs Hn.
  - cbn. repeat split; try done. lia.
  - cbv zeta. unfold fixLoop. cbn [fold_left].
    fold (fixLoop dry reg orphans (fixProcess dry reg st proc)).
    destruct (fixProcess_record dry reg st proc) as (calls & Hcalls & Hpc & Hpid & ? & ? & ?).
    replace (n + Z.of_nat (length (proc :: orphans)))
      with ((n + 1) + Z.of_nat (length orphans)) by (cbn [length]; lia).
    apply IH; try lia.
    + intros q Hq. apply Hsub. by right.
    + rewrite Hcalls. by apply probed_app.
    + rewrite Hcalls. intros target sig err [Hin|Hin]%elem_of_app; [by eapply Hc|].
      exists proc. split; [apply Hsub; by left|]. symmetry. by eapply Hpid.
Qed.

(** X8. Whatever the cache, the mode and the machine, [Fix] calls
    [syscallKill] on PIDs of cached candidates only and with signal 0 or
    SIGTERM only; every SIGTERM comes right after a probe of the same
    PID that was accepted; and the two counters together never exceed
    the number of cached candidates. *)
Theorem FixProcesses_signals (c : OrphanProcessCheck) (ctx : CheckContext) (w : W) :
  let st := snd (FixProcesses c ctx w) in
  (forall target sig err, (target, sig, err) ∈ signals st ->
     (sig = 0 \/ sig = SIGTERM) /\
     exists proc, proc ∈ orphanProcesses c /\ pid proc = target) /\
  (forall before target err after,
     signals st = before ++ (target, SIGTERM, err) :: after ->
     exists before', before = before' ++ [(target, 0, None)]) /\
  0 <= killed st /\ 0 <= skipped st /\
  killed st + skipped st <= Z.of_nat (length (orphanProcesses c)).
Proof.
  cbv zeta.
  assert (Hloop : exists st,
            signals (snd (FixProcesses c ctx w)) = signals st /\
            killed (snd (FixProcesses c ctx w)) = killed st /\
            skipped (snd (FixProcesses c ctx w)) = skipped st /\
            (st = startFix w \/
             exists dry reg, st = fixLoop dry reg (orphanProcesses c) (startFix w))).
  { unfold FixProcesses. destruct (orphanProcesses c) as [|proc orphans] eqn:Ec.
    { exists (startFix w). repeat split. by left. }
    destruct (ListPanePIDs w) as [panes [e|]].
    { exists (startFix w). repeat split. by left. }
    exists (fixLoop (DryRun ctx) (freshPanePIDSet panes w) (proc :: orphans) (startFix w)).
    split; [|split; [|split; [|right; by eexists _, _]]].
    all: destruct (DryRun ctx); [by destruct (0 <? _)|];
      destruct (lastErr _); [|done]; by destruct (_ =? 0). }
  destruct Hloop as (st & -> & -> & -> & Hst).
  assert (Hkeeps : probed (signals st) /\
            (forall target sig err, (target, sig, err) ∈ signals st ->
               exists proc, proc ∈ orphanProcesses c /\ pid proc = target) /\
            0 <= killed st /\ 0 <= skipped st /\
            killed st + skipped st <= 0 + Z.of_nat (length (orphanProcesses c))).
  { destruct Hst as [->|(dry & reg & ->)].
    - cbn. repeat split; [constructor| |lia..]. intros ??? Hnil. by apply elem_of_nil in Hnil.
    - apply fixLoop_keeps; cbn; try done; [constructor|].
      intros ??? Hnil. by apply elem_of_nil in Hnil. }
  destruct Hkeeps as (Hp & Hc & Hk & Hs & Hn).
  destruct (probed_discipline _ Hp) as [Hsig Hbefore].
  repeat split; try done; try lia.
  - by eapply Hsig.
  - by eapply Hc.
Qed.

(** The answer depends on the registry through its members only. *)
Lemma isOrphanProcess_ext proc (reg1 reg2 : gset Z) (w : W) :
  (forall a, a ∈ reg1 <-> a ∈ reg2) ->
  isOrphanProcess proc reg1 w = isOrphanProcess proc reg2 w.
Proof.
  intros Hext.
  pose proof (DoctorFacts.isOrphanProcess_answer proc reg1 w) as H1.
  pose proof (DoctorFacts.isOrphanProcess_answer proc reg2 w) as H2.
  destruct (isOrphanProcess proc reg1 w), (isOrphanProcess proc reg2 w); try done.
  - symmetry. apply H2. intros a Ha Hin. apply (proj1 H1 eq_refl a Ha). by apply Hext.
  - apply H1. intros a Ha Hin. apply (proj1 H2 eq_refl a Ha). by apply Hext.
Qed.

Lemma isOrphanProcess_empty proc (reg : gset Z) (w : W) :
  (forall a, a ∉ reg) -> isOrphanProcess proc reg w = true.
Proof. intros Hempty. apply DoctorFacts.isOrphanProcess_answer. intros a _. apply Hempty. Qed.

Lemma fixLoop_never_skips dry (reg : gset Z) orphans (st : ProcessFix W) :
  (forall a, a ∉ reg) -> skipped (fixLoop dry reg orphans st) = skipped st.
Proof.
  intros Hempty. revert st. induction orphans as [|proc orphans IH]; intros st; [done|].
  unfold fixLoop. cbn [fold_left].
  fold (fixLoop dry reg orphans (fixProcess dry reg st proc)). rewrite IH.
  unfold fixProcess. rewrite isOrphanProcess_empty by done. cbn [negb].
  destruct (Kill (pid proc) 0 (world st)) as [[e|] w1]; [done|].
  destruct dry; [done|]. by destruct (Kill (pid proc) SIGTERM w1) as [[e|] w2].
Qed.

(** X9. The registry of [Run] is empty when the tmux servers cannot be
    listed (the panes are then not even asked for) and when both
    listings come back empty.  Against an empty registry every process
    is an orphan: [Run] caches every runtime process it was given, and
    the re-check of [Fix] skips none of the candidates. *)
Theorem empty_registry_flags_everything (c : OrphanProcessCheck) (ctx : CheckContext)
    (w : W) :
  (snd (ListTmuxServerPIDs w) <> None \/
   (fst (ListTmuxServerPIDs w) = [] /\
    (snd (ListPanePIDs w) <> None \/ fst (ListPanePIDs w) = [])) ->
   getTmuxSessionPIDs w = ∅) /\
  (getTmuxSessionPIDs w = ∅ ->
   snd (ListRuntimeProcesses w) = None -> fst (ListRuntimeProcesses w) <> [] ->
   orphanProcesses (snd (RunProcesses c w)) = fst (ListRuntimeProcesses w)) /\
  (fst (ListPanePIDs w) = [] -> fst (ListTmuxServerPIDs w) = [] ->
   skipped (snd (FixProcesses c ctx w)) = 0).
Proof.
  split; [|split].
  - unfold getTmuxSessionPIDs.
    destruct (ListTmuxServerPIDs w) as [servers [e|]]; cbn [fst snd]; [done|].
    intros [?|[-> Hpanes]]; [done|].
    destruct (ListPanePIDs w) as [panes [e|]]; cbn [fst snd] in *; [done|].
    by destruct Hpanes as [?| ->].
  - intros Hreg Herr Hsome. unfold RunProcesses. rewrite Hreg.
    destruct (ListRuntimeProcesses w) as [procs err]. cbn [fst snd] in *. subst err.
    destruct procs as [|proc procs]; [done|].
    pose proof (DoctorFacts.classifyProcesses_filter (proc :: procs) ∅ w [] 0) as Hf.
    destruct (classifyProcesses (proc :: procs) ∅ w [] 0) as [outside inside].
    cbn [fst] in Hf. rewrite app_nil_l in Hf.
    assert (outside = proc :: procs) as ->; [|done].
    rewrite Hf. clear Hf. generalize (proc :: procs). intros l.
    induction l as [|p l IH]; [done|].
    rewrite filter_cons_True; [by rewrite IH|].
    apply isOrphanProcess_empty. intros a. apply not_elem_of_empty.
  - intros Hpanes Hservers. unfold FixProcesses.
    destruct (orphanProcesses c) as [|proc orphans]; [done|].
    destruct (ListPanePIDs w) as [panes [e|]]; [done|]. cbn [fst] in Hpanes. subst panes.
    unfold freshPanePIDSet. rewrite Hservers. cbn [addPIDs fold_left].
    assert (skipped (fixLoop (DryRun ctx) ∅ (proc :: orphans) (startFix w)) = 0) as Hskip.
    { rewrite fixLoop_never_skips; [done|]. intros a. apply not_elem_of_empty. }
    destruct (DryRun ctx); cbn [snd].
    + rewrite Hskip. done.
    + destruct (lastErr _); [|done]. by destruct (_ =? 0).
Qed.

(** A SIGTERM in the record of the loop was there before, or was sent
    to a candidate that passed both checks when its turn came. *)
Lemma fixLoop_terms_condemned dry reg orphans (st : ProcessFix W) target err :
  (target, SIGTERM, err) ∈ signals (fixLoop dry reg orphans st) ->
  (target, SIGTERM, err) ∈ signals st \/
  (dry = false /\
   exists pre proc post,
     orphans = pre ++ proc :: post /\ pid proc = target /\
     condemned reg (world (fixLoop dry reg pre st)) proc = true).
Proof.
  revert st. induction orphans as [|proc orphans IH]; intros st Hin; [by left|].
  unfold fixLoop in Hin. cbn [fold_left] in Hin.
  destruct (IH (fixProcess dry reg st proc) Hin)
    as [Hhere|(Hdry & pre & proc' & post & -> & Hpid & Hcond)].
  - destruct (DoctorFacts.fixProcess_cases dry reg st proc)
      as [[_ Hst]|[(_ & e & _ & Hst)|[Hcond Hst]]].
    + rewrite Hst in Hhere. by left.
    + rewrite Hst in Hhere. cbn [signals] in Hhere.
      apply elem_of_app in Hhere as [?|Hnew%list_elem_of_singleton]; [by left|].
      discriminate.
    + destruct dry.
      * rewrite Hst in Hhere. cbn [signals] in Hhere.
        apply elem_of_app in Hhere as [?|Hnew%list_elem_of_singleton]; [by left|].
        discriminate.
      * destruct Hst as (err2 & w2 & _ & Hst). rewrite Hst in Hhere.
        cbn [signals] in Hhere.
        apply elem_of_app in Hhere as [?|Hnew]; [by left|]. right. split; [done|].
        apply elem_of_cons in Hnew as [Hnew|Hnew%list_elem_of_singleton];
          [discriminate|]. injection Hnew as -> _.
        by exists [], proc, orphans.
  - right. split; [done|]. exists (proc :: pre), proc', post. by repeat split.
Qed.

(** X22. [Fix] sends a SIGTERM only in a real run, and only to a
    cached candidate that, in the world as it was when its turn came,
    accepted the probe and had neither a pane PID nor a server PID of
    the registry sampled by [Fix] in its lineage. *)
Theorem SIGTERM_only_after_both_checks (c : OrphanProcessCheck) (ctx : CheckContext)
    (w : W) target err :
  (target, SIGTERM, err) ∈ signals (snd (FixProcesses c ctx w)) ->
  DryRun ctx = false /\
  exists pre proc post,
    orphanProcesses c = pre ++ proc :: post /\ pid proc = target /\
    let now := world (fixLoop false (freshPanePIDSet (fst (ListPanePIDs w)) w) pre
                        (startFix w)) in
    fst (Kill target 0 now) = None /\
    forall a, a ∈ lineage maxAncestryDepth (startPPID proc now) now ->
      (a ∉ fst (ListPanePIDs w)) /\ (a ∉ fst (ListTmuxServerPIDs w)).
Proof.
  intros Hin.
  assert (Hloop : (target, SIGTERM, err)
                    ∈ signals (fixLoop (DryRun ctx)
                                 (freshPanePIDSet (fst (ListPanePIDs w)) w)
                                 (orphanProcesses c) (startFix w))).
  { unfold FixProcesses in Hin.
    destruct (orphanProcesses c) as [|proc orphans] eqn:Ec;
      [by apply elem_of_nil in Hin|].
    destruct (ListPanePIDs w) as [panes [e|]]; [by apply elem_of_nil in Hin|].
    cbn [fst]. destruct (DryRun ctx).
    - by destruct (0 <? _).
    - destruct (lastErr _); [|done]. by destruct (_ =? 0). }
  apply fixLoop_terms_condemned in Hloop
    as [Hnil|(Hdry & pre & proc & post & Hcache & Hpid & Hcond)];
    [by apply elem_of_nil in Hnil|].
  split; [done|]. exists pre, proc, post. rewrite Hdry in Hcond.
  split; [done|]. split; [done|]. cbv zeta.
  unfold condemned in Hcond. apply andb_prop in Hcond as [Horphan Hprobe].
  rewrite Hpid in Hprobe. split.
  - by destruct (fst (Kill target 0 _)).
  - intros a Ha.
    pose proof (proj1 (DoctorFacts.isOrphanProcess_answer _ _ _) Horphan a Ha) as Hout.
    rewrite DoctorFacts.freshPanePIDSet_spec in Hout. tauto.
Qed.

Section AfterRun.
(** The kernel delivers nothing for signal 0. *)
Hypothesis probe_only : forall pid (w : W), snd (Kill pid 0 w) = w.

(** X10. The registries of [Run] and of [Fix] hold the same PIDs when
    both listings succeed, so a dry run of [Fix] right after [Run], on
    the machine as [Run] saw it, skips none of the cached candidates: it
    counts those that accept the probe, and changes nothing. *)
Theorem dry_run_after_Run_skips_nothing (c : OrphanProcessCheck) (ctx : CheckContext)
    (w : W) :
  snd (ListTmuxServerPIDs w) = None -> snd (ListPanePIDs w) = None ->
  snd (ListRuntimeProcesses w) = None -> fst (ListRuntimeProcesses w) <> [] ->
  DryRun ctx = true ->
  let cached := orphanProcesses (snd (RunProcesses c w)) in
  let st := snd (FixProcesses (snd (RunProcesses c w)) ctx w) in
  (forall a, a ∈ getTmuxSessionPIDs w <-> a ∈ freshPanePIDSet (fst (ListPanePIDs w)) w) /\
  skipped st = 0 /\
  killed st
  = Z.of_nat (length (filter (fun p => fst (Kill (pid p) 0 w) = None) cached)) /\
  world st = w.
Proof.
  intros Hservers Hpanes Hlist Hsome Hdry. cbv zeta.
  assert (Hreg : forall a, a ∈ getTmuxSessionPIDs w
                           <-> a ∈ freshPanePIDSet (fst (ListPanePIDs w)) w).
  { intros a. rewrite DoctorFacts.freshPanePIDSet_spec. unfold getTmuxSessionPIDs.
    destruct (ListTmuxServerPIDs w) as [servers err1]. cbn [fst snd] in *. subst err1.
    destruct (ListPanePIDs w) as [panes err2]. cbn [fst snd] in *. subst err2.
    rewrite !DoctorFacts.addPIDs_spec. split; [intros [?|[?|Hempty]]|intros [?|?]]; try tauto.
    by apply not_elem_of_empty in Hempty. }
  split; [exact Hreg|].
  set (reg := freshPanePIDSet (fst (ListPanePIDs w)) w) in *.
  assert (Hcached : orphanProcesses (snd (RunProcesses c w))
                    = filter (fun p => isOrphanProcess p reg w = true)
                        (fst (ListRuntimeProcesses w))).
  { unfold RunProcesses.
    destruct (ListRuntimeProcesses w) as [procs err]. cbn [fst snd] in *. subst err.
    destruct procs as [|proc procs]; [done|].
    pose proof (DoctorFacts.classifyProcesses_filter (proc :: procs)
                  (getTmuxSessionPIDs w) w [] 0) as Hf.
    destruct (classifyProcesses (proc :: procs) (getTmuxSessionPIDs w) w [] 0)
      as [outside inside]. cbn [fst] in Hf. rewrite app_nil_l in Hf.
    transitivity outside; [by destruct outside|]. rewrite Hf.
    apply list_filter_iff. intros p. by rewrite (isOrphanProcess_ext p _ reg w Hreg). }
  destruct (DoctorFacts.FixProcesses_loop (snd (RunProcesses c w)) ctx w Hpanes)
    as (Hk0 & Hs0 & _ & Hw0). fold reg in Hk0, Hs0, Hw0. rewrite Hdry in Hk0, Hs0, Hw0.
  destruct (DoctorFacts.dry_loop_report probe_only reg
              (orphanProcesses (snd (RunProcesses c w))) (startFix w))
    as (Hw & Hk & Hs & _).
  rewrite <- Hk0 in Hk. rewrite <- Hs0 in Hs. rewrite <- Hw0 in Hw.
  cbn [startFix world killed skipped] in Hw, Hk, Hs. rewrite Z.add_0_l in Hk, Hs.
  split; [|split; [|exact Hw]].
  - rewrite Hs, Hcached.
    generalize (fst (ListRuntimeProcesses w)). intros l.
    induction l as [|p l IH]; [done|].
    destruct (isOrphanProcess p reg w) eqn:Hp.
    + rewrite (filter_cons_True (fun p => isOrphanProcess p reg w = true)) by done.
      rewrite filter_cons_False; [done|]. by rewrite Hp.
    + rewrite (filter_cons_False (fun p => isOrphanProcess p reg w = true)); [done|].
      by rewrite Hp.
  - rewrite Hk, Hcached. f_equal. f_equal.
    generalize (fst (ListRuntimeProcesses w)). intros l.
    induction l as [|p l IH]; [done|].
    destruct (isOrphanProcess p reg w) eqn:Hp.
    + rewrite (filter_cons_True (fun p => isOrphanProcess p reg w = true)) by done.
      destruct (fst (Kill (pid p) 0 w)) eqn:Hprobe.
      * rewrite (filter_cons_False (condemned reg w))
          by (unfold condemned; rewrite Hp, Hprobe; exact id).
        rewrite (filter_cons_False (fun p => fst (Kill (pid p) 0 w) = None))
          by (by rewrite Hprobe).
        exact IH.
      * rewrite (filter_cons_True (condemned reg w))
          by (unfold condemned; rewrite Hp, Hprobe; exact I).
        rewrite (filter_cons_True (fun p => fst (Kill (pid p) 0 w) = None)) by done.
        by rewrite IH.
    + rewrite (filter_cons_False (fun p => isOrphanProcess p reg w = true)); [done|].
      by rewrite Hp.
Qed.

End AfterRun.

End Signals.

(** X10 on the sample machine: [Run] caches PID 50, and the dry run that
    follows announces its kill and skips nothing. *)
Lemma dry_run_after_Run_skips_nothing_witness :
  skipped (snd (FixProcesses (snd (RunProcesses {| orphanProcesses := [] |} adopted))
                  {| TownRoot := "/gt"; DryRun := true |} adopted)) = 0 /\
  killed (snd (FixProcesses (snd (RunProcesses {| orphanProcesses := [] |} adopted))
                 {| TownRoot := "/gt"; DryRun := true |} adopted)) = 1.
Proof.
  destruct (dry_run_after_Run_skips_nothing ProcFacts.kill_probe {| orphanProcesses := [] |}
              {| TownRoot := "/gt"; DryRun := true |} adopted)
    as (_ & Hs & Hk & _); [reflexivity|reflexivity|reflexivity|by vm_compute|reflexivity|].
  split; [exact Hs|]. rewrite Hk. by vm_compute.
Defined.

(** X22 on the sample machine: the SIGTERM for PID 50, the first
    candidate, whose lineage is empty. *)
Lemma SIGTERM_only_after_both_checks_witness :
  exists pre proc post,
    [claude50; claude13] = pre ++ proc :: post /\ pid proc = 50 /\
    fst (Kill 50 0 (world (fixLoop false (freshPanePIDSet (fst (ListPanePIDs adopted)) adopted)
                             pre (startFix adopted)))) = None.
Proof.
  destruct (SIGTERM_only_after_both_checks {| orphanProcesses := [claude50; claude13] |}
              {| TownRoot := "/gt"; DryRun := false |} adopted 50 None)
    as (_ & pre & proc & post & Hcache & Hpid & Hprobe & _).
  - vm_compute. repeat constructor.
  - by exists pre, proc, post.
Defined.

(** X9 on the sample machine when the servers cannot be listed: [Run]
    caches PID 13 too, which runs inside a pane. *)
Example Run_without_the_server_listing :
  orphanProcesses (snd (RunProcesses (H0 := serverless) {| orphanProcesses := [] |} adopted))
  = [claude13_now; claude50].
Proof. by vm_compute. Qed.

End ProcessFacts.

(** * Properties of the stop passes and of the health check *)

Module StopFacts.
Import GoStrings OS Tracing Sim.

Section Recorded.
Context {W : Type} `{Kernel W}.

(** On the recording kernel [SignalAll] does what it does on the plain
    one, and writes down one call for each PID, in order. *)
Lemma SignalAll_traced pids sig sent (w : W) log :
  Proc.SignalAll pids sig sent (w, log)
  = (fst (Proc.SignalAll pids sig sent w),
     (snd (Proc.SignalAll pids sig sent w), log ++ kills sig pids)).
Proof.
  revert sent w log. induction pids as [|p pids IH]; intros sent w log.
  - cbn. by rewrite app_nil_r.
  - cbn [Proc.SignalAll Kill traced]. destruct (Kill p sig w) as [[e|] w'];
      rewrite IH; unfold kills; cbn [fmap list_fmap]; by rewrite <- app_assoc.
Qed.

Lemma CountByPattern_length fs pattern :
  Proc.CountByPattern fs pattern = Z.of_nat (length (Proc.FindByPattern fs pattern)).
Proof.
  unfold Proc.CountByPattern, Proc.FindByPattern.
  destruct (ReadDir fs "/proc") as [entries|]; [|reflexivity].
  pose proof (ProcFacts.countEntries_findEntries fs pattern entries 0 []) as E.
  cbn [length] in E. lia.
Qed.

(** X11. The system calls of a stop pass, in order.  With no matching
    process there is none.  A forced pass sends SIGKILL to the processes
    found and sleeps 100ms.  Otherwise the pass sends SIGTERM to the
    processes found, sleeps two seconds, sends SIGKILL to those it finds
    then (none when the count is zero), and sleeps 100ms.  Nothing else
    is signalled, and the counts and the final world are those of the
    pass on the plain kernel. *)
Theorem stop_pass_calls force (w : W) :
  let daemons := Proc.FindByPattern (files w) "bd daemon" in
  let later := Sleep Beads.gracefulTimeout (snd (Proc.SignalAll daemons SIGTERM 0 w)) in
  Beads.stopBdDaemons force (w, [])
  = (fst (Beads.stopBdDaemons force w),
     (snd (Beads.stopBdDaemons force w),
      if Beads.CountBdDaemons w =? 0 then []
      else if force then kills SIGKILL daemons ++ [Slept (100 * Beads.millisecond)]
      else kills SIGTERM daemons ++ [Slept Beads.gracefulTimeout]
           ++ (if 0 <? Beads.CountBdDaemons later
               then kills SIGKILL (Proc.FindByPattern (files later) "bd daemon") else [])
           ++ [Slept (100 * Beads.millisecond)])) /\
  let activity := Proc.FindByPattern (files w) "bd activity" in
  let later := Sleep Beads.gracefulTimeout (snd (Proc.SignalAll activity SIGTERM 0 w)) in
  Beads.stopBdActivityProcesses force (w, [])
  = (fst (Beads.stopBdActivityProcesses force w),
     (snd (Beads.stopBdActivityProcesses force w),
      if Beads.CountBdActivityProcesses w =? 0 then []
      else if force then kills SIGKILL activity ++ [Slept (100 * Beads.millisecond)]
      else kills SIGTERM activity ++ [Slept Beads.gracefulTimeout]
           ++ (if 0 <? Beads.CountBdActivityProcesses later
               then kills SIGKILL (Proc.FindByPattern (files later) "bd activity") else [])
           ++ [Slept (100 * Beads.millisecond)])).
Proof.
  cbv zeta. split.
  - unfold Beads.stopBdDaemons.
    change (Beads.CountBdDaemons (w, [])) with (Beads.CountBdDaemons w).
    destruct (Beads.CountBdDaemons w =? 0); [done|].
    change (files (w, [])) with (files w).
    destruct force.
    + rewrite SignalAll_traced. cbn [snd fst Sleep traced app]. done.
    + rewrite SignalAll_traced. cbn [snd fst Sleep traced app].
      set (later := Sleep Beads.gracefulTimeout _).
      change (Beads.CountBdDaemons (later, ?l)) with (Beads.CountBdDaemons later).
      destruct (0 <? Beads.CountBdDaemons later).
      * change (files (later, ?l)) with (files later). rewrite SignalAll_traced.
        cbn [snd fst Sleep traced app]. by rewrite <- !app_assoc.
      * cbn [snd fst Sleep traced app]. by rewrite <- !app_assoc.
  - unfold Beads.stopBdActivityProcesses.
    change (Beads.CountBdActivityProcesses (w, [])) with (Beads.CountBdActivityProcesses w).
    destruct (Beads.CountBdActivityProcesses w =? 0); [done|].
    change (files (w, [])) with (files w).
    destruct force.
    + rewrite SignalAll_traced. cbn [snd fst Sleep traced app]. done.
    + rewrite SignalAll_traced. cbn [snd fst Sleep traced app].
      set (later := Sleep Beads.gracefulTimeout _).
      change (Beads.CountBdActivityProcesses (later, ?l))
        with (Beads.CountBdActivityProcesses later).
      destruct (0 <? Beads.CountBdActivityProcesses later).
      * change (files (later, ?l)) with (files later). rewrite SignalAll_traced.
        cbn [snd fst Sleep traced app]. by rewrite <- !app_assoc.
      * cbn [snd fst Sleep traced app]. by rewrite <- !app_assoc.
Qed.

Lemma stop_passes_never_negative force (w : W) :
  0 <= fst (fst (Beads.stopBdDaemons force w)) /\
  0 <= fst (fst (Beads.stopBdActivityProcesses force w)) /\
  snd (fst (Beads.stopBdDaemons force w))
  = Beads.CountBdDaemons (snd (Beads.stopBdDaemons force w)) /\
  snd (fst (Beads.stopBdActivityProcesses force w))
  = Beads.CountBdActivityProcesses (snd (Beads.stopBdActivityProcesses force w)).
Proof.
  unfold Beads.stopBdDaemons, Beads.stopBdActivityProcesses.
  destruct (Z.eqb_spec (Beads.CountBdDaemons w) 0) as [Hd|Hd],
    (Z.eqb_spec (Beads.CountBdActivityProcesses w) 0) as [Ha|Ha]; cbn [fst snd];
    rewrite ?Hd, ?Ha; repeat split; try lia;
    match goal with |- context [?a - ?b <? 0] => destruct (Z.ltb_spec (a - b) 0); lia end.
Qed.

Section StopAll.
(** [exec.LookPath("bd")], outside this code. *)
Variable LookPath : string -> W -> option GoError.

(** X12. [StopAllBdProcesses] touches nothing when [bd] is not
    installed or the run is dry: it returns zeros in the first case and
    the numbers of matching processes in the second, never an error.
    Otherwise it runs the daemon pass and then the activity pass; its
    counts are not negative, and it returns an error exactly when a bd
    daemon matched at the end of the first pass or a bd activity process
    at the end of the second. *)
Theorem StopAllBdProcesses_report dryRun force (w : W) :
  let stop := Beads.StopAllBdProcesses LookPath dryRun force w in
  (LookPath "bd" w <> None -> stop = ((0, 0, None), w)) /\
  (LookPath "bd" w = None /\ dryRun = true ->
   stop = ((Z.of_nat (length (Proc.FindByPattern (files w) "bd daemon")),
            Z.of_nat (length (Proc.FindByPattern (files w) "bd activity")), None), w)) /\
  (LookPath "bd" w = None /\ dryRun = false ->
   let w1 := snd (Beads.stopBdDaemons force w) in
   snd stop = snd (Beads.stopBdActivityProcesses force w1) /\
   0 <= fst (fst (fst stop)) /\ 0 <= snd (fst (fst stop)) /\
   (snd (fst stop) = None <->
    Proc.FindByPattern (files w1) "bd daemon" = [] /\
    Proc.FindByPattern (files (snd stop)) "bd activity" = [])).
Proof.
  cbv zeta. unfold Beads.StopAllBdProcesses.
  destruct (LookPath "bd" w) as [e|].
  { split; [done|]. split; by intros []. }
  split; [done|]. destruct dryRun.
  - split; [|by intros []]. intros _. unfold Beads.CountBdDaemons, Beads.CountBdActivityProcesses.
    by rewrite !CountByPattern_length.
  - split; [by intros []|]. intros _.
    destruct (stop_passes_never_negative force w) as (Hdk & _ & Hdr & _).
    destruct (Beads.stopBdDaemons force w) as [[dk dr] w1]. cbn [fst snd] in *.
    destruct (stop_passes_never_negative force w1) as (_ & Hak & _ & Har).
    destruct (Beads.stopBdActivityProcesses force w1) as [[ak ar] w2]. cbn [fst snd] in *.
    assert (Hdaemons : dr = 0 <-> Proc.FindByPattern (files w1) "bd daemon" = []).
    { rewrite Hdr. unfold Beads.CountBdDaemons. rewrite CountByPattern_length.
      rewrite <- length_zero_iff_nil. lia. }
    assert (Hactivity : ar = 0 <-> Proc.FindByPattern (files w2) "bd activity" = []).
    { rewrite Har. unfold Beads.CountBdActivityProcesses. rewrite CountByPattern_length.
      rewrite <- length_zero_iff_nil. lia. }
    assert (0 <= dr).
    { rewrite Hdr. unfold Beads.CountBdDaemons. rewrite CountByPattern_length. lia. }
    assert (0 <= ar).
    { rewrite Har. unfold Beads.CountBdActivityProcesses. rewrite CountByPattern_length. lia. }
    destruct (Z.ltb_spec 0 dr); cbn [fst snd].
    { repeat split; try done. intros [Hd _]. apply Hdaemons in Hd. lia. }
    destruct (Z.ltb_spec 0 ar); cbn [fst snd].
    { repeat split; try done. intros [_ Ha]. apply Hactivity in Ha. lia. }
    repeat split; try done.
    + apply Hdaemons. lia.
    + apply Hactivity. lia.
Qed.

End StopAll.

End Recorded.

(** X12 on the sample machine with the daemon that starts two more:
    the pass counts no kill and reports what remains. *)
Example StopAllBdProcesses_on_respawning_daemons :
  fst (Beads.StopAllBdProcesses (fun _ _ => None) false false respawning)
  = (0, 0, Some (ErrorString "bd daemon shutdown incomplete: 2 still running")).
Proof. by vm_compute. Qed.

End StopFacts.

Module HealthFacts.
Import GoStrings OS Tracing BeadsHealth Sim.

Section Ensure.
Context {W : Type} `{Kernel W}.
Variable RunHealth : W -> (string * option GoError) * W.
Variable Unmarshal : string -> BdDaemonHealth + GoError.

(** A status that makes [EnsureBdDaemonHealth] restart the daemons. *)
Lemma anyNeedsRestart_spec daemons needsRestart :
  anyNeedsRestart daemons needsRestart = true <->
  needsRestart = true \/
  exists d, d ∈ daemons /\ Status d ∈ ["version_mismatch"; "stale"; "unresponsive"].
Proof.
  revert needsRestart. induction daemons as [|d daemons IH]; intros needsRestart;
    cbn [anyNeedsRestart].
  - split; [by left|]. intros [?|(d & Hd & _)]; [done|]. by apply elem_of_nil in Hd.
  - assert (Hthree : String.eqb (Status d) "version_mismatch"
                     || String.eqb (Status d) "stale"
                     || String.eqb (Status d) "unresponsive" = true
                     <-> Status d ∈ ["version_mismatch"; "stale"; "unresponsive"]).
    { rewrite !orb_true_iff, !String.eqb_eq, !elem_of_cons, elem_of_nil. tauto. }
    destruct (String.eqb_spec (Status d) "healthy") as [Hh|Hh].
    + rewrite IH. split; (intros [?|(d' & Hd' & Hs)]; [by left|right]).
      * exists d'. split; [by right|done].
      * apply elem_of_cons in Hd' as [ -> |Hd']; [|by exists d'].
        rewrite Hh in Hs. exfalso. revert Hs.
        rewrite !elem_of_cons, elem_of_nil. intros [?|[?|[?|[]]]]; discriminate.
    + destruct (_ || _) eqn:Hs.
      * rewrite IH. split; [intros _|by left]. right. exists d.
        split; [by left|by apply Hthree].
      * rewrite IH. split; (intros [?|(d' & Hd' & Hs')]; [by left|right]).
        -- exists d'. split; [by right|done].
        -- apply elem_of_cons in Hd' as [ -> |Hd']; [|by exists d'].
           apply Hthree in Hs'. congruence.
Qed.

Lemma CheckBdDaemonHealth_traced (w : W) log :
  CheckBdDaemonHealth (untraced RunHealth) Unmarshal (w, log)
  = (fst (CheckBdDaemonHealth RunHealth Unmarshal w),
     (snd (CheckBdDaemonHealth RunHealth Unmarshal w), log)).
Proof.
  unfold CheckBdDaemonHealth, untraced. destruct (RunHealth w) as [[stdout [e|]] w']; [done|].
  by destruct (Unmarshal stdout).
Qed.

(** X13. [EnsureBdDaemonHealth] restarts the daemons exactly when the
    health report was read, its total is not zero and one of the daemons
    listed has the status version_mismatch, stale or unresponsive,
    whatever the counters of the report say.  The restart sends SIGTERM
    to the bd daemons found then and nothing else, then sleeps 200ms and
    500ms; the warning is empty, or says that the status is unknown, or
    gives counts of which the first is the smaller.  Without a restart
    nothing is signalled and the warning is empty. *)
Theorem EnsureBdDaemonHealth_restarts workDir (w : W) :
  let check := CheckBdDaemonHealth RunHealth Unmarshal w in
  let ensure := EnsureBdDaemonHealth (untraced RunHealth) Unmarshal workDir (w, []) in
  let unhealthy :=
    exists health d,
      fst check = (Some health, None) /\ Total health <> 0 /\
      d ∈ Daemons health /\ Status d ∈ ["version_mismatch"; "stale"; "unresponsive"] in
  (unhealthy ->
   snd (snd ensure)
   = kills SIGTERM (Proc.FindByPattern (files (snd check)) "bd daemon")
     ++ [Slept (200 * Beads.millisecond); Slept (500 * Beads.millisecond)] /\
   (fst ensure = EmptyString \/
    fst ensure = "bd daemons restarted but status unknown" \/
    exists healthy total,
      healthy < total /\
      fst ensure = "bd daemons partially healthy (" +:+ Itoa healthy +:+ "/"
                   +:+ Itoa total +:+ ")")) /\
  (~ unhealthy -> ensure = (EmptyString, (snd check, []))).
Proof.
  cbv zeta. unfold EnsureBdDaemonHealth. rewrite CheckBdDaemonHealth_traced.
  destruct (CheckBdDaemonHealth RunHealth Unmarshal w) as [[health err] w1].
  cbn [fst snd].
  destruct err as [e|].
  { split; [|done]. by intros (h & d & [= ] & _). }
  destruct health as [health|].
  2:{ split; [|done]. by intros (h & d & [= ] & _). }
  destruct (Z.eqb_spec (Total health) 0) as [Hzero|Hsome].
  { split; [|done]. intros (h & d & [= <-] & Hn & _). done. }
  destruct (anyNeedsRestart (Daemons health) false) eqn:Hneeds; cbn [negb].
  2:{ split; [|done]. intros (h & d & [= <-] & _ & Hd & Hs). exfalso.
      assert (anyNeedsRestart (Daemons health) false = true); [|congruence].
      apply anyNeedsRestart_spec. right. by exists d. }
  split.
  2:{ intros Hno. exfalso. apply Hno.
      apply anyNeedsRestart_spec in Hneeds as [?|(d & Hd & Hs)]; [done|].
      by exists health, d. }
  intros _. unfold restartBdDaemons. change (files (w1, [])) with (files w1).
  rewrite StopFacts.SignalAll_traced. cbn [fst snd Sleep traced app].
  rewrite CheckBdDaemonHealth_traced.
  destruct (CheckBdDaemonHealth RunHealth Unmarshal _) as [[newHealth err] w4].
  cbn [fst snd]. rewrite <- app_assoc. cbn [app].
  destruct err as [e|]; [split; [done|]; right; by left|].
  destruct newHealth as [newHealth|]; [|split; [done|]; right; by left].
  destruct (Z.ltb_spec (Healthy newHealth) (Total newHealth)); cbn [fst snd].
  - split; [done|]. right. right. by eexists _, _.
  - split; [done|]. by left.
Qed.

End Ensure.

(** X13 on the sample machine, whose one daemon is reported stale and
    is gone after the SIGTERM. *)
Example EnsureBdDaemonHealth_on_a_stale_daemon :
  let report := {| Total := 1; Healthy := 0; Stale := 1; Mismatched := 0; Unresponsive := 0;
                   Daemons := [{| Workspace := "/gt"; SocketPath := "/gt/.beads/bd.sock";
                                  PID := 14; Version := "0.1"; Status := "stale";
                                  Issue := EmptyString; VersionMismatch := false |}] |} in
  let ensure := EnsureBdDaemonHealth (untraced (fun w => (("{}", None), w)))
                  (fun _ => inl report) "/gt" (family, []) in
  fst ensure = "bd daemons partially healthy (0/1)" /\
  snd (snd ensure) = [Signalled 14 SIGTERM; Slept 200000000; Slept 500000000].
Proof. by vm_compute. Qed.

End HealthFacts.

(** * Properties of the scan of [/proc] *)

Module ScanFacts.
Import GoStrings OS Sim StringFacts.

Section Find.
Variable fs : FileSystem.

(** The process of [entry], if it is one whose command line holds the
    pattern. *)
Lemma findEntries_spec pattern entries pids pid :
  pid ∈ Proc.findEntries fs pattern entries pids <->
  pid ∈ pids \/
  exists entry, entry ∈ entries /\ IsDir entry = true /\ Atoi (Name entry) = Some pid /\
                Contains (Proc.getCmdline fs pid) pattern = true.
Proof.
  revert pids. induction entries as [|entry entries IH]; intros pids;
    cbn [Proc.findEntries].
  - split; [by left|]. intros [?|(e & He & _)]; [done|]. by apply elem_of_nil in He.
  - destruct (IsDir entry) eqn:Hdir; cbn [negb].
    2:{ rewrite IH. split; (intros [?|(e & He & Hd & Ha & Hc)]; [by left|right]).
        - exists e. by rewrite elem_of_cons; auto.
        - apply elem_of_cons in He as [ -> |He]; [congruence|]. by exists e. }
    destruct (Atoi (Name entry)) as [p|] eqn:Hatoi.
    2:{ rewrite IH. split; (intros [?|(e & He & Hd & Ha & Hc)]; [by left|right]).
        - exists e. by rewrite elem_of_cons; auto.
        - apply elem_of_cons in He as [ -> |He]; [congruence|]. by exists e. }
    destruct (Contains (Proc.getCmdline fs p) pattern) eqn:Hc.
    + rewrite IH, elem_of_app, list_elem_of_singleton. split.
      * intros [[?| ->]|(e & He & Hd & Ha & Hc')]; [by left| |].
        -- right. exists entry. by rewrite elem_of_cons; auto.
        -- right. exists e. by rewrite elem_of_cons; auto.
      * intros [?|(e & He & Hd & Ha & Hc')]; [by auto|].
        apply elem_of_cons in He as [ -> |He]; [|right; by exists e].
        left. right. congruence.
    + rewrite IH. split; (intros [?|(e & He & Hd & Ha & Hc')]; [by left|right]).
      * exists e. by rewrite elem_of_cons; auto.
      * apply elem_of_cons in He as [ -> |He]; [|by exists e].
        assert (p = pid) as -> by congruence. congruence.
Qed.

(** X14. [FindByPattern] returns the PIDs named by the directories of
    [/proc] whose command line, with the NUL bytes read as spaces, holds
    the pattern somewhere.  A process whose command line cannot be read
    matches the empty pattern only; when [/proc] cannot be read nothing
    is found. *)
Theorem FindByPattern_spec pattern pid :
  (pid ∈ Proc.FindByPattern fs pattern <->
   exists entries entry,
     ReadDir fs "/proc" = Some entries /\ entry ∈ entries /\ IsDir entry = true /\
     Atoi (Name entry) = Some pid /\
     exists before after, Proc.getCmdline fs pid = before +:+ pattern +:+ after) /\
  (ReadFile fs (Proc.cmdlinePath pid) = None -> pattern <> EmptyString ->
   pid ∉ Proc.FindByPattern fs pattern) /\
  (ReadDir fs "/proc" = None -> Proc.FindByPattern fs pattern = []).
Proof.
  assert (Hiff : pid ∈ Proc.FindByPattern fs pattern <->
            exists entries entry,
              ReadDir fs "/proc" = Some entries /\ entry ∈ entries /\ IsDir entry = true /\
              Atoi (Name entry) = Some pid /\
              exists before after, Proc.getCmdline fs pid = before +:+ pattern +:+ after).
  { unfold Proc.FindByPattern. destruct (ReadDir fs "/proc") as [entries|].
    - rewrite findEntries_spec. split.
      + intros [Hnil|(entry & He & Hd & Ha & Hc)]; [by apply elem_of_nil in Hnil|].
        exists entries, entry. by rewrite <- Contains_spec.
      + intros (es & entry & [= <-] & He & Hd & Ha & Hc). right.
        exists entry. by rewrite Contains_spec.
    - split; [intros Hnil; by apply elem_of_nil in Hnil|]. by intros (? & ? & [=] & _). }
  split; [exact Hiff|]. split.
  - intros Hfile Hpattern Hin. apply Hiff in Hin as (_ & _ & _ & _ & _ & _ & b & a & Heq).
    unfold Proc.getCmdline in Heq. rewrite Hfile in Heq.
    destruct b; [|discriminate]. destruct pattern; [done|discriminate].
  - intros Hdir. unfold Proc.FindByPattern. by rewrite Hdir.
Qed.

End Find.

End ScanFacts.

(** * Properties of the helpers of package [notify] *)

Module NotifyFacts.
Import GoStrings Notify StringFacts.

Lemma length_Repeat_star count : String.length (Repeat "*" count) = count.
Proof.
  induction count as [|count IH]; [done|].
  cbn [Repeat]. rewrite append_String, append_nil_l. cbn [String.length]. by rewrite IH.
Qed.

Lemma substring_end hidden shown :
  substring (String.length hidden) (String.length shown) (hidden +:+ shown) = shown.
Proof.
  induction hidden as [|c hidden IH]; rewrite ?append_nil_l, ?append_String;
    cbn [String.length substring].
  - induction shown as [|c shown IH]; [done|]. cbn [String.length substring]. by rewrite IH.
  - exact IH.
Qed.

(** X16. [maskPhoneNumber] shows the last four bytes of a number of
    five bytes or more and a star for each of the others; of a number of
    four bytes or less it shows nothing, not even the length. *)
Theorem maskPhoneNumber_shows_the_last_four hidden shown short :
  String.length shown = 4%nat -> hidden <> EmptyString ->
  (String.length short <= 4)%nat ->
  maskPhoneNumber (hidden +:+ shown) = Repeat "*" (String.length hidden) +:+ shown /\
  String.length (maskPhoneNumber (hidden +:+ shown)) = String.length (hidden +:+ shown) /\
  maskPhoneNumber short = "****".
Proof.
  intros Hshown Hhidden Hshort.
  assert (Hmask : maskPhoneNumber (hidden +:+ shown)
                  = Repeat "*" (String.length hidden) +:+ shown).
  { unfold maskPhoneNumber. rewrite length_append, Hshown.
    destruct hidden as [|c hidden]; [done|]. cbn [String.length].
    destruct (Z.leb_spec (Z.of_nat (S (String.length hidden) + 4)) 4); [lia|].
    replace (S (String.length hidden) + 4 - 4)%nat with (String.length (String c hidden))
      by (cbn [String.length]; lia).
    pose proof (substring_end (String c hidden) shown) as Hend.
    rewrite Hshown in Hend. by rewrite Hend. }
  split; [exact Hmask|]. split.
  - by rewrite Hmask, !length_append, length_Repeat_star.
  - unfold maskPhoneNumber. destruct (Z.leb_spec (Z.of_nat (String.length short)) 4); [done|lia].
Qed.

Lemma maskPhoneNumber_shows_the_last_four_witness :
  maskPhoneNumber "+15551234567" = "********4567" /\ maskPhoneNumber "911" = "****".
Proof.
  destruct (maskPhoneNumber_shows_the_last_four "+1555123" "4567" "911" eq_refl)
    as (Hlong & _ & Hshort); [done|cbn; lia|].
  by split.
Defined.

Lemma bytes_append (s1 s2 : string) :
  list_ascii_of_string (s1 +:+ s2) = list_ascii_of_string s1 ++ list_ascii_of_string s2.
Proof.
  induction s1 as [|c s1 IH]; [done|].
  rewrite append_String. cbn [list_ascii_of_string app]. by rewrite IH.
Qed.

Lemma hexDigit_safe d : formSafe (hexDigit (d mod 16)) = true.
Proof.
  pose proof (Z.mod_pos_bound d 16 eq_refl) as Hd.
  assert (Hcases : d mod 16 = 0 \/ d mod 16 = 1 \/ d mod 16 = 2 \/ d mod 16 = 3 \/
                   d mod 16 = 4 \/ d mod 16 = 5 \/ d mod 16 = 6 \/ d mod 16 = 7 \/
                   d mod 16 = 8 \/ d mod 16 = 9 \/ d mod 16 = 10 \/ d mod 16 = 11 \/
                   d mod 16 = 12 \/ d mod 16 = 13 \/ d mod 16 = 14 \/ d mod 16 = 15) by lia.
  repeat (destruct Hcases as [ -> |Hcases]; [reflexivity|]). by rewrite Hcases.
Qed.

Lemma hexFrom_safe digits n acc :
  Forall (fun b => formSafe b = true) (list_ascii_of_string acc) ->
  Forall (fun b => formSafe b = true) (list_ascii_of_string (hexFrom digits n acc)).
Proof.
  revert n acc. induction digits as [|digits IH]; intros n acc Hacc; [done|].
  cbn [hexFrom].
  assert (Forall (fun b => formSafe b = true)
            (list_ascii_of_string (String (hexDigit (n mod 16)) acc))).
  { cbn [list_ascii_of_string]. constructor; [apply hexDigit_safe|done]. }
  destruct (n / 16 =? 0); [done|]. by apply IH.
Qed.

(** A rune of the ASCII range is written as the byte of that code. *)
Lemma rune_runeByte c : 0 <= c < 256 -> rune (runeByte c) = c.
Proof.
  intros Hc. unfold rune, runeByte. rewrite N_ascii_embedding; lia.
Qed.

Lemma encodeRune_safe c :
  Forall (fun b => formSafe b = true) (list_ascii_of_string (encodeRune c)).
Proof.
  unfold encodeRune.
  destruct (_ || _ || _) eqn:Halnum.
  { assert (0 <= c < 256).
    { rewrite !orb_true_iff, !andb_true_iff, !Z.leb_le in Halnum.
      change (rune "a") with 97 in Halnum. change (rune "z") with 122 in Halnum.
      change (rune "A") with 65 in Halnum. change (rune "Z") with 90 in Halnum.
      change (rune "0") with 48 in Halnum. change (rune "9") with 57 in Halnum. lia. }
    repeat constructor. unfold formSafe. rewrite rune_runeByte by done.
    by rewrite Halnum. }
  destruct (_ || _ || _ || _) eqn:Hmark.
  { assert (0 <= c < 256).
    { rewrite !orb_true_iff, !Z.eqb_eq in Hmark.
      change (rune "-") with 45 in Hmark. change (rune "_") with 95 in Hmark.
      change (rune ".") with 46 in Hmark. change (rune "~") with 126 in Hmark. lia. }
    repeat constructor. unfold formSafe. rewrite rune_runeByte by done.
    rewrite Halnum. cbn [orb]. by rewrite Hmark. }
  destruct (c =? rune " "); [by repeat constructor|].
  unfold percentHex. rewrite bytes_append. apply Forall_app. split; [by repeat constructor|].
  destruct (_ <? 2).
  - rewrite bytes_append. apply Forall_app. split; [by repeat constructor|].
    by apply hexFrom_safe.
  - by apply hexFrom_safe.
Qed.

(** What [urlEncode] leaves as it is. *)
Lemma encodeRune_plain c :
  formSafe c = true -> c <> "+"%char -> c <> "%"%char ->
  encodeRune (rune c) = String c EmptyString.
Proof.
  intros Hsafe Hplus Hpercent. unfold encodeRune, formSafe in *.
  assert (Hbyte : runeByte (rune c) = c).
  { unfold runeByte, rune. rewrite N2Z.id. apply ascii_N_embedding. }
  destruct ((rune "a" <=? rune c) && (rune c <=? rune "z")
            || (rune "A" <=? rune c) && (rune c <=? rune "Z")
            || (rune "0" <=? rune c) && (rune c <=? rune "9")) eqn:Halnum;
    [by rewrite Hbyte|].
  destruct ((rune c =? rune "-") || (rune c =? rune "_") || (rune c =? rune ".")
            || (rune c =? rune "~")) eqn:Hmark; [by rewrite Hbyte|].
  rewrite !orb_false_iff in Hmark. destruct Hmark as [[[H1 H2] H3] H4].
  cbn [orb] in Hsafe. rewrite H1, H2, H3, H4 in Hsafe. cbn [orb] in Hsafe.
  apply orb_true_iff in Hsafe as [Hp|Hp]; apply Z.eqb_eq in Hp.
  - exfalso. apply Hplus. rewrite <- Hbyte, Hp. reflexivity.
  - exfalso. apply Hpercent. rewrite <- Hbyte, Hp. reflexivity.
Qed.

(** X17. Whatever the runes of its argument, [urlEncode] writes only
    letters, digits, the marks [-], [_], [.], [~], and [+] and [%]; it
    writes one byte at least for every rune, and it copies the runes that
    are letters, digits or one of the four marks. *)
Theorem urlEncode_is_safe runes :
  Forall (fun b => formSafe b = true) (list_ascii_of_string (urlEncode runes)) /\
  (length runes <= String.length (urlEncode runes))%nat /\
  (forall s : string,
     Forall (fun b => formSafe b = true /\ b <> "+"%char /\ b <> "%"%char)
       (list_ascii_of_string s) ->
     urlEncode (rune <$> list_ascii_of_string s) = s).
Proof.
  split; [|split].
  - induction runes as [|c runes IH]; [constructor|].
    cbn [urlEncode]. rewrite bytes_append. apply Forall_app. split; [|done].
    apply encodeRune_safe.
  - induction runes as [|c runes IH]; [done|].
    cbn [urlEncode length]. rewrite length_append.
    assert (1 <= String.length (encodeRune c))%nat; [|lia].
    unfold encodeRune, percentHex.
    repeat match goal with |- context [if ?b then _ else _] => destruct b end;
      rewrite ?append_String; cbn [String.length]; lia.
  - intros s. induction s as [|c s IH]; [done|].
    cbn [list_ascii_of_string fmap list_fmap urlEncode].
    intros [(Hsafe & Hplus & Hpercent) Hrest]%Forall_cons.
    rewrite encodeRune_plain by done. rewrite append_String, append_nil_l.
    f_equal. by apply IH.
Qed.

(** A space becomes [+], and a rune beyond the ASCII range is written
    as its code point, not as its UTF-8 bytes. *)
Example urlEncode_of_a_message :
  urlEncode [rune "a"; rune " "; rune "&"; 8364] = "a+%26%20AC".
Proof. by vm_compute. Qed.

End NotifyFacts.

(** * Properties of the block in the RC file *)

Module ShellFacts.
Import GoStrings Shell StringFacts.

Section Strings.

Lemma len_append (s1 s2 : string) : len (s1 +:+ s2) = len s1 + len s2.
Proof.
  unfold len. induction s1 as [|c s1 IH]; [rewrite append_nil_l; cbn; lia|].
  rewrite append_String. cbn [String.length]. lia.
Qed.

Lemma len_String c s : len (String c s) = len s + 1.
Proof. unfold len. cbn [String.length]. lia. Qed.

Lemma len_nonneg s : 0 <= len s.
Proof. unfold len. lia. Qed.

Lemma HasPrefix_append m rest : HasPrefix (m +:+ rest) m = true.
Proof.
  induction m as [|c m IH]; [apply HasPrefix_nil|].
  rewrite append_String. cbn [HasPrefix]. by rewrite Ascii.eqb_refl, IH.
Qed.

(** A marker without line feed does not reach across one. *)
Lemma HasPrefix_line a b m :
  Contains m nl = false ->
  HasPrefix (a +:+ String lineFeed b) m = HasPrefix a m.
Proof.
  revert m. induction a as [|c a IH]; intros m Hm.
  - rewrite append_nil_l. destruct m as [|p m]; [done|]. cbn [HasPrefix].
    assert (Ascii.eqb p lineFeed = false) as ->; [|done].
    cbn [Contains HasPrefix nl] in Hm. rewrite HasPrefix_nil, andb_true_r in Hm.
    apply orb_false_elim in Hm as [Hp _]. by rewrite Ascii.eqb_sym.
  - rewrite append_String. destruct m as [|p m]; [done|]. cbn [HasPrefix].
    rewrite IH; [done|].
    cbn [Contains] in Hm. by apply orb_false_elim in Hm as [_ Hm].
Qed.

Lemma HasPrefix_at_line b m :
  Contains m nl = false -> HasPrefix (String lineFeed b) m = HasPrefix EmptyString m.
Proof. exact (HasPrefix_line EmptyString b m). Qed.

Lemma HasPrefix_String_line c a b m :
  Contains m nl = false ->
  HasPrefix (String c (a +:+ String lineFeed b)) m = HasPrefix (String c a) m.
Proof. exact (HasPrefix_line (String c a) b m). Qed.

Lemma Contains_line a b m :
  Contains m nl = false ->
  Contains (a +:+ String lineFeed b) m = Contains a m || Contains b m.
Proof.
  intros Hm. induction a as [|c a IH].
  - rewrite append_nil_l. cbn [Contains].
    rewrite (HasPrefix_at_line b m Hm). by rewrite orb_false_r.
  - rewrite append_String. cbn [Contains].
    rewrite (HasPrefix_String_line c a b m Hm), IH.
    by rewrite orb_assoc.
Qed.

(** After text that does not hold the marker, and a line feed, the
    marker is found where it stands. *)
Lemma Index_line before m rest :
  Contains m nl = false -> Contains before m = false ->
  Index (before +:+ String lineFeed (m +:+ rest)) m = len before + 1.
Proof.
  intros Hm. induction before as [|c before IH]; intros Hfree.
  - rewrite append_nil_l. cbn [Index].
    rewrite (HasPrefix_at_line (m +:+ rest) m Hm).
    cbn [Contains] in Hfree. rewrite orb_false_r in Hfree. rewrite Hfree.
    destruct m as [|p m]; [done|].
    assert (Index (String p m +:+ rest) (String p m) = 0) as ->; [|done].
    rewrite append_String. cbn [Index]. rewrite <- append_String.
    by rewrite HasPrefix_append.
  - cbn [Contains] in Hfree. apply orb_false_elim in Hfree as [Hhere Hfree].
    rewrite append_String. cbn [Index].
    rewrite (HasPrefix_String_line c before (m +:+ rest) m Hm), Hhere.
    rewrite (IH Hfree).
    pose proof (len_nonneg before).
    destruct (Z.eqb_spec (len before + 1) (-1)); [lia|].
    unfold len. cbn [String.length]. lia.
Qed.

Lemma Index_absent s m : Contains s m = false -> Index s m = -1.
Proof.
  induction s as [|c s IH]; cbn [Contains Index]; intros Hfree.
  - rewrite orb_false_r in Hfree. by rewrite Hfree.
  - apply orb_false_elim in Hfree as [-> Hfree]. by rewrite (IH Hfree).
Qed.

Lemma substring_all s : substring 0 (String.length s) s = s.
Proof. induction s as [|c s IH]; [done|]. cbn [String.length substring]. by rewrite IH. Qed.

Lemma substring_none s : substring (String.length s) 0 s = EmptyString.
Proof. induction s as [|c s IH]; [done|]. cbn [String.length substring]. exact IH. Qed.

Lemma substring_head (s1 s2 : string) : substring 0 (String.length s1) (s1 +:+ s2) = s1.
Proof.
  induction s1 as [|c s1 IH].
  - rewrite append_nil_l. by destruct s2.
  - rewrite append_String. cbn [String.length substring]. by rewrite IH.
Qed.

Lemma substring_tail (s1 s2 : string) n :
  substring (String.length s1) n (s1 +:+ s2) = substring 0 n s2.
Proof.
  induction s1 as [|c s1 IH]; [done|].
  rewrite append_String. cbn [String.length substring]. exact IH.
Qed.

Lemma slice_head s1 s2 : slice (s1 +:+ s2) 0 (len s1) = s1.
Proof.
  unfold slice, len. rewrite Z.sub_0_r, Nat2Z.id. apply substring_head.
Qed.

Lemma slice_tail s1 s2 : slice (s1 +:+ s2) (len s1) (len (s1 +:+ s2)) = s2.
Proof.
  unfold slice. rewrite len_append. unfold len.
  replace (Z.of_nat (String.length s1) + Z.of_nat (String.length s2)
           - Z.of_nat (String.length s1)) with (Z.of_nat (String.length s2)) by lia.
  rewrite !Nat2Z.id, substring_tail. apply substring_all.
Qed.

Lemma byteIs_at s1 c s2 : byteIs (s1 +:+ String c s2) (len s1) c = true.
Proof.
  unfold byteIs, len. rewrite Nat2Z.id.
  induction s1 as [|b s1 IH].
  - rewrite append_nil_l. cbn [String.length get]. apply Ascii.eqb_refl.
  - rewrite append_String. cbn [String.length get]. exact IH.
Qed.

Lemma block_split (a b c d e : string) :
  a +:+ String lineFeed (b +:+ (String lineFeed c +:+ String lineFeed (d +:+ e)))
  = (a +:+ String lineFeed (b +:+ (String lineFeed c +:+ String lineFeed d))) +:+ e.
Proof.
  rewrite (append_assoc a), (append_String lineFeed (b +:+ _)), (append_assoc b),
    (append_assoc (String lineFeed c)), (append_String lineFeed d).
  reflexivity.
Qed.

Lemma slice_empty s : slice s (len s) (len s) = EmptyString.
Proof. unfold slice, len. rewrite Z.sub_diag, Nat2Z.id. apply substring_none. Qed.

End Strings.

Section Block.
Context {W : Type} `{Disk W}.
Variable ConfigDir : string.

Lemma byteIs_after s1 s2 c :
  byteIs (s1 +:+ s2) (len s1) c
  = match s2 with EmptyString => false | String b _ => Ascii.eqb b c end.
Proof.
  unfold byteIs, len. rewrite Nat2Z.id.
  induction s1 as [|b s1 IH].
  - rewrite append_nil_l. by destruct s2.
  - rewrite append_String. cbn [String.length get]. exact IH.
Qed.

(** Where the markers of a block on lines of its own are found:
    [before] does not hold the start marker, [body] not the end marker. *)
Lemma markers_found before body post :
  Contains before markerStart = false -> Contains body markerEnd = false ->
  let content := before +:+ String lineFeed
      (markerStart +:+ (String lineFeed body +:+ String lineFeed (markerEnd +:+ post))) in
  let block := before +:+ String lineFeed
      (markerStart +:+ (String lineFeed body +:+ String lineFeed markerEnd)) in
  Index content markerStart = len before + 1 /\
  Index (slice content (len before + 1) (len content)) markerEnd
  = len markerStart + 1 + len body + 1 /\
  content = block +:+ post /\
  len block = len markerStart + 1 + len body + 1 + (len before + 1) + len markerEnd.
Proof.
  intros Hfree Hbody content block. subst content block.
  set (rest := String lineFeed body +:+ String lineFeed (markerEnd +:+ post)).
  split; [by apply Index_line|]. split; [|split].
  - assert (Htail : slice (before +:+ String lineFeed (markerStart +:+ rest))
                      (len before + 1)
                      (len (before +:+ String lineFeed (markerStart +:+ rest)))
                    = markerStart +:+ rest).
    { replace (before +:+ String lineFeed (markerStart +:+ rest))
        with ((before +:+ nl) +:+ (markerStart +:+ rest)) by (by rewrite append_assoc).
      replace (len before + 1) with (len (before +:+ nl))
        by (rewrite len_append; reflexivity).
      apply slice_tail. }
    rewrite Htail. unfold rest.
    replace (markerStart +:+ (String lineFeed body +:+ String lineFeed (markerEnd +:+ post)))
      with ((markerStart +:+ String lineFeed body) +:+ String lineFeed (markerEnd +:+ post))
      by (by rewrite !append_assoc).
    rewrite Index_line; [| reflexivity |].
    + repeat (rewrite len_append || rewrite len_String). lia.
    + rewrite Contains_line by reflexivity. by rewrite Hbody.
  - apply block_split.
  - repeat (rewrite len_append || rewrite len_String). lia.
Qed.

(** On an RC file that holds a block on lines of its own,
    [removeFromRCFile] writes the file without the block, the line feed
    before it and one line feed after it. *)
Lemma removeFromRCFile_block path before body post (w : W) :
  Contains before markerStart = false -> Contains body markerEnd = false ->
  ReadFile path w
  = inl (before +:+ nl +:+ markerStart +:+ nl +:+ body +:+ nl +:+ markerEnd +:+ post) ->
  removeFromRCFile path w = WriteFile path (before +:+ withoutLineFeed post) w.
Proof.
  intros Hfree Hbody Hread.
  change (before +:+ nl +:+ markerStart +:+ nl +:+ body +:+ nl +:+ markerEnd +:+ post)
    with (before +:+ String lineFeed
            (markerStart +:+ (String lineFeed body +:+ String lineFeed (markerEnd +:+ post))))
    in Hread.
  destruct (markers_found before body post Hfree Hbody) as (Hstart & Hend & Hsplit & Hlen).
  cbv zeta in *.
  set (content := before +:+ String lineFeed
         (markerStart +:+ (String lineFeed body +:+ String lineFeed (markerEnd +:+ post))))
    in *.
  set (block := before +:+ String lineFeed
         (markerStart +:+ (String lineFeed body +:+ String lineFeed markerEnd))) in *.
  pose proof (len_nonneg before). pose proof (len_nonneg body). pose proof (len_nonneg post).
  pose proof (len_nonneg markerStart). pose proof (len_nonneg markerEnd).
  assert (Hcontent : len content = len block + len post)
    by (by rewrite Hsplit, len_append).
  unfold removeFromRCFile. rewrite Hread. cbv zeta.
  rewrite Hstart. destruct (Z.eqb_spec (len before + 1) (-1)); [lia|].
  rewrite Hend. destruct (Z.eqb_spec (len markerStart + 1 + len body + 1) (-1)); [lia|].
  rewrite <- Hlen.
  replace (len before + 1 - 1) with (len before) by lia.
  assert (Hfirst : byteIs content (len before) lineFeed = true) by apply byteIs_at.
  rewrite Hfirst. destruct (Z.ltb_spec 0 (len before + 1)); [|lia]. cbn [andb].
  assert (Hhead : slice content 0 (len before) = before) by apply slice_head.
  assert (Hbyte : byteIs content (len block) lineFeed
                  = match post with
                    | EmptyString => false
                    | String b _ => Ascii.eqb b lineFeed
                    end).
  { rewrite Hsplit. apply byteIs_after. }
  rewrite Hhead, Hbyte. f_equal. f_equal.
  destruct post as [|c post].
  + rewrite andb_false_r. rewrite Hsplit, append_nil_r. apply slice_empty.
  + rewrite len_String in Hcontent. pose proof (len_nonneg post).
    destruct (Z.ltb_spec (len block) (len content)); [|lia]. cbn [andb withoutLineFeed].
    destruct (Ascii.eqb_spec c lineFeed) as [ -> |Hc].
    * replace (len block + 1) with (len (block +:+ nl))
        by (rewrite len_append; reflexivity).
      rewrite Hsplit.
      replace (block +:+ String lineFeed post)
        with ((block +:+ nl) +:+ post) by (by rewrite append_assoc).
      apply slice_tail.
    * rewrite Hsplit. apply slice_tail.
Qed.

(** On such a file [addToRCFile] writes the file with the body of the
    block replaced by the hook line. *)
Lemma addToRCFile_block path before body post (w : W) :
  Contains before markerStart = false -> Contains body markerEnd = false ->
  ReadFile path w
  = inl (before +:+ nl +:+ markerStart +:+ nl +:+ body +:+ nl +:+ markerEnd +:+ post) ->
  addToRCFile ConfigDir path w
  = WriteFile path
      (before +:+ nl +:+ markerStart +:+ nl +:+ hookSourceLine ConfigDir +:+ nl
       +:+ markerEnd +:+ post) w.
Proof.
  intros Hfree Hbody Hread.
  change (before +:+ nl +:+ markerStart +:+ nl +:+ body +:+ nl +:+ markerEnd +:+ post)
    with (before +:+ String lineFeed
            (markerStart +:+ (String lineFeed body +:+ String lineFeed (markerEnd +:+ post))))
    in Hread.
  destruct (markers_found before body post Hfree Hbody) as (Hstart & Hend & Hsplit & Hlen).
  cbv zeta in *.
  set (content := before +:+ String lineFeed
         (markerStart +:+ (String lineFeed body +:+ String lineFeed (markerEnd +:+ post))))
    in *.
  set (block := before +:+ String lineFeed
         (markerStart +:+ (String lineFeed body +:+ String lineFeed markerEnd))) in *.
  pose proof (len_nonneg before). pose proof (len_nonneg body). pose proof (len_nonneg post).
  pose proof (len_nonneg markerStart). pose proof (len_nonneg markerEnd).
  assert (Hcontent : len content = len block + len post)
    by (by rewrite Hsplit, len_append).
  unfold addToRCFile. rewrite Hread. cbv zeta.
  assert (Hholds : Contains content markerStart = true).
  { apply Contains_spec.
    exists (before +:+ nl),
      (String lineFeed body +:+ String lineFeed (markerEnd +:+ post)).
    unfold content. by rewrite append_assoc. }
  rewrite Hholds. unfold updateRCFile. cbv zeta. rewrite Hstart, Hend.
  destruct (Z.eqb_spec (len markerStart + 1 + len body + 1) (-1)); [lia|].
  rewrite <- Hlen. f_equal.
  assert (Hhead : slice content 0 (len before + 1) = before +:+ nl).
  { unfold content.
    replace (before +:+ String lineFeed
               (markerStart +:+ String lineFeed body +:+ String lineFeed (markerEnd +:+ post)))
      with ((before +:+ nl) +:+
            (markerStart +:+ String lineFeed body +:+ String lineFeed (markerEnd +:+ post)))
      by (by rewrite append_assoc).
    replace (len before + 1) with (len (before +:+ nl))
      by (rewrite len_append; reflexivity).
    apply slice_head. }
  assert (Htail : slice content (len block) (len content) = post).
  { rewrite Hsplit. apply slice_tail. }
  rewrite Hhead, Htail. by rewrite !append_assoc.
Qed.

(** X23. On an RC file that holds a block on lines of its own (text
    without the start marker, a line feed, the start marker, a body
    without the end marker, the end marker, then any text),
    [removeFromRCFile] writes the file without the block, the line feed
    before it and one line feed after it, and [addToRCFile] writes the
    file with the body replaced by the hook line: the text before and
    after the block is kept as it is.  On a file that cannot be read or
    does not hold the start marker, [removeFromRCFile] writes nothing. *)
Theorem block_in_the_middle path before body post (w : W) :
  (Contains before markerStart = false /\ Contains body markerEnd = false /\
   ReadFile path w
   = inl (before +:+ nl +:+ markerStart +:+ nl +:+ body +:+ nl +:+ markerEnd +:+ post) ->
   removeFromRCFile path w = WriteFile path (before +:+ withoutLineFeed post) w /\
   addToRCFile ConfigDir path w
   = WriteFile path
       (before +:+ nl +:+ markerStart +:+ nl +:+ hookSourceLine ConfigDir +:+ nl
        +:+ markerEnd +:+ post) w) /\
  ((forall content, ReadFile path w = inl content -> Contains content markerStart = false) ->
   removeFromRCFile path w = (None, w)).
Proof.
  split.
  - intros (Hfree & Hbody & Hread). split.
    + by apply (removeFromRCFile_block path before body post w).
    + by apply (addToRCFile_block path before body post w).
  - intros Hnone. unfold removeFromRCFile.
    destruct (ReadFile path w) as [content|e]; [|done]. cbv zeta.
    by rewrite (Index_absent content markerStart (Hnone content eq_refl)).
Qed.

(** What is written is what is read next. *)
Hypothesis written_is_read :
  forall path data (w w' : W), WriteFile path data w = (None, w') -> ReadFile path w' = inl data.

(** The configuration directory does not spell the end marker. *)
Hypothesis hook_without_end :
  Contains (hookSourceLine ConfigDir) markerEnd = false.

(** A file without the start marker gets the block appended. *)
Lemma addToRCFile_appends path (w w1 : W) :
  Contains (match ReadFile path w with inl data => data | inr _ => EmptyString end)
    markerStart = false ->
  addToRCFile ConfigDir path w = (None, w1) ->
  ReadFile path w1
  = inl ((match ReadFile path w with inl data => data | inr _ => EmptyString end)
         +:+ nl +:+ markerStart +:+ nl +:+ hookSourceLine ConfigDir
         +:+ nl +:+ markerEnd +:+ nl).
Proof.
  intros Hfree Hadd. unfold addToRCFile in Hadd.
  destruct (ReadFile path w) as [data|[|e]]; [| |discriminate]; cbv zeta in Hadd;
    rewrite Hfree in Hadd.
  - destruct (0 <? len data); [|exact (written_is_read _ _ _ _ Hadd)].
    destruct (WriteFile (path +:+ ".gongshow-backup") data w) as [[e|] w'];
      [discriminate|]. exact (written_is_read _ _ _ _ Hadd).
  - exact (written_is_read _ _ _ _ Hadd).
Qed.

(** X18. Installing the hook into an RC file that does not hold the
    start marker, then removing it, writes back the file as it was
    (the empty file, if there was none); a second removal then changes
    nothing.  The configuration directory must not spell the end
    marker. *)
Theorem install_then_remove_restores path (w w1 : W) :
  let content := match ReadFile path w with inl data => data | inr _ => EmptyString end in
  Contains content markerStart = false ->
  addToRCFile ConfigDir path w = (None, w1) ->
  removeFromRCFile path w1 = WriteFile path content w1 /\
  forall w2, WriteFile path content w1 = (None, w2) -> removeFromRCFile path w2 = (None, w2).
Proof.
  intros content Hfree Hadd.
  pose proof (addToRCFile_appends path w w1 Hfree Hadd) as Hread. fold content in Hread.
  split.
  - rewrite (removeFromRCFile_block path content (hookSourceLine ConfigDir) nl w1
               Hfree hook_without_end Hread).
    cbn [withoutLineFeed nl]. rewrite Ascii.eqb_refl. by rewrite append_nil_r.
  - intros w2 Hwrite. unfold removeFromRCFile.
    rewrite (written_is_read _ _ _ _ Hwrite). cbv zeta.
    by rewrite (Index_absent content markerStart Hfree).
Qed.

(** X19. Installing the hook a second time writes the RC file as the
    first installation left it: no second block is added. *)
Theorem install_twice_adds_one_block path (w w1 : W) :
  let content := match ReadFile path w with inl data => data | inr _ => EmptyString end in
  Contains content markerStart = false ->
  addToRCFile ConfigDir path w = (None, w1) ->
  addToRCFile ConfigDir path w1
  = WriteFile path
      (content +:+ (nl +:+ markerStart +:+ nl +:+ hookSourceLine ConfigDir +:+ nl
                    +:+ markerEnd +:+ nl)) w1.
Proof.
  intros content Hfree Hadd.
  pose proof (addToRCFile_appends path w w1 Hfree Hadd) as Hread. fold content in Hread.
  exact (addToRCFile_block path content (hookSourceLine ConfigDir) nl w1
           Hfree hook_without_end Hread).
Qed.

End Block.

(** The files kept in a list give back what was written. *)
Lemma files_written_is_read path data (w w' : list (string * string)) :
  WriteFile path data w = (None, w') -> ReadFile path w' = inl data.
Proof.
  cbn [WriteFile ReadFile files]. intros [= <-].
  cbn [Sim.lookupFile]. by rewrite String.eqb_refl.
Qed.

Lemma home_installed :
  addToRCFile "/home/u/.config/gongshow" "/home/u/.zshrc" home
  = (None, snd (addToRCFile "/home/u/.config/gongshow" "/home/u/.zshrc" home)).
Proof. vm_compute. reflexivity. Qed.

(** X18 for a [.zshrc] of one line. *)
Lemma install_then_remove_restores_witness :
  removeFromRCFile "/home/u/.zshrc"
    (snd (addToRCFile "/home/u/.config/gongshow" "/home/u/.zshrc" home))
  = (None, ("/home/u/.zshrc", "export EDITOR=vi")
           :: snd (addToRCFile "/home/u/.config/gongshow" "/home/u/.zshrc" home)).
Proof.
  refine (proj1 (install_then_remove_restores "/home/u/.config/gongshow"
                   files_written_is_read eq_refl "/home/u/.zshrc" home
                   (snd (addToRCFile "/home/u/.config/gongshow" "/home/u/.zshrc" home))
                   eq_refl home_installed)).
Defined.

(** X19 for the same file: the second installation leaves one block. *)
Lemma install_twice_adds_one_block_witness :
  ReadFile "/home/u/.zshrc"
    (snd (addToRCFile "/home/u/.config/gongshow" "/home/u/.zshrc"
            (snd (addToRCFile "/home/u/.config/gongshow" "/home/u/.zshrc" home))))
  = ReadFile "/home/u/.zshrc"
      (snd (addToRCFile "/home/u/.config/gongshow" "/home/u/.zshrc" home)).
Proof.
  rewrite (install_twice_adds_one_block "/home/u/.config/gongshow"
             files_written_is_read eq_refl "/home/u/.zshrc" home
             (snd (addToRCFile "/home/u/.config/gongshow" "/home/u/.zshrc" home))
             eq_refl home_installed).
  vm_compute. reflexivity.
Defined.

(** X23 for an RC file to which a line was added after the block, and
    whose block names another configuration directory. *)
Lemma block_in_the_middle_witness :
  removeFromRCFile "/home/u/.zshrc" edited
  = (None, ("/home/u/.zshrc", "export EDITOR=vi" +:+ nl +:+ "alias gs=gt" +:+ nl) :: edited).
Proof.
  refine (proj1 (proj1 (block_in_the_middle "/home/u/.config/gongshow" "/home/u/.zshrc"
                          ("export EDITOR=vi" +:+ nl) "source /old/shell-hook.sh"
                          (nl +:+ "alias gs=gt" +:+ nl) edited)
                   (conj eq_refl (conj eq_refl eq_refl)))).
Defined.

End ShellFacts.

(** * Reading what the kernel writes *)

Module ParseFacts.
Import GoStrings OS KernelText StringFacts.

Section Numbers.

Lemma digits_of_uint_acc d (acc : positive) :
  digits (NilEmpty.string_of_uint d) (Z.pos acc) = Some (Z.pos (Pos.of_uint_acc d acc)).
Proof.
  revert acc. induction d; intros acc; cbn [NilEmpty.string_of_uint digits Pos.of_uint_acc];
    [done|..];
    match goal with
    | |- context [digit ?c] => change (digit c) with (Some (Z.of_N (N_of_ascii c) - 48))
    end; cbn [N_of_ascii N_of_digits Z.of_N];
    match goal with
    | |- digits _ ?v = Some (Z.pos (Pos.of_uint_acc _ ?a)) =>
        replace v with (Z.pos a) by lia
    end; apply IHd.
Qed.

Lemma digits_of_uint d :
  digits (NilEmpty.string_of_uint d) 0 = Some (Z.of_N (Pos.of_uint d)).
Proof.
  induction d; cbn [NilEmpty.string_of_uint digits Pos.of_uint]; [done|exact IHd|..];
    match goal with
    | |- context [digit ?c] => change (digit c) with (Some (Z.of_N (N_of_ascii c) - 48))
    end; cbn [N_of_ascii N_of_digits Z.of_N Z.mul Z.add Z.sub Z.opp Z.pos_sub Pos.add
              Pos.mul Pos.succ Pos.pred_double Z.double Z.succ_double Z.pred_double];
    apply digits_of_uint_acc.
Qed.

(** What [Itoa] prints for a positive number: digits, one at least. *)
Lemma printed_digits d :
  Forall (fun c => isAsciiSpace c = false /\ Ascii.eqb c "-" = false /\ Ascii.eqb c "+" = false)
    (list_ascii_of_string (NilEmpty.string_of_uint d)).
Proof.
  induction d; cbn [NilEmpty.string_of_uint list_ascii_of_string]; constructor;
    try done; by repeat split.
Qed.

Lemma Itoa_pos p : Itoa (Z.pos p) = NilEmpty.string_of_uint (Pos.to_uint p).
Proof.
  unfold Itoa. cbn [Z.to_int NilZero.string_of_int]. unfold NilZero.string_of_uint.
  pose proof (DecimalPos.Unsigned.to_uint_nonnil p). by destruct (Pos.to_uint p).
Qed.

(** [Atoi] reads back what [Itoa] prints. *)
Lemma Atoi_Itoa n : 0 <= n <= maxInt -> Atoi (Itoa n) = Some n.
Proof.
  intros Hn. destruct n as [|p|p]; [done| |lia].
  rewrite Itoa_pos.
  pose proof (digits_of_uint (Pos.to_uint p)) as Hdigits.
  rewrite DecimalPos.Unsigned.of_to in Hdigits. cbn [Z.of_N] in Hdigits.
  pose proof (printed_digits (Pos.to_uint p)) as Hprinted.
  pose proof (DecimalPos.Unsigned.to_uint_nonnil p) as Hnonnil.
  unfold Atoi.
  destruct (NilEmpty.string_of_uint (Pos.to_uint p)) as [|c rest] eqn:Hs.
  { destruct (Pos.to_uint p); try done; discriminate. }
  cbn [list_ascii_of_string] in Hprinted.
  apply Forall_cons in Hprinted as [(_ & -> & ->) _].
  rewrite Hdigits.
  destruct (Z.leb_spec minInt (Z.pos p)); [|unfold minInt in *; lia].
  destruct (Z.leb_spec (Z.pos p) maxInt); [done|lia].
Qed.

Lemma FieldsFrom_word (word : string) rest cur :
  Forall (fun c => isAsciiSpace c = false) (list_ascii_of_string word) ->
  cur +:+ word <> EmptyString ->
  FieldsFrom (word +:+ " " +:+ rest) cur = (cur +:+ word) :: FieldsFrom rest EmptyString.
Proof.
  revert cur. induction word as [|c word IH]; intros cur Hword Hsome.
  - rewrite append_nil_l, append_nil_r in *. rewrite append_String, append_nil_l.
    cbn [FieldsFrom]. change (isAsciiSpace " ") with true. cbv iota.
    by destruct cur.
  - cbn [list_ascii_of_string] in Hword. apply Forall_cons in Hword as [Hc Hword].
    rewrite append_String. cbn [FieldsFrom]. rewrite Hc.
    rewrite IH; [|done|].
    + by rewrite append_assoc.
    + rewrite append_assoc. exact Hsome.
Qed.

Lemma Itoa_word n :
  0 <= n ->
  Forall (fun c => isAsciiSpace c = false) (list_ascii_of_string (Itoa n)) /\
  Itoa n <> EmptyString.
Proof.
  intros Hn. destruct n as [|p|p]; [by repeat constructor| |lia].
  rewrite Itoa_pos. split.
  - eapply Forall_impl; [apply printed_digits|]. by intros c [? _].
  - pose proof (DecimalPos.Unsigned.to_uint_nonnil p). by destruct (Pos.to_uint p).
Qed.

Lemma Fields_childrenLine pids :
  Forall (fun pid => 0 <= pid) pids -> Fields (childrenLine pids) = Itoa <$> pids.
Proof.
  unfold Fields. induction 1 as [|pid pids Hpid _ IH]; [done|].
  cbn [childrenLine fold_right fmap list_fmap]. fold (childrenLine pids).
  destruct (Itoa_word pid Hpid) as [Hword Hsome].
  rewrite FieldsFrom_word by done. by rewrite append_nil_l, IH.
Qed.

End Numbers.

Section Children.
Variable fs : FileSystem.

(** X20. [GetChildren] reads back the line the kernel writes: when the
    [children] file of a process lists PIDs (numbers of the range of a
    Go [int], not negative), [GetChildren] returns those PIDs in that
    order; when the file cannot be read it returns none. *)
Theorem GetChildren_reads_the_kernel_line pid pids :
  Forall (fun child => 0 <= child <= maxInt) pids ->
  (ReadFile fs (Proc.childrenPath pid) = Some (childrenLine pids) ->
   Proc.GetChildren fs pid = pids) /\
  (ReadFile fs (Proc.childrenPath pid) = None -> Proc.GetChildren fs pid = []).
Proof.
  intros Hpids. unfold Proc.GetChildren. split; intros ->; [|done].
  rewrite Fields_childrenLine.
  2:{ eapply Forall_impl; [exact Hpids|]. intros ?. cbv beta. lia. }
  assert (Hread : omap Atoi (Itoa <$> pids) = pids).
  { induction Hpids as [|child pids Hchild _ IH]; [done|].
    rewrite fmap_cons. change (omap Atoi (Itoa child :: (Itoa <$> pids)))
      with (match Atoi (Itoa child) with
            | Some n => n :: omap Atoi (Itoa <$> pids)
            | None => omap Atoi (Itoa <$> pids)
            end).
    by rewrite Atoi_Itoa, IH. }
  exact Hread.
Qed.

End Children.

(** X20 for the tmux server of the sample machine. *)
Lemma GetChildren_reads_the_kernel_line_witness :
  Proc.GetChildren (Sim.procfs (Sim.procs Sim.family)) 11 = [12; 14].
Proof.
  refine (proj1 (GetChildren_reads_the_kernel_line (Sim.procfs (Sim.procs Sim.family))
                   11 [12; 14] _) eq_refl).
  repeat constructor; by vm_compute.
Defined.

End ParseFacts.
